(** * GeoShapes: the geoshape / geopoint request pipeline of kartotherian

    A shallow embedding of the [GeoShapes] class (request normalisation,
    graph query, property sanitisation, spatial query, result assembly and
    format encoding) together with the properties of it that the
    specification states, further properties of the class, and the
    compression helpers of [lib/core.js].

    Conventions of the embedding.
    - JavaScript values are the inductive [jsval]; numbers are IEEE binary64
      floats, as in the language.
    - A JavaScript object is the list of its own enumerable properties in
      enumeration order ([obj]); a read or an [in] test with a computed name
      also sees the members inherited from [Object.prototype] ([Proto]).
    - Request parameters, HTTP headers and the table of SQL templates are
      looked up by key only, so they are finite maps ([gmap]).
    - A thrown [Err] is the [Throw] case of [result]; code that talks to the
      outside world runs in the monad [M], which threads the shared
      configuration object and the log of external calls. *)

From Stdlib Require Import Floats Ascii.
From stdpp Require Import gmap strings list.

Local Open Scope string_scope.
#[local] Set Warnings "-clear-no-such-hyp".
#[local] Set Warnings "-register-all".

(** ** JavaScript values *)

#[warnings="-register-all"]
Inductive jsval : Type :=
| JUndefined
| JNull
| JBool (b : bool)
| JNum (x : float)
| JStr (s : string)
| JArr (items : list jsval)
| JObj (props : list (string * jsval))
| JBuiltin (name : string).

Abbreviation obj := (list (string * jsval)).

(** [JBuiltin name] is the value of [Object.prototype[ name ]]: a built-in
    function or, for [__proto__], the prototype object itself. *)

(** [if ( v )]: the falsy values are undefined, null, false, 0, NaN and the
    empty string. *)
Definition truthy (v : jsval) : bool :=
  match v with
  | JUndefined | JNull => false
  | JBool b => b
  | JNum x => negb (PrimFloat.is_zero x || PrimFloat.is_nan x)
  | JStr s => negb (String.eqb s EmptyString)
  | JArr _ | JObj _ | JBuiltin _ => true
  end.

(** A request parameter or configuration string that may be absent. *)
Definition truthy_str (s : option string) : bool :=
  match s with
  | Some s => negb (String.eqb s EmptyString)
  | None => false
  end.

Definition of_opt_str (s : option string) : jsval :=
  match s with Some s => JStr s | None => JUndefined end.

(** ** What every plain object inherits

    The objects of this program are plain objects (object literals, rest and
    spread copies, results of [JSON.parse], the configuration and the request
    parameters): a property that is not their own is looked up in
    [Object.prototype]. *)

Module Proto.

Definition names : list string :=
  [ "constructor"; "__defineGetter__"; "__defineSetter__"; "hasOwnProperty";
    "__lookupGetter__"; "__lookupSetter__"; "isPrototypeOf";
    "propertyIsEnumerable"; "toString"; "valueOf"; "__proto__";
    "toLocaleString" ].

(** [k in Object.prototype] *)
Definition has (k : string) : bool := existsb (String.eqb k) names.

(** [Object.prototype[ k ]] *)
Definition value (k : string) : jsval :=
  if has k then JBuiltin k else JUndefined.

(** [String( Object.prototype[ name ] )] as Node prints it: the source text
    of a built-in function ([constructor] is the function [Object]), and
    [[object Object]] for the prototype object. *)
Definition to_string (name : string) : string :=
  if String.eqb name "__proto__" then "[object Object]"
  else "function " ++ (if String.eqb name "constructor" then "Object" else name)
       ++ "() { [native code] }".

End Proto.

(** ** Objects as ordered property lists *)

Module Obj.

(** [o.hasOwnProperty( k )] *)
Definition has (k : string) (o : obj) : bool :=
  existsb (fun kv => String.eqb k kv.1) o.

(** [k in o]: own or inherited. *)
Definition mem (k : string) (o : obj) : bool :=
  has k o || Proto.has k.

Fixpoint get (k : string) (o : obj) : option jsval :=
  match o with
  | [] => None
  | (k', v) :: o' => if String.eqb k k' then Some v else get k o'
  end.

(** [o[k]]: an own property, or else the inherited member of that name; a
    name that is neither reads as undefined. *)
Definition prop (k : string) (o : obj) : jsval :=
  default (Proto.value k) (get k o).

(** [o[k] = v]: an existing property keeps its place, a new one goes last. *)
Fixpoint set (k : string) (v : jsval) (o : obj) : obj :=
  match o with
  | [] => [(k, v)]
  | (k', v') :: o' =>
      if String.eqb k k' then (k', v) :: o' else (k', v') :: set k v o'
  end.

(** [delete o[k]]. *)
Definition delete (k : string) (o : obj) : obj :=
  filter (fun kv => kv.1 ≠ k) o.

Definition keys (o : obj) : list string := o.*1.

(** Own property names are pairwise distinct. *)
Definition wf (o : obj) : Prop := NoDup (keys o).

End Obj.

(** Member access [v.k] on an arbitrary value: it throws on undefined and
    null, reads a property of an object, and is undefined on the other
    values (the names asked for here are fixed ones, none of them an array
    index, [length] or the name of a member of a built-in prototype). *)
Definition member_opt (k : string) (v : jsval) : option jsval :=
  match v with
  | JUndefined | JNull => None
  | JObj o => Some (Obj.prop k o)
  | _ => Some JUndefined
  end.

(** ** Regular expressions

    The two patterns of the source are matched with Brzozowski derivatives
    over the characters of the string. *)

Module Regex.

Inductive regex : Type :=
| Void
| Eps
| Chr (c : ascii)
| Range (lo hi : ascii)
| AnyChar
| Seq (r1 r2 : regex)
| Alt (r1 r2 : regex)
| Star (r : regex).

Definition Opt (r : regex) : regex := Alt Eps r.
Definition Plus (r : regex) : regex := Seq r (Star r).

(** [r{0,n}] *)
Fixpoint UpTo (n : nat) (r : regex) : regex :=
  match n with
  | O => Eps
  | S n' => Opt (Seq r (UpTo n' r))
  end.

Definition in_range (lo hi c : ascii) : bool :=
  (nat_of_ascii lo <=? nat_of_ascii c)%nat && (nat_of_ascii c <=? nat_of_ascii hi)%nat.

Fixpoint nullable (r : regex) : bool :=
  match r with
  | Void | Chr _ | Range _ _ | AnyChar => false
  | Eps | Star _ => true
  | Seq r1 r2 => nullable r1 && nullable r2
  | Alt r1 r2 => nullable r1 || nullable r2
  end.

Fixpoint deriv (c : ascii) (r : regex) : regex :=
  match r with
  | Void | Eps => Void
  | Chr c' => if Ascii.eqb c c' then Eps else Void
  | Range lo hi => if in_range lo hi c then Eps else Void
  | AnyChar => Eps
  | Seq r1 r2 =>
      if nullable r1 then Alt (Seq (deriv c r1) r2) (deriv c r2)
      else Seq (deriv c r1) r2
  | Alt r1 r2 => Alt (deriv c r1) (deriv c r2)
  | Star r1 => Seq (deriv c r1) (Star r1)
  end.

(** The whole string is in the language of [r]: a pattern written
    [/^r$/]. *)
Fixpoint full_match (r : regex) (s : string) : bool :=
  match s with
  | EmptyString => nullable r
  | String c s' => full_match (deriv c r) s'
  end.

(** Some substring is in the language of [r]: a pattern without anchors. *)
Definition search (r : regex) (s : string) : bool :=
  full_match (Seq (Star AnyChar) (Seq r (Star AnyChar))) s.

Definition digit : regex := Range "0" "9".

End Regex.

(** [floatRegex = /-?[0-9]+(\.[0-9]+)?/], without anchors. *)
Definition floatRegex : Regex.regex :=
  Regex.Seq (Regex.Opt (Regex.Chr "-"))
    (Regex.Seq (Regex.Plus Regex.digit)
       (Regex.Opt (Regex.Seq (Regex.Chr ".") (Regex.Plus Regex.digit)))).

Definition floatRegex_test (s : string) : bool := Regex.search floatRegex s.

(** [/^Q[1-9][0-9]{0,15}$/] *)
Definition idRegex : Regex.regex :=
  Regex.Seq (Regex.Chr "Q")
    (Regex.Seq (Regex.Range "1" "9") (Regex.UpTo 15 Regex.digit)).

Definition idRegex_test (s : string) : bool := Regex.full_match idRegex s.

(** The language of a regular expression. *)
Inductive lang : Regex.regex → string → Prop :=
| lang_eps : lang Regex.Eps EmptyString
| lang_chr c : lang (Regex.Chr c) (String c EmptyString)
| lang_range lo hi c :
    Regex.in_range lo hi c = true → lang (Regex.Range lo hi) (String c EmptyString)
| lang_any c : lang Regex.AnyChar (String c EmptyString)
| lang_seq r1 r2 s1 s2 :
    lang r1 s1 → lang r2 s2 → lang (Regex.Seq r1 r2) (s1 ++ s2)
| lang_alt_l r1 r2 s : lang r1 s → lang (Regex.Alt r1 r2) s
| lang_alt_r r1 r2 s : lang r2 s → lang (Regex.Alt r1 r2) s
| lang_star_nil r : lang (Regex.Star r) EmptyString
| lang_star_cons r s1 s2 :
    lang r s1 → lang (Regex.Star r) s2 → lang (Regex.Star r) (s1 ++ s2).

Definition is_digit (c : ascii) : bool := Regex.in_range "0" "9" c.

Fixpoint chars (s : string) : list ascii :=
  match s with
  | EmptyString => []
  | String c s' => c :: chars s'
  end.

(** ** Errors

    Every failure of the source is an [Err] built from a message; the
    constructors name the messages after the error taxonomy of the
    specification. *)

Inductive Err : Type :=
| InvalidInput
| FeatureDisabled
| TooManyIds (max : Z)
| InvalidId (id : string)
| UnexpectedContentType (contentType : string)
| MalformedGraphResponse
| MissingIdColumn (column : string) (hint : bool)
| InvalidGraphId (column : string)
| InvalidParam (name : string)
| SanitizationError (detail : jsval)
| SanitizationUnexpected
| SanitizationNotArray
| TypeError
| SyntaxError
| External (detail : string).

Definition dquote : string := String (ascii_of_nat 34) EmptyString.

(** The format string handed to [new Err( ... )]; for the error reported by
    the sanitiser it is the reported value itself. *)
Definition message (e : Err) : string :=
  match e with
  | InvalidInput =>
      dquote ++ "ids" ++ dquote ++ " or " ++ dquote ++ "query" ++ dquote ++
      " parameter must be given"
  | FeatureDisabled => dquote ++ "query" ++ dquote ++ " parameter is not enabled"
  | TooManyIds _ => "Not more than %d ids allowed"
  | InvalidId _ => "Invalid Wikidata id " ++ dquote ++ "%s" ++ dquote
  | UnexpectedContentType _ => "Unexpected content type %s"
  | MalformedGraphResponse =>
      "SPARQL query result does not have " ++ dquote ++ "results.bindings" ++ dquote
  | MissingIdColumn _ hint =>
      "SPARQL query result does not contain %j column." ++
      (if hint
       then " Use `idcolumn` argument to specify column name, or change the query to return `id` column."
       else EmptyString)
  | InvalidGraphId _ => "SPARQL query result id column %j is expected to be a valid Wikidata id"
  | InvalidParam _ => "Invalid value for param %s"
  | SanitizationError (JStr text) => text
  | SanitizationError _ => "[object Object]"
  | SanitizationUnexpected => "Unexpected api action=sanitize-mapdata results"
  | SanitizationNotArray => "Unexpected api action=sanitize-mapdata sanitized value results"
  | TypeError => "TypeError"
  | SyntaxError => "SyntaxError"
  | External d => d
  end.

Inductive result (A : Type) : Type :=
| Ok (a : A)
| Throw (e : Err).
Arguments Ok {A} a.
Arguments Throw {A} e.

Definition rbind {A B} (x : result A) (k : A → result B) : result B :=
  match x with
  | Ok a => k a
  | Throw e => Throw e
  end.

(** [l.map( f )] where [f] may throw: the first exception ends the loop. *)
Fixpoint rmap {A B} (f : A → result B) (l : list A) : result (list B) :=
  match l with
  | [] => Ok []
  | a :: l' => rbind (f a) (fun b => rbind (rmap f l') (fun bs => Ok (b :: bs)))
  end.

(** ** Configuration and request *)

(** One declared parameter of a SQL template: [{ name, default }]. *)
Record QueryParam : Type := {
  param_name : option string;
  param_default : jsval
}.

(** One entry of [config.queries]: [{ sql, params }]; [None] is a member
    that the entry does not have. *)
Record QueryTemplate : Type := {
  sql : option string;
  params : option (list QueryParam)
}.

(** A member of [Object.prototype] read as an entry of [config.queries]: a
    built-in function, or the prototype object, has neither [sql] nor
    [params]. *)
Definition inherited_template : QueryTemplate :=
  {| sql := None; params := None |}.

Record Config : Type := {
  maxidcount : Z;
  wikidataQueryService : option string;
  sparqlHeaders : gmap string jsval;
  coordinatePredicateId : string;
  queries : gmap string QueryTemplate;
  lineTable : string;
  polygonTable : string;
  mwapi : string;
  mwapiHeaders : gmap string jsval
}.

(** The configuration object after [config.sparqlHeaders] has been written
    to. *)
Definition with_sparqlHeaders (headers : gmap string jsval) (c : Config) : Config :=
  {| maxidcount := maxidcount c;
     wikidataQueryService := wikidataQueryService c;
     sparqlHeaders := headers;
     coordinatePredicateId := coordinatePredicateId c;
     queries := queries c;
     lineTable := lineTable c;
     polygonTable := polygonTable c;
     mwapi := mwapi c;
     mwapiHeaders := mwapiHeaders c |}.

(** The raw request parameters: [reqParams.name] is [reqParams !! name]. *)
Abbreviation ReqParams := (gmap string string).

(** The normalised request returned by [_parseParams]. *)
Record Params : Type := {
  sparqlQuery : option string;
  ids : list string;
  idColumn : option string;
  useGeoJson : bool;
  queryName : option string
}.

(** ** Strings and the built-in [Set] *)

(** [s.split( sep )] for a one-character separator. *)
Fixpoint split (sep : ascii) (s : string) : list string :=
  match s with
  | EmptyString => [EmptyString]
  | String c s' =>
      if Ascii.eqb c sep then EmptyString :: split sep s'
      else match split sep s' with
           | tok :: toks => String c tok :: toks
           | [] => [String c EmptyString]
           end
  end.

(** [l.join( sep )] *)
Fixpoint join (sep : string) (l : list string) : string :=
  match l with
  | [] => EmptyString
  | [x] => x
  | x :: l' => x ++ sep ++ join sep l'
  end.

(** [s.startsWith( p )] *)
Fixpoint startsWith (p s : string) : bool :=
  match p, s with
  | EmptyString, _ => true
  | String a p', String b s' => Ascii.eqb a b && startsWith p' s'
  | String _ _, EmptyString => false
  end.

(** A [Set] of strings keeps its members in insertion order. *)
Module StrSet.

Definition add (x : string) (s : list string) : list string :=
  if bool_decide (x ∈ s) then s else s ++ [x].

(** [new Set( l )] *)
Definition of_list (l : list string) : list string :=
  foldl (fun s x => add x s) [] l.

(** [s.delete( x )] *)
Definition delete (x : string) (s : list string) : list string :=
  filter (fun y => y ≠ x) s.

(** [s.size] *)
Definition size (s : list string) : Z := Z.of_nat (length s).

End StrSet.

(** ** Request Normalizer: [_parseParams] *)

(** The deduplicated, non-empty tokens of [reqParams.ids]. *)
Definition parsed_ids (reqParams : ReqParams) : list string :=
  StrSet.delete EmptyString
    (StrSet.of_list
       (if truthy_str (reqParams !! "ids")
        then split "," (default EmptyString (reqParams !! "ids"))
        else [])).

(** [ids.forEach( ... )]: the first id outside the grammar throws. *)
Fixpoint check_ids (ids : list string) : result unit :=
  match ids with
  | [] => Ok tt
  | id :: ids' =>
      if negb (idRegex_test id) then Throw (InvalidId id) else check_ids ids'
  end.

Definition _parseParams (config : Config) (reqParams : ReqParams) : result Params :=
  if negb (truthy_str (reqParams !! "ids")) && negb (truthy_str (reqParams !! "query"))
  then Throw InvalidInput
  else if truthy_str (reqParams !! "query") && negb (truthy_str (wikidataQueryService config))
  then Throw FeatureDisabled
  else
    let ids := parsed_ids reqParams in
    if (StrSet.size ids >? maxidcount config)%Z
    then Throw (TooManyIds (maxidcount config))
    else
      rbind (check_ids ids) (fun _ =>
        Ok {| sparqlQuery := reqParams !! "query";
              ids := ids;
              idColumn := reqParams !! "idcolumn";
              useGeoJson := truthy_str (reqParams !! "getgeojson");
              queryName := reqParams !! "sql" |}).

(** ** The outside world

    The three collaborators are reached through [preq.get], [preq.post] and
    [db.query].  A call is logged in [calls]; the configuration object is
    shared by every request, so it is part of the state as well. *)

(** [preq.get( { uri, query: { format: 'json', query }, headers } )] *)
Record GetRequest : Type := {
  get_uri : option string;
  get_query : string;
  get_headers : gmap string jsval
}.

(** [preq.post( { uri, formData: { format: 'json', formatversion: 2,
    action: 'sanitize-mapdata', text }, headers } )]; [post_text] is the
    value handed to [JSON.stringify]. *)
Record PostRequest : Type := {
  post_uri : string;
  post_text : jsval;
  post_headers : gmap string jsval
}.

Record Response : Type := {
  resp_headers : gmap string string;
  resp_body : jsval
}.

(** A row of the spatial store: [{ id, data }]. *)
Record GeometryRow : Type := {
  row_id : string;
  row_data : string
}.

Inductive Event : Type :=
| HttpGet (r : GetRequest)
| HttpPost (r : PostRequest)
| DbQuery (sql : option string) (args : list jsval).

Record World : Type := {
  config : Config;
  calls : list Event
}.

Definition M (A : Type) : Type := World → result A * World.

Definition ret {A} (a : A) : M A := fun w => (Ok a, w).
Definition throw {A} (e : Err) : M A := fun w => (Throw e, w).
Definition bind {A B} (m : M A) (k : A → M B) : M B :=
  fun w =>
    match m w with
    | (Ok a, w') => k a w'
    | (Throw e, w') => (Throw e, w')
    end.
Definition lift {A} (r : result A) : M A := fun w => (r, w).
Definition get_config : M Config := fun w => (Ok (config w), w).
Definition set_config (c : Config) : M unit :=
  fun w => (Ok tt, {| config := c; calls := calls w |}).
Definition emit (e : Event) : M unit :=
  fun w => (Ok tt, {| config := config w; calls := calls w ++ [e] |}).

Declare Scope js_scope.
Delimit Scope js_scope with js.
Notation "x <- m ;; k" := (bind m (fun x => k))
  (at level 100, m at next level, right associativity) : js_scope.
Notation "m ;; k" := (bind m (fun _ => k))
  (at level 100, right associativity) : js_scope.
Notation "x <-! r ;; k" := (rbind r (fun x => k))
  (at level 100, r at next level, right associativity) : js_scope.
Local Open Scope js_scope.

(** [l.map( f )] in [M]. *)
Fixpoint mapM {A B} (f : A → M B) (l : list A) : M (list B) :=
  match l with
  | [] => ret []
  | a :: l' => b <- f a ;; bs <- mapM f l' ;; ret (b :: bs)
  end.

(** ** The class *)

(** The fields of [this] that the constructor sets. *)
Record GeoShapes : Type := {
  type : string;
  defaultIdColumn : string;
  geoColumn : string;
  reqParams : ReqParams;
  this_coordinatePredicateId : string;
  parsed : Params
}.

Definition constructor (type : string) (reqParams : ReqParams) (config : Config)
  : result GeoShapes :=
  p <-! _parseParams config reqParams ;;
  Ok {| type := type;
        defaultIdColumn := "id";
        geoColumn := "geo";
        reqParams := reqParams;
        this_coordinatePredicateId := coordinatePredicateId config;
        parsed := p |}.

(** An absent key used as a property name is the string "undefined". *)
Definition key_of (k : option string) : string := default "undefined" k.

(** The table [simpleStyleProperties]. *)
Definition simpleStyleProperties : list (string * string) :=
  [ ("fill_opacity", "fill-opacity");
    ("marker_color", "marker-color");
    ("marker_size", "marker-size");
    ("marker_symbol", "marker-symbol");
    ("stroke_opacity", "stroke-opacity");
    ("stroke_width", "stroke-width") ].

(** [simpleStyleProperties[ key ] || key]: the table is a plain object, so
    the lookup also finds the members it inherits, which are truthy; used as
    a property name, such a member is converted to a string. *)
Definition canonical_key (key : string) : string :=
  match snd <$> List.find (fun kv => String.eqb key kv.1) simpleStyleProperties with
  | Some name => name
  | None => if Proto.has key then Proto.to_string key else key
  end.

(** [v === s] for a string [s]. *)
Definition is_str (s : string) (v : jsval) : bool :=
  match v with
  | JStr t => String.eqb s t
  | _ => false
  end.

(** The comparison a [Set] makes between two members; arrays and objects
    are compared by identity, and the values that meet here are created one
    per row, so they are never the same object; an inherited member is the
    same object wherever it is read. *)
Definition same_value_zero (a b : jsval) : bool :=
  match a, b with
  | JUndefined, JUndefined | JNull, JNull => true
  | JBool x, JBool y => Bool.eqb x y
  | JNum x, JNum y => PrimFloat.eqb x y || (PrimFloat.is_nan x && PrimFloat.is_nan y)
  | JStr x, JStr y => String.eqb x y
  | JBuiltin x, JBuiltin y => String.eqb x y
  | _, _ => false
  end.

Module ValSet.

Definition add (x : jsval) (s : list jsval) : list jsval :=
  if existsb (same_value_zero x) s then s else s ++ [x].

Definition of_list (l : list jsval) : list jsval :=
  foldl (fun s x => add x s) [] l.

End ValSet.

(** A feature as [_wrapResult] builds it while the loop runs: [properties]
    is either a fresh empty object or the very object held in a slot of the
    [properties] array. *)
Inductive PropsRef : Type :=
| Fresh
| Slot (i : nat).

Record FeatureRef : Type := {
  fr_id : jsval;
  fr_properties : PropsRef;
  fr_geometry : jsval
}.

(** [{ type: 'Feature', id, properties, geometry }] *)
Record Feature : Type := {
  f_id : jsval;
  f_properties : obj;
  f_geometry : jsval
}.

Definition deref (store : list obj) (r : PropsRef) : obj :=
  match r with
  | Fresh => []
  | Slot i => default [] (store !! i)
  end.

Definition resolve (store : list obj) (f : FeatureRef) : Feature :=
  {| f_id := fr_id f;
     f_properties := deref store (fr_properties f);
     f_geometry := fr_geometry f |}.

(** [{ type: 'Point', coordinates }] *)
Definition point (coordinates : jsval) : jsval :=
  JObj [("type", JStr "Point"); ("coordinates", coordinates)].

Section GeoShapes.

(** *** Collaborators

    The HTTP client, the database handle, the Wikidata value parser,
    [JSON.parse] and the topology encoder are not part of this module. *)
Variable preq_get : GetRequest → result Response.
Variable preq_post : PostRequest → result Response.
Variable db_query : option string → list jsval → result (list GeometryRow).
Variable parseWikidataValue : jsval → bool → result jsval.
Variable JSON_parse : string → result jsval.
Variable Topology : Type.
Variable topojson_topology :
  list (string * list Feature) → (Feature → obj) → result Topology.

Definition http_get (r : GetRequest) : M Response :=
  emit (HttpGet r) ;; lift (preq_get r).
Definition http_post (r : PostRequest) : M Response :=
  emit (HttpPost r) ;; lift (preq_post r).
Definition db_call (sql : option string) (args : list jsval) : M (list GeometryRow) :=
  emit (DbQuery sql args) ;; lift (db_query sql args).

Variable this : GeoShapes.

(** *** Graph Query Runner *)

Definition _createPointsSparqlQuery (ids : list string) : string :=
  let formattedIds := join " " (map (fun id => "wd:" ++ id) ids) in
  "SELECT ?id ?geo WHERE { VALUES ?id { " ++ formattedIds ++ " } ?id " ++
  this_coordinatePredicateId this ++ " ?geo }".

Definition _processResultRow (wd : obj) (customIdColumn : option string)
  : result obj :=
  let idColumn :=
    if truthy_str customIdColumn then key_of customIdColumn
    else defaultIdColumn this in
  if negb (Obj.mem idColumn wd)
  then Throw (MissingIdColumn idColumn (negb (truthy_str customIdColumn)))
  else
    let value := Obj.prop idColumn wd in
    let result := Obj.delete idColumn wd in
    id <-! parseWikidataValue value true ;;
    let result := Obj.set "id" id result in
    if negb (truthy id) then Throw (InvalidGraphId idColumn)
    else
      match member_opt "type" value with
      | None => Throw TypeError
      | Some t =>
          if negb (is_str "uri" t) then Throw (InvalidGraphId idColumn)
          else if truthy (Obj.prop (geoColumn this) wd)
          then
            c <-! parseWikidataValue (Obj.prop (geoColumn this) wd) true ;;
            Ok (Obj.set "coordinate" c result)
          else Ok result
      end.

(** A binding of a SPARQL JSON result is an object; [in] on a primitive
    raises a TypeError.  An array as a binding, which the format does not
    have, is a TypeError here as well, where the source would go on with the
    indices of the array as its columns. *)
Definition as_row (wd : jsval) : result obj :=
  match wd with
  | JObj o => Ok o
  | _ => Throw TypeError
  end.

(** [Object.assign( target, { 'X-Client-IP': xClientIp } )]: the target is
    updated in place and returned. *)
Definition Object_assign_client_ip (target : gmap string jsval)
  (xClientIp : option string) : gmap string jsval :=
  <["X-Client-IP" := of_opt_str xClientIp]> target.

Definition _runWikidataQuery (type : string) (query : option string)
  (ids : list string) (customIdColumn : option string)
  (xClientIp : option string) : M (list obj) :=
  let query :=
    if negb (truthy_str query) && negb (length ids =? 0)%nat && String.eqb type "geopoint"
    then Some (_createPointsSparqlQuery ids)
    else query in
  if negb (truthy_str query) then ret []
  else
    cfg <- get_config ;;
    let headers := Object_assign_client_ip (sparqlHeaders cfg) xClientIp in
    set_config (with_sparqlHeaders headers cfg) ;;
    queryResult <- http_get {| get_uri := wikidataQueryService cfg;
                               get_query := default EmptyString query;
                               get_headers := headers |} ;;
    match resp_headers queryResult !! "content-type" with
    | None => throw TypeError
    | Some contentType =>
        if negb (startsWith "application/sparql-results+json" contentType)
        then throw (UnexpectedContentType contentType)
        else
          let data := resp_body queryResult in
          match member_opt "results" data with
          | None => throw TypeError
          | Some results =>
              if negb (truthy results) then throw MalformedGraphResponse
              else
                match member_opt "bindings" results with
                | Some (JArr bindings) =>
                    lift (rmap (fun wd => o <-! as_row wd ;;
                                          _processResultRow o customIdColumn)
                            bindings)
                | _ => throw MalformedGraphResponse
                end
          end
    end.

(** *** Spatial Query Runner *)

(** [rawParams[ name ]]: a parameter of the request, or else the member of
    that name which the parameter object inherits. *)
Definition raw_param (rawParams : ReqParams) (name : string) : jsval :=
  match rawParams !! name with
  | Some value => JStr value
  | None => Proto.value name
  end.

(** The string that [floatRegex.test( value )] looks at. *)
Definition param_text (value : jsval) : string :=
  match value with
  | JStr s => s
  | JBuiltin name => Proto.to_string name
  | _ => "undefined"
  end.

(** [query.params.forEach( ... )], pushing onto [args]. *)
Fixpoint push_params (rawParams : ReqParams) (ps : list QueryParam)
  (args : list jsval) : result (list jsval) :=
  match ps with
  | [] => Ok args
  | param :: ps' =>
      let paramName := param_name param in
      if negb (truthy_str paramName)
         || negb (truthy (raw_param rawParams (key_of paramName)))
      then push_params rawParams ps' (args ++ [param_default param])
      else
        let value := raw_param rawParams (key_of paramName) in
        if floatRegex_test (param_text value) then Throw (InvalidParam (key_of paramName))
        else push_params rawParams ps' (args ++ [value])
  end.

Definition _runSqlQuery (type : string) (ids : list jsval)
  (queryKey : option string) (rawParams : ReqParams) : M (list GeometryRow) :=
  if (length ids =? 0)%nat || String.eqb type "geopoint" then ret []
  else
    cfg <- get_config ;;
    let args :=
      [ JStr (if String.eqb type "geoshape" then polygonTable cfg else lineTable cfg);
        JArr ids ] in
    match
      match queries cfg !! key_of queryKey with
      | Some query => Some query
      | None =>
          if Proto.has (key_of queryKey) then Some inherited_template
          else queries cfg !! "default"
      end
    with
    | None => throw TypeError
    | Some query =>
        args <- lift (match params query with
                      | Some ps => push_params rawParams ps args
                      | None => Ok args
                      end) ;;
        db_call (sql query) args
    end.

(** *** Property Sanitizer *)

(** The [for ( let key in prop )] loop, filling [transformedProps]. *)
Fixpoint transform_props (prop : obj) (transformedProps : obj) : result obj :=
  match prop with
  | [] => Ok transformedProps
  | (key, value) :: prop' =>
      if truthy value
      then
        v <-! parseWikidataValue value false ;;
        transform_props prop' (Obj.set (canonical_key key) v transformedProps)
      else transform_props prop' transformedProps
  end.

(** The placeholder feature built for one raw row. *)
Definition placeholder (row : obj) : result jsval :=
  let id := Obj.prop "id" row in
  let prop := Obj.delete "id" row in
  transformedProps <-! transform_props prop [] ;;
  Ok (JObj [ ("type", JStr "Feature");
             ("id", id);
             ("properties", JObj transformedProps);
             ("geometry", point (JArr [JNum 0; JNum 0])) ]).

(** [{ ...v }]: the own properties of an object, and nothing for
    undefined, null, a number or a boolean.  The sanitiser sends no array
    or string as [properties], whose indices a spread would copy; they are
    treated like the primitives. *)
Definition spread (v : jsval) : obj :=
  match v with
  | JObj o => o
  | _ => []
  end.

(** [{ ...row.properties, id: row.id }] *)
Definition restore_id (row : jsval) : result obj :=
  match member_opt "properties" row, member_opt "id" row with
  | Some properties, Some id => Ok (Obj.set "id" id (spread properties))
  | _, _ => Throw TypeError
  end.

(** [JSON.parse( v )] for the [sanitized] member, which the endpoint sends
    as a string.  Another truthy value would first be converted to a
    string; the model reports that case as a syntax error. *)
Definition parse_sanitized (v : jsval) : result jsval :=
  match v with
  | JStr s => JSON_parse s
  | _ => Throw SyntaxError
  end.

Definition _expandProperties (rawProperties : list obj) : M (option (list obj)) :=
  props <- lift (rmap placeholder rawProperties) ;;
  if (length props =? 0)%nat then ret None
  else
    cfg <- get_config ;;
    apiResult <- http_post {| post_uri := mwapi cfg;
                              post_text := JArr props;
                              post_headers := mwapiHeaders cfg |} ;;
    match member_opt "error" (resp_body apiResult),
          member_opt "sanitize-mapdata" (resp_body apiResult) with
    | Some error, Some body =>
        if truthy error then throw (SanitizationError error)
        else if negb (truthy body) then throw SanitizationUnexpected
        else if truthy (default JUndefined (member_opt "error" body))
        then throw (SanitizationError (default JUndefined (member_opt "error" body)))
        else if negb (truthy (default JUndefined (member_opt "sanitized" body)))
        then throw SanitizationUnexpected
        else
          sanitized <- lift (parse_sanitized
                               (default JUndefined (member_opt "sanitized" body))) ;;
          match sanitized with
          | JArr rows => cleaned <- lift (rmap restore_id rows) ;; ret (Some cleaned)
          | _ => throw SanitizationNotArray
          end
    | _, _ => throw TypeError
    end.

(** *** Result Assembler and Format Encoder *)

(** The callback of [properties.map] for points, run on slot [i]. *)
Definition point_feature (i : nat) (store : list obj) : FeatureRef * list obj :=
  let value := default [] (store !! i) in
  let id := Obj.prop "id" value in
  let value := Obj.delete (key_of (idColumn (parsed this))) value in
  let value := Obj.delete "id" value in
  let coordinates := Obj.prop (geoColumn this) value in
  let value := Obj.delete (geoColumn this) value in
  ({| fr_id := id; fr_properties := Slot i; fr_geometry := point coordinates |},
   <[i := value]> store).

Fixpoint point_features (slots : list nat) (store : list obj)
  : list FeatureRef * list obj :=
  match slots with
  | [] => ([], store)
  | i :: slots' =>
      let (f, store) := point_feature i store in
      let (fs, store) := point_features slots' store in
      (f :: fs, store)
  end.

(** [properties.find( ( props ) => row.id === props.id )], as a slot. *)
Fixpoint find_slot (id : string) (store : list obj) : option nat :=
  match store with
  | [] => None
  | props :: store' =>
      if is_str id (Obj.prop "id" props) then Some O
      else S <$> find_slot id store'
  end.

(** The callback of [rows.map] for lines and polygons. *)
Definition shape_feature (row : GeometryRow) (store : option (list obj))
  : result (FeatureRef * option (list obj)) :=
  geometry <-! JSON_parse (row_data row) ;;
  let feature := {| fr_id := JStr (row_id row);
                    fr_properties := Fresh;
                    fr_geometry := geometry |} in
  match store with
  | Some properties =>
      match find_slot (row_id row) properties with
      | Some i =>
          Ok ({| fr_id := fr_id feature;
                 fr_properties := Slot i;
                 fr_geometry := fr_geometry feature |},
              Some (alter (Obj.delete "id") i properties))
      | None => Ok (feature, store)
      end
  | None => Ok (feature, store)
  end.

Fixpoint shape_features (rows : list GeometryRow) (store : option (list obj))
  : result (list FeatureRef * option (list obj)) :=
  match rows with
  | [] => Ok ([], store)
  | row :: rows' =>
      rbind (shape_feature row store) (fun '(f, store) =>
      rbind (shape_features rows' store) (fun '(fs, store) =>
      Ok (f :: fs, store)))
  end.

Inductive Document : Type :=
| FeatureCollection (features : list Feature)
| TopoJSON (topology : Topology).

(** The feature list of [_wrapResult], read when the loop is over, and the
    [properties] array as the loop leaves it.  [rows] is an array in every
    call, so the test [else if ( rows )] always passes. *)
Definition assemble (type : string) (rows : list GeometryRow)
  (properties : option (list obj)) : result (list Feature * option (list obj)) :=
  match String.eqb type "geopoint", properties with
  | true, Some store =>
      let (fs, store) := point_features (seq 0 (length store)) store in
      Ok (resolve store <$> fs, Some store)
  | _, _ =>
      rbind (shape_features rows properties) (fun '(fs, store) =>
      Ok (resolve (default [] store) <$> fs, store))
  end.

(** The end of [_wrapResult]: the collection itself, or what
    [topojson.topology( { data: result }, { 'property-transform': ... } )]
    makes of it; the encoder may throw. *)
Definition encode (features : list Feature) (useGeoJson : bool) : result Document :=
  if negb useGeoJson
  then rbind (topojson_topology [("data", features)]
                (fun feature => f_properties feature))
         (fun topology => Ok (TopoJSON topology))
  else Ok (FeatureCollection features).

(** [_wrapResult]: the feature list ([assemble]), then its encoding
    ([encode]); the second component is the [properties] array as the call
    leaves it. *)
Definition _wrapResult (type : string) (rows : list GeometryRow)
  (properties : option (list obj)) (useGeoJson : bool)
  : result (Document * option (list obj)) :=
  rbind (assemble type rows properties) (fun '(features, store) =>
  rbind (encode features useGeoJson) (fun document =>
  Ok (document, store))).

(** *** The pipeline *)

(** [Promise.all( [ a, b ] )] of two [async] calls: both are started, in
    this order, and run up to their external call; the join fails when
    either fails.  When both fail, the error reported is that of the
    promise that is rejected first.  A call that fails before it reaches its
    external call is rejected at once, so it comes before a call that fails
    after its external call; when both fail after their external calls the
    order is that of the two answers, which the source does not determine,
    and the model takes the first of the array. *)
Definition Promise_all {A B} (a : M A) (b : M B) : M (A * B) :=
  fun w =>
    let (ra, wa) := a w in
    let (rb, wb) := b wa in
    match ra, rb with
    | Ok x, Ok y => (Ok (x, y), wb)
    | Throw e, Ok _ => (Throw e, wb)
    | Ok _, Throw e => (Throw e, wb)
    | Throw ea, Throw eb =>
        if negb (length (calls wa) =? length (calls w))%nat
           && (length (calls wb) =? length (calls wa))%nat
        then (Throw eb, wb)
        else (Throw ea, wb)
    end.

(** [execute( xClientIp, metrics )]; the timing reported to [metrics] is
    left out. *)
Definition execute (xClientIp : option string) : M Document :=
  rawProperties <- _runWikidataQuery (type this) (sparqlQuery (parsed this))
                     (ids (parsed this)) (idColumn (parsed this)) xClientIp ;;
  let queriedIds := map (Obj.prop "id") rawProperties in
  let allIds := ValSet.of_list ((JStr <$> ids (parsed this)) ++ queriedIds) in
  joined <- Promise_all
              (_runSqlQuery (type this) allIds (queryName (parsed this)) (reqParams this))
              (_expandProperties rawProperties) ;;
  result <- lift (_wrapResult (type this) joined.1 joined.2 (useGeoJson (parsed this))) ;;
  ret result.1.

End GeoShapes.

Arguments FeatureCollection {Topology} features.
Arguments TopoJSON {Topology} topology.

(** ** [lib/core.js]: compressed tile data

    [uncompressAsync], [compressPbfAsync2] and [compressPbfAsync].  A buffer
    is the list of its bytes; [zlib] is not part of the module. *)

Module Core.

(** The ASCII letters in their other case; the other characters are left as
    they are. *)
Definition lower (c : ascii) : ascii :=
  if Regex.in_range "A" "Z" c then ascii_of_nat (nat_of_ascii c + 32) else c.

Definition upper (c : ascii) : ascii :=
  if Regex.in_range "a" "z" c then ascii_of_nat (nat_of_ascii c - 32) else c.

Fixpoint lowercase (s : string) : string :=
  match s with
  | EmptyString => EmptyString
  | String c s' => String (lower c) (lowercase s')
  end.

(** A literal under the [i] flag: each character in either case. *)
Fixpoint literal_i (s : string) : Regex.regex :=
  match s with
  | EmptyString => Regex.Eps
  | String c s' =>
      Regex.Seq (Regex.Alt (Regex.Chr (lower c)) (Regex.Chr (upper c))) (literal_i s')
  end.

(** [contentEncoderRe = /^content-encoding$/i] *)
Definition contentEncoderRe : Regex.regex := literal_i "content-encoding".

Definition contentEncoderRe_test (key : string) : bool :=
  Regex.full_match contentEncoderRe key.

(** [data[ i ] === x]; an index past the end reads as undefined. *)
Definition byte_is (data : list Byte.byte) (i : nat) (x : Byte.byte) : bool :=
  match data !! i with
  | Some b => Byte.eqb b x
  | None => false
  end.

(** The loop over [Object.keys( headers )] that deletes the matching keys. *)
Definition delete_content_encoding (headers : obj) : obj :=
  foldl (fun headers key =>
           if contentEncoderRe_test key then Obj.delete key headers else headers)
    headers (Obj.keys headers).

Section Zlib.

Variable gunzip : list Byte.byte → result (list Byte.byte).
Variable inflate : list Byte.byte → result (list Byte.byte).
Variable gzip : list Byte.byte → result (list Byte.byte).

(** [uncompressAsync( data, headers )]: the data the promise resolves to, and
    the [headers] object as the call leaves it.  [None] is a value that is
    undefined or null. *)
Definition uncompressAsync (data : option (list Byte.byte)) (headers : option obj)
  : result (option (list Byte.byte)) * option obj :=
  match data with
  | Some d =>
      if negb (length d =? 0)%nat
      then
        let useUnzip := byte_is d 0 Byte.x1f && byte_is d 1 Byte.x8b in
        let useInflate := negb useUnzip && byte_is d 0 Byte.x78 && byte_is d 1 Byte.x9c in
        if useUnzip || useInflate
        then
          let headers := delete_content_encoding <$> headers in
          if useUnzip
          then (rbind (gunzip d) (fun raw => Ok (Some raw)), headers)
          else (rbind (inflate d) (fun raw => Ok (Some raw)), headers)
        else (Ok data, headers)
      else (Ok data, headers)
  | None => (Ok data, headers)
  end.

(** [compressPbfAsync2( data, headers )]: the pair [[ data, headers ]] it
    returns.  The conversion of a typed array to a [Buffer] keeps the bytes.
    Setting a property on [headers] throws when there is no such object. *)
Definition compressPbfAsync2 (data : option (list Byte.byte)) (headers : option obj)
  : result (option (list Byte.byte) * option obj) :=
  match data with
  | Some d =>
      if (length d =? 0)%nat then Ok (data, headers)
      else
        rbind (gzip d) (fun pbfz =>
        match headers with
        | Some h => Ok (Some pbfz, Some (Obj.set "Content-Encoding" (JStr "gzip") h))
        | None => Throw TypeError
        end)
  | None => Ok (data, headers)
  end.

(** [{ data, headers }] *)
Record TileResult : Type := {
  res_data : option (list Byte.byte);
  res_headers : option obj
}.

(** [compressPbfAsync( result )]: the [result] object, here [res], as it is
    returned. *)
Definition compressPbfAsync (res : TileResult) : result TileResult :=
  match res_data res with
  | Some d =>
      if (length d =? 0)%nat then Ok res
      else
        rbind (gzip d) (fun pbfz =>
        let res := {| res_data := Some pbfz; res_headers := res_headers res |} in
        match res_headers res with
        | Some h =>
            Ok {| res_data := res_data res;
                  res_headers := Some (Obj.set "Content-Encoding" (JStr "gzip") h) |}
        | None => Throw TypeError
        end)
  | None => Ok res
  end.

End Zlib.

(** The headers other than [Content-Encoding], in any spelling of its case. *)
Definition without_content_encoding (headers : obj) : obj :=
  filter (fun kv => lowercase kv.1 ≠ "content-encoding") headers.

(** [data] is there and begins with the bytes [a], [b]. *)
Definition starts_with (a b : Byte.byte) (data : option (list Byte.byte)) : bool :=
  match data with
  | Some (c0 :: c1 :: _) => Byte.eqb c0 a && Byte.eqb c1 b
  | _ => false
  end.

(** All the characters there are. *)
Definition all_ascii : list ascii := map ascii_of_nat (seq 0 256).

End Core.

(** ** Reference definitions

    The notions in which the properties below are stated: what the
    specification says about the id list, the placeholders and the join,
    written without the machinery of the implementation. *)

(** The non-empty tokens of a comma-separated id list. *)
Definition id_tokens (reqParams : ReqParams) : list string :=
  match reqParams !! "ids" with
  | Some raw => filter (fun tok => tok ≠ EmptyString) (split "," raw)
  | None => []
  end.

(** A list without its repetitions: every member once, where it occurs
    first. *)
Fixpoint first_occurrences (l : list string) : list string :=
  match l with
  | [] => []
  | x :: l' => x :: filter (fun y => y ≠ x) (first_occurrences l')
  end.

(** The two checks that [_parseParams] makes before it looks at the ids. *)
Definition passes_guards (config : Config) (reqParams : ReqParams) : bool :=
  (truthy_str (reqParams !! "ids") || truthy_str (reqParams !! "query"))
  && (negb (truthy_str (reqParams !! "query"))
      || truthy_str (wikidataQueryService config)).

(** The configured id column: the request's override when it is given, the
    default otherwise. *)
Definition effective_id_column (this : GeoShapes) (customIdColumn : option string)
  : string :=
  if truthy_str customIdColumn then key_of customIdColumn else defaultIdColumn this.

(** The query that [_runWikidataQuery] sends, if any: the explicit one, or the
    synthesised one for points with ids. *)
Definition effective_query (this : GeoShapes) (type : string) (query : option string)
  (ids : list string) : option string :=
  if negb (truthy_str query) && negb (length ids =? 0)%nat && String.eqb type "geopoint"
  then Some (_createPointsSparqlQuery this ids)
  else query.

(** The request that goes to the graph-query endpoint. *)
Definition graph_request (config : Config) (query : option string)
  (xClientIp : option string) : GetRequest :=
  {| get_uri := wikidataQueryService config;
     get_query := default EmptyString query;
     get_headers := Object_assign_client_ip (sparqlHeaders config) xClientIp |}.

(** The world once that request has been sent. *)
Definition after_graph_request (w : World) (query : option string)
  (xClientIp : option string) : World :=
  {| config :=
       with_sparqlHeaders (Object_assign_client_ip (sparqlHeaders (config w)) xClientIp)
         (config w);
     calls := calls w ++ [HttpGet (graph_request (config w) query xClientIp)] |}.

(** The bindings of a graph-query response, when it has the expected
    shape. *)
Definition response_bindings (resp : Response) : option (list jsval) :=
  match member_opt "results" (resp_body resp) with
  | Some results =>
      if truthy results
      then match member_opt "bindings" results with
           | Some (JArr bindings) => Some bindings
           | _ => None
           end
      else None
  | None => None
  end.

Definition is_get (e : Event) : bool :=
  match e with HttpGet _ => true | _ => false end.
Definition is_post (e : Event) : bool :=
  match e with HttpPost _ => true | _ => false end.

(** The SQL template that [_runSqlQuery] uses for a profile (the entry of
    that name, a member that [config.queries] inherits, or else the entry
    [default]), and the table it names for a kind. *)
Definition chosen_template (config : Config) (queryKey : option string)
  : option QueryTemplate :=
  match queries config !! key_of queryKey with
  | Some query => Some query
  | None =>
      if Proto.has (key_of queryKey) then Some inherited_template
      else queries config !! "default"
  end.

Definition table_for (config : Config) (type : string) : string :=
  if String.eqb type "geoshape" then polygonTable config else lineTable config.

(** A world with some more calls logged. *)
Definition with_calls (w : World) (more : list Event) : World :=
  {| config := config w; calls := calls w ++ more |}.

(** The calls made between two worlds, the later one extending the log of
    the earlier. *)
Definition new_calls (before after : World) : list Event :=
  drop (length (calls before)) (calls after).

(** The ids that [execute] hands to the spatial store: the request's, then
    those of the raw property rows, without repetition. *)
Definition store_ids (this : GeoShapes) (rawProperties : list obj) : list jsval :=
  ValSet.of_list ((JStr <$> ids (parsed this)) ++ map (Obj.prop "id") rawProperties).

(** The request that goes to the sanitisation endpoint. *)
Definition sanitizer_request (config : Config) (props : list jsval) : PostRequest :=
  {| post_uri := mwapi config;
     post_text := JArr props;
     post_headers := mwapiHeaders config |}.

(** What [JSON.parse] makes of the data of a geometry row, when it parses. *)
Definition parsed_geometry (JSON_parse : string → result jsval) (row : GeometryRow)
  : jsval :=
  match JSON_parse (row_data row) with
  | Ok geometry => geometry
  | Throw _ => JUndefined
  end.

(** A declared parameter for which the request gives a value. *)
Definition supplied (rawParams : ReqParams) (param : QueryParam) : option string :=
  if truthy_str (param_name param) && truthy_str (rawParams !! key_of (param_name param))
  then rawParams !! key_of (param_name param)
  else None.

(** A declared parameter that the request does not have but whose name is
    that of a member which the parameter object inherits. *)
Definition inherited_param (rawParams : ReqParams) (param : QueryParam) : bool :=
  truthy_str (param_name param)
  && bool_decide (rawParams !! key_of (param_name param) = None)
  && Proto.has (key_of (param_name param)).

(** What [push_params] appends for a parameter that it accepts: the value of
    the request, the inherited member, or the default of the template. *)
Definition param_arg (rawParams : ReqParams) (param : QueryParam) : jsval :=
  match supplied rawParams param with
  | Some value => JStr value
  | None =>
      if inherited_param rawParams param
      then JBuiltin (key_of (param_name param))
      else param_default param
  end.

(** The clean property rows whose id is [id], in order. *)
Definition rows_with_id (id : string) (properties : list obj) : list obj :=
  filter (fun props => is_str id (Obj.prop "id" props) = true) properties.

(** How many of the first [k] geometry rows carry the id [id]. *)
Definition earlier_with_id (id : string) (k : nat) (rows : list GeometryRow) : nat :=
  length (filter (fun row => row_id row = id) (take k rows)).

(** The slot of the clean property row that is number [n], from 0, among
    those whose id is [id]. *)
Fixpoint nth_slot (id : string) (n : nat) (store : list obj) : option nat :=
  match store with
  | [] => None
  | props :: store' =>
      if is_str id (Obj.prop "id" props)
      then match n with
           | O => Some O
           | S n' => S <$> nth_slot id n' store'
           end
      else S <$> nth_slot id n store'
  end.

(** The feature built for geometry row number [k], as a reference into the
    property store [store]: it takes the clean property row that is number
    [earlier_with_id] for its id. *)
Definition shape_ref (geometry : GeometryRow → jsval) (rows : list GeometryRow)
  (store : list obj) (k : nat) (row : GeometryRow) : FeatureRef :=
  {| fr_id := JStr (row_id row);
     fr_properties :=
       match nth_slot (row_id row) (earlier_with_id (row_id row) k rows) store with
       | Some i => Slot i
       | None => Fresh
       end;
     fr_geometry := geometry row |}.

(** Line and polygon join, each clean property row serving once: the
    feature of geometry row number [k]. *)
Definition join_in_turn (geometry : GeometryRow → jsval) (properties : list obj)
  (rows : list GeometryRow) (k : nat) (row : GeometryRow) : Feature :=
  {| f_id := JStr (row_id row);
     f_properties :=
       match rows_with_id (row_id row) properties
             !! earlier_with_id (row_id row) k rows with
       | Some props => Obj.delete "id" props
       | None => []
       end;
     f_geometry := geometry row |}.

(** What the point loop leaves of a clean property row, and the coordinates
    it reads from it. *)
Definition point_cleaned (this : GeoShapes) (value : obj) : obj :=
  Obj.delete (geoColumn this)
    (Obj.delete "id" (Obj.delete (key_of (idColumn (parsed this))) value)).

Definition point_coordinates (this : GeoShapes) (value : obj) : jsval :=
  Obj.prop (geoColumn this)
    (Obj.delete "id" (Obj.delete (key_of (idColumn (parsed this))) value)).

(** A clean property row is either as it was or has lost its id. *)
Definition same_or_id_deleted (before after : obj) : Prop :=
  after = before ∨ after = Obj.delete "id" before.

(** Line and polygon join, first match wins: the feature of one geometry row. *)
Definition join_by_id (geometry : GeometryRow → jsval) (properties : list obj)
  (row : GeometryRow) : Feature :=
  {| f_id := JStr (row_id row);
     f_properties :=
       match rows_with_id (row_id row) properties with
       | props :: _ => Obj.delete "id" props
       | [] => []
       end;
     f_geometry := geometry row |}.

(** Point assembly: the feature of one clean property row. *)
Definition point_of_row (idColumn : option string) (value : obj) : Feature :=
  {| f_id := Obj.prop "id" value;
     f_properties :=
       Obj.delete "geo"
         (Obj.delete "id"
            (match idColumn with
             | Some column => Obj.delete column value
             | None => value
             end));
     f_geometry := point (Obj.prop "geo" value) |}.

(** The simplestyle names that are written with a hyphen, and the spelling
    of a column name with every underscore turned into a hyphen: a column
    whose name, so spelled, is one of these names is sent under that name,
    and every other column under its own. *)
Definition hyphenated_names : list string :=
  [ "fill-opacity"; "marker-color"; "marker-size"; "marker-symbol";
    "stroke-opacity"; "stroke-width" ].

Fixpoint hyphenate (s : string) : string :=
  match s with
  | EmptyString => EmptyString
  | String c s' => String (if Ascii.eqb c "_" then "-"%char else c) (hyphenate s')
  end.

Definition style_key (key : string) : string :=
  if existsb (String.eqb (hyphenate key)) hyphenated_names then hyphenate key else key.

(** The spellings that [hyphenate] turns into [name]. *)
Fixpoint unhyphenate (name : string) : list string :=
  match name with
  | EmptyString => [EmptyString]
  | String d name' =>
      if Ascii.eqb d "_" then []
      else if Ascii.eqb d "-"
      then (String "-" <$> unhyphenate name') ++ (String "_" <$> unhyphenate name')
      else String d <$> unhyphenate name'
  end.

(** The columns of a raw row that reach the sanitiser: not the id, and only
    truthy values. *)
Definition kept_columns (row : obj) : obj :=
  filter (fun kv => truthy kv.2 = true) (Obj.delete "id" row).

(** The last kept column that is sent under the name [key]. *)
Definition last_column (key : string) (row : obj) : option jsval :=
  snd <$> List.find (fun kv => String.eqb key (style_key kv.1)) (reverse (kept_columns row)).

(** The placeholder feature of one raw row, [norm] being what the value parser
    makes of a value: the row's id, a point at 0, 0, and as properties the
    kept columns of the row under the names they are sent under. *)
Definition is_placeholder (norm : jsval → jsval) (row : obj) (feature : jsval) : Prop :=
  ∃ properties,
    feature = JObj [ ("type", JStr "Feature");
                     ("id", Obj.prop "id" row);
                     ("properties", JObj properties);
                     ("geometry", point (JArr [JNum 0; JNum 0])) ]
    ∧ Obj.wf properties
    ∧ ∀ key, Obj.get key properties = norm <$> last_column key row.

(** ** Sample configuration and requests *)

Module Fixture.

Definition cfg : Config :=
  {| maxidcount := 500;
     wikidataQueryService := Some "https://query.wikidata.org/sparql";
     sparqlHeaders := {[ "User-Agent" := JStr "kartotherian" ]};
     coordinatePredicateId := "wdt:P625";
     queries :=
       {[ "default" :=
            {| sql := Some "SELECT id, ST_AsGeoJSON(way) as data FROM $1~ WHERE id IN ($2:csv)";
               params := None |};
          "simplifyarea" :=
            {| sql := Some "SELECT id, ST_AsGeoJSON(ST_Simplify(way, $3)) as data FROM $1~ WHERE id IN ($2:csv)";
               params := Some [ {| param_name := Some "arg1";
                                   param_default := JNum 0.125 |} ] |} ]};
     lineTable := "wikidata_relation_members";
     polygonTable := "wikidata_relation_polygon";
     mwapi := "https://en.wikipedia.org/w/api.php";
     mwapiHeaders := ∅ |}.

(** The same service without a graph-query endpoint. *)
Definition cfg_no_wdqs : Config :=
  {| maxidcount := 500;
     wikidataQueryService := None;
     sparqlHeaders := sparqlHeaders cfg;
     coordinatePredicateId := coordinatePredicateId cfg;
     queries := queries cfg;
     lineTable := lineTable cfg;
     polygonTable := polygonTable cfg;
     mwapi := mwapi cfg;
     mwapiHeaders := mwapiHeaders cfg |}.

(** The same service accepting one id per request. *)
Definition cfg_one_id : Config :=
  {| maxidcount := 1;
     wikidataQueryService := wikidataQueryService cfg;
     sparqlHeaders := sparqlHeaders cfg;
     coordinatePredicateId := coordinatePredicateId cfg;
     queries := queries cfg;
     lineTable := lineTable cfg;
     polygonTable := polygonTable cfg;
     mwapi := mwapi cfg;
     mwapiHeaders := mwapiHeaders cfg |}.

(** [?ids=Q1,,Q2,Q1] *)
Definition req_ids : ReqParams := {[ "ids" := "Q1,,Q2,Q1" ]}.

(** [?ids=Q1,Q2&query=...] *)
Definition req_ids_and_query : ReqParams :=
  <[ "ids" := "Q1,Q2" ]> {[ "query" := "SELECT ?id WHERE { ?id wdt:P31 wd:Q515 }" ]}.

(** [?ids=q1,Q2] *)
Definition req_lowercase : ReqParams := {[ "ids" := "q1,Q2" ]}.

(** [?ids=Q1,Q02] *)
Definition req_leading_zero : ReqParams := {[ "ids" := "Q1,Q02" ]}.

(** [?ids=Q1&getgeojson=1], built as a point request and as a polygon
    request. *)
Definition req_q1 : ReqParams := <[ "ids" := "Q1" ]> {[ "getgeojson" := "1" ]}.

Definition this_for (type : string) (reqParams : ReqParams) (p : Params) : GeoShapes :=
  {| type := type;
     defaultIdColumn := "id";
     geoColumn := "geo";
     reqParams := reqParams;
     this_coordinatePredicateId := coordinatePredicateId cfg;
     parsed := p |}.

Definition params_q1 : Params :=
  {| sparqlQuery := None;
     ids := ["Q1"];
     idColumn := None;
     useGeoJson := true;
     queryName := None |}.

Definition geopoint : GeoShapes := this_for "geopoint" req_q1 params_q1.
Definition geoshape : GeoShapes := this_for "geoshape" req_q1 params_q1.

(** A Wikidata value parser: an entity URI gives the entity id, a literal
    gives its text, and anything else is unknown. *)
Fixpoint strip_prefix (p s : string) : option string :=
  match p, s with
  | EmptyString, _ => Some s
  | String a p', String b s' => if Ascii.eqb a b then strip_prefix p' s' else None
  | String _ _, EmptyString => None
  end.

Definition parseWikidataValue (value : jsval) (ignoreUnknown : bool) : result jsval :=
  match value with
  | JObj o =>
      if is_str "uri" (Obj.prop "type" o)
      then match Obj.prop "value" o with
           | JStr s =>
               match strip_prefix "http://www.wikidata.org/entity/" s with
               | Some id => Ok (JStr id)
               | None => if ignoreUnknown then Ok JUndefined else Throw (External "unknown")
               end
           | _ => if ignoreUnknown then Ok JUndefined else Throw (External "unknown")
           end
      else if is_str "literal" (Obj.prop "type" o) then Ok (Obj.prop "value" o)
      else if ignoreUnknown then Ok JUndefined else Throw (External "unknown")
  | _ => if ignoreUnknown then Ok JUndefined else Throw (External "unknown")
  end.

Definition uri (s : string) : jsval := JObj [("type", JStr "uri"); ("value", JStr s)].
Definition literal (s : string) : jsval := JObj [("type", JStr "literal"); ("value", JStr s)].

(** A binding whose id column is a literal, not a URI. *)
Definition row_literal_id : obj := [("id", literal "Q42")].

(** A binding with an entity URI, a styling column and an empty column. *)
Definition row_styled : obj :=
  [ ("id", uri "http://www.wikidata.org/entity/Q1");
    ("marker_color", literal "f00");
    ("title", literal "Universe") ].

(** The graph-query endpoint answers with one binding. *)
Definition preq_get (r : GetRequest) : result Response :=
  Ok {| resp_headers := {[ "content-type" := "application/sparql-results+json;charset=utf-8" ]};
        resp_body := JObj [("results", JObj [("bindings", JArr [JObj row_styled])])] |}.

(** The sanitiser answers with the JSON text below, and [JSON.parse] reads
    it back. *)
Definition quoted (s : string) : string := dquote ++ s ++ dquote.

Definition sanitized_text : string :=
  "[{" ++ quoted "id" ++ ":" ++ quoted "Q1" ++ "," ++ quoted "properties" ++ ":{" ++
  quoted "marker-color" ++ ":" ++ quoted "f00" ++ "," ++
  quoted "title" ++ ":" ++ quoted "Universe" ++ "}}]".

Definition preq_post (r : PostRequest) : result Response :=
  Ok {| resp_headers := ∅;
        resp_body := JObj [("sanitize-mapdata", JObj [("sanitized", JStr sanitized_text)])] |}.

Definition polygon_text : string :=
  "{" ++ quoted "type" ++ ":" ++ quoted "Polygon" ++ "," ++
  quoted "coordinates" ++ ":[]}".

Definition polygon : jsval := JObj [("type", JStr "Polygon"); ("coordinates", JArr [])].

Definition JSON_parse (s : string) : result jsval :=
  if String.eqb s sanitized_text
  then Ok (JArr [JObj [ ("id", JStr "Q1");
                        ("properties", JObj [ ("marker-color", JStr "f00");
                                              ("title", JStr "Universe") ]) ]])
  else if String.eqb s polygon_text then Ok polygon
  else Throw SyntaxError.

(** The spatial store returns two rows for the entity. *)
Definition db_query (sql : option string) (args : list jsval) : result (list GeometryRow) :=
  Ok [ {| row_id := "Q1"; row_data := polygon_text |};
       {| row_id := "Q1"; row_data := polygon_text |} ].

(** A topology encoder that keeps, per feature, its id, the properties the
    transform returns and its geometry, and that refuses, as the library
    does, a point that has no coordinates. *)
Definition no_coordinates (feature : Feature) : bool :=
  match f_geometry feature with
  | JObj geometry =>
      is_str "Point" (Obj.prop "type" geometry)
      && negb (truthy (Obj.prop "coordinates" geometry))
  | _ => false
  end.

Definition topojson_topology (objects : list (string * list Feature))
  (transform : Feature → obj) : result (list (string * list (jsval * obj * jsval))) :=
  if existsb (fun kv : string * list Feature => existsb no_coordinates kv.2) objects
  then Throw TypeError
  else Ok (map (fun kv : string * list Feature =>
                  (kv.1, map (fun f => (f_id f, transform f, f_geometry f)) kv.2))
             objects).


Definition world : World := {| config := cfg; calls := [] |}.

(** Geometry rows and clean property rows for the entity Q1 and Q2. *)
Definition row_q1 : GeometryRow := {| row_id := "Q1"; row_data := polygon_text |}.
Definition row_q2 : GeometryRow := {| row_id := "Q2"; row_data := polygon_text |}.
Definition clean_a : obj := [("name", JStr "a"); ("id", JStr "Q1")].
Definition clean_b : obj := [("name", JStr "b"); ("id", JStr "Q1")].
Definition clean_point : obj :=
  [("id", JStr "Q1"); ("geo", JArr [JNum 1; JNum 2]); ("name", JStr "x")].
Definition geometry_of (row : GeometryRow) : jsval := polygon.

(** The value the parser gives when it does not throw. *)
Definition norm (value : jsval) : jsval :=
  match parseWikidataValue value false with
  | Ok v => v
  | Throw _ => JUndefined
  end.

(** A raw property row as [_processResultRow] leaves it, with a styling
    column in its underscore form and a column that holds nothing. *)
Definition raw_row : obj :=
  [ ("marker_color", literal "f00");
    ("note", JStr EmptyString);
    ("title", literal "Universe");
    ("id", JStr "Q1") ].

(** [?ids=Q1&sql=simplifyarea&arg1=0.5] *)
Definition req_simplify_numeric : ReqParams :=
  <[ "ids" := "Q1" ]> (<[ "sql" := "simplifyarea" ]> {[ "arg1" := "0.5" ]}).

(** [?ids=Q2&query=...&getgeojson=1] as a polygon request: the graph query
    resolves Q1. *)
Definition req_query_ids : ReqParams :=
  <[ "ids" := "Q2" ]>
    (<[ "query" := "SELECT ?id WHERE { ?id wdt:P31 wd:Q515 }" ]>
       {[ "getgeojson" := "1" ]}).

Definition params_query_ids : Params :=
  {| sparqlQuery := Some "SELECT ?id WHERE { ?id wdt:P31 wd:Q515 }";
     ids := ["Q2"];
     idColumn := None;
     useGeoJson := true;
     queryName := None |}.

Definition geoshape_query_ids : GeoShapes :=
  this_for "geoshape" req_query_ids params_query_ids.










(** A service whose profile [buffered] declares one parameter, without a
    name. *)
Definition cfg_unnamed : Config :=
  {| maxidcount := maxidcount cfg;
     wikidataQueryService := wikidataQueryService cfg;
     sparqlHeaders := sparqlHeaders cfg;
     coordinatePredicateId := coordinatePredicateId cfg;
     queries :=
       <[ "buffered" :=
            {| sql := Some "SELECT id, ST_AsGeoJSON(ST_Buffer(way, $3)) as data FROM $1~ WHERE id IN ($2:csv)";
               params := Some [ {| param_name := None; param_default := JNum 0.5 |} ] |} ]>
         (queries cfg);
     lineTable := lineTable cfg;
     polygonTable := polygonTable cfg;
     mwapi := mwapi cfg;
     mwapiHeaders := mwapiHeaders cfg |}.

Definition world_unnamed : World := {| config := cfg_unnamed; calls := [] |}.

(** A raw property row with a column named like a member that every object
    inherits. *)
Definition row_constructor : obj :=
  [ ("constructor", literal "x"); ("id", JStr "Q1") ].

(** The same request with a value that is not a number. *)
Definition req_simplify_text : ReqParams :=
  <[ "ids" := "Q1" ]> (<[ "sql" := "simplifyarea" ]> {[ "arg1" := "x) OR (true" ]}).

(** A geometry row whose data is not JSON. *)
Definition row_broken : GeometryRow := {| row_id := "Q3"; row_data := "POLYGON EMPTY" |}.

(** [?ids=,,]: an id list without a single id. *)
Definition req_commas : ReqParams := {[ "ids" := ",," ]}.

Definition params_none : Params :=
  {| sparqlQuery := None;
     ids := [];
     idColumn := None;
     useGeoJson := false;
     queryName := None |}.

Definition geoshape_none : GeoShapes := this_for "geoshape" req_commas params_none.

(** [?query=...&sql=simplifyarea&arg1=0.5] as a polygon request. *)
Definition req_query_simplify : ReqParams :=
  <[ "query" := "SELECT ?id WHERE { ?id wdt:P31 wd:Q515 }" ]>
    (<[ "sql" := "simplifyarea" ]> {[ "arg1" := "0.5" ]}).

Definition params_query_simplify : Params :=
  {| sparqlQuery := Some "SELECT ?id WHERE { ?id wdt:P31 wd:Q515 }";
     ids := [];
     idColumn := None;
     useGeoJson := false;
     queryName := Some "simplifyarea" |}.

Definition geoshape_query_simplify : GeoShapes :=
  this_for "geoshape" req_query_simplify params_query_simplify.

(** A stand-in for [zlib] that keeps the magic numbers of the two formats:
    gzip data begins with 1F 8B, zlib data with 78 9C. *)
Definition gzip (d : list Byte.byte) : result (list Byte.byte) :=
  Ok (Byte.x1f :: Byte.x8b :: d).

Definition gunzip (z : list Byte.byte) : result (list Byte.byte) :=
  match z with
  | Byte.x1f :: Byte.x8b :: d => Ok d
  | _ => Throw (External "incorrect header check")
  end.

Definition inflate (z : list Byte.byte) : result (list Byte.byte) :=
  match z with
  | Byte.x78 :: Byte.x9c :: d => Ok d
  | _ => Throw (External "incorrect header check")
  end.

(** Tile headers with the encoding named twice, in two spellings. *)
Definition tile_headers : obj :=
  [ ("Content-Type", JStr "application/x-protobuf");
    ("content-encoding", JStr "gzip");
    ("ETag", JStr "abc");
    ("CONTENT-ENCODING", JStr "gzip") ].

End Fixture.

(** * Properties *)

(** ** Regular expression matching *)

Section RegexFacts.
Import Regex.

Lemma append_nil_l (t : string) : (EmptyString ++ t)%string = t.
Proof. reflexivity. Qed.

Lemma append_cons (c : ascii) (s t : string) :
  (String c s ++ t)%string = String c (s ++ t).
Proof. reflexivity. Qed.

Lemma append_nil_r (s : string) : (s ++ EmptyString)%string = s.
Proof.
  induction s as [|c s IH]; [done|]. by rewrite append_cons, IH.
Qed.

Lemma append_assoc (a b c : string) : ((a ++ b) ++ c = a ++ (b ++ c))%string.
Proof.
  induction a as [|x a IH]; [done|]. by rewrite !append_cons, IH.
Qed.

Lemma nullable_lang (r : regex) : nullable r = true ↔ lang r EmptyString.
Proof.
  induction r as [| | | | |r1 IH1 r2 IH2|r1 IH1 r2 IH2|r IH]; simpl.
  - split; [done | inversion 1].
  - split; [constructor | done].
  - split; [done | inversion 1].
  - split; [done | inversion 1].
  - split; [done | inversion 1].
  - rewrite andb_true_iff, IH1, IH2. split.
    + intros [H1 H2]. by apply (lang_seq _ _ EmptyString EmptyString).
    + inversion 1 as [| | | |? ? s1 s2 H1 H2| | | |]; subst.
      destruct s1 as [|c1 s1]; [|discriminate].
      match goal with E : (EmptyString ++ _)%string = _ |- _ =>
        rewrite append_nil_l in E; subst end.
      done.
  - rewrite orb_true_iff, IH1, IH2. split.
    + intros [?|?]; [by apply lang_alt_l | by apply lang_alt_r].
    + inversion 1; subst; auto.
  - split; [constructor | done].
Qed.

Lemma lang_deriv (c : ascii) (r : regex) (s : string) :
  lang (deriv c r) s → lang r (String c s).
Proof.
  revert s. induction r as [| | c'| lo hi | |r1 IH1 r2 IH2|r1 IH1 r2 IH2|r IH];
    intros s; simpl.
  - inversion 1.
  - inversion 1.
  - destruct (Ascii.eqb_spec c c') as [->|]; inversion 1; subst. constructor.
  - destruct (in_range lo hi c) eqn:E; inversion 1; subst. by constructor.
  - inversion 1; subst. constructor.
  - destruct (nullable r1) eqn:E.
    + inversion 1 as [| | | | |? ? ? H1|? ? ? H2| |]; subst.
      * inversion H1 as [| | | |? ? s1 s2 Ha Hb| | | |]; subst.
        apply (lang_seq _ _ (String c s1) s2); auto.
      * apply (lang_seq _ _ EmptyString (String c s)); auto.
        by apply nullable_lang.
    + inversion 1 as [| | | |? ? s1 s2 Ha Hb| | | |]; subst.
      apply (lang_seq _ _ (String c s1) s2); auto.
  - inversion 1; subst; [apply lang_alt_l | apply lang_alt_r]; auto.
  - inversion 1 as [| | | |? ? s1 s2 Ha Hb| | | |]; subst.
    apply (lang_star_cons _ (String c s1) s2); auto.
Qed.

Lemma deriv_lang (c : ascii) (r : regex) (s0 : string) :
  lang r s0 → ∀ s, s0 = String c s → lang (deriv c r) s.
Proof.
  induction 1 as [|c'|lo hi c' Hr|c'|r1 r2 s1 s2 H1 IH1 H2 IH2
                  |r1 r2 s0 H IH|r1 r2 s0 H IH| |r s1 s2 H1 IH1 H2 IH2];
    intros s Heq; simpl.
  - done.
  - injection Heq as -> <-. rewrite Ascii.eqb_refl. constructor.
  - injection Heq as -> <-. rewrite Hr. constructor.
  - injection Heq as -> <-. constructor.
  - destruct s1 as [|c1 s1];
      [rewrite append_nil_l in Heq | rewrite append_cons in Heq].
    + subst s2. apply nullable_lang in H1. rewrite H1.
      apply lang_alt_r. by apply IH2.
    + injection Heq as -> <-.
      pose proof (lang_seq _ _ _ _ (IH1 _ eq_refl) H2) as Hs.
      destruct (nullable r1); [by apply lang_alt_l | done].
  - apply lang_alt_l. by apply IH.
  - apply lang_alt_r. by apply IH.
  - done.
  - destruct s1 as [|c1 s1];
      [rewrite append_nil_l in Heq | rewrite append_cons in Heq].
    + by apply IH2.
    + injection Heq as -> <-.
      exact (lang_seq _ _ _ _ (IH1 _ eq_refl) H2).
Qed.

Lemma full_match_lang (r : regex) (s : string) :
  full_match r s = true ↔ lang r s.
Proof.
  revert r. induction s as [|c s IH]; intros r; simpl.
  - apply nullable_lang.
  - rewrite IH. split; [apply lang_deriv | intros H; by eapply deriv_lang].
Qed.

Lemma lang_eps_inv s : lang Eps s → s = EmptyString.
Proof. by inversion 1. Qed.

Lemma lang_chr_inv c s : lang (Chr c) s → s = String c EmptyString.
Proof. by inversion 1. Qed.

Lemma lang_range_inv lo hi s :
  lang (Range lo hi) s → ∃ c, s = String c EmptyString ∧ in_range lo hi c = true.
Proof. inversion 1; eauto. Qed.

Lemma lang_seq_inv r1 r2 s :
  lang (Seq r1 r2) s → ∃ s1 s2, s = (s1 ++ s2)%string ∧ lang r1 s1 ∧ lang r2 s2.
Proof. inversion 1; eauto. Qed.

Lemma lang_alt_inv r1 r2 s : lang (Alt r1 r2) s → lang r1 s ∨ lang r2 s.
Proof. inversion 1; eauto. Qed.

Lemma chars_app (s t : string) : chars (s ++ t) = (chars s ++ chars t)%list.
Proof.
  induction s as [|c s IH]; [done|]. rewrite append_cons. simpl. by rewrite IH.
Qed.

Lemma lang_star_any (s : string) : lang (Star AnyChar) s.
Proof.
  induction s as [|c s IH]; [constructor|].
  apply (lang_star_cons _ (String c EmptyString) s); [constructor | done].
Qed.

(** [r{0,n}] over digits: at most [n] characters, all of them digits. *)
Lemma lang_upto_digits (n : nat) (s : string) :
  lang (UpTo n digit) s ↔
  forallb is_digit (chars s) = true ∧ (length (chars s) ≤ n)%nat.
Proof.
  revert s. induction n as [|n IH]; intros s; simpl.
  - split.
    + intros ->%lang_eps_inv. simpl. split; [done | lia].
    + intros [_ Hlen]. destruct s; simpl in Hlen; [constructor | lia].
  - split.
    + intros [->%lang_eps_inv|H]%lang_alt_inv; [simpl; split; [done | lia]|].
      apply lang_seq_inv in H as (s1 & s2 & -> & H1 & H2).
      apply lang_range_inv in H1 as (c & -> & Hc).
      apply IH in H2 as [Hd Hlen]. rewrite append_cons, append_nil_l. simpl.
      unfold is_digit at 1. rewrite Hc, Hd. split; [done | lia].
    + intros [Hd Hlen]. destruct s as [|c s]; [apply lang_alt_l; constructor|].
      simpl in Hd, Hlen. apply andb_true_iff in Hd as [Hc Hd].
      apply lang_alt_r.
      apply (lang_seq _ _ (String c EmptyString) s); [by constructor|].
      apply IH. split; [done | lia].
Qed.

(** The entity-id grammar: the letter Q, a digit from 1 to 9, then at most
    fifteen digits. *)
Lemma idRegex_test_spec (s : string) :
  idRegex_test s = true ↔
  ∃ d rest, s = String "Q" (String d rest)
            ∧ in_range "1" "9" d = true
            ∧ forallb is_digit (chars rest) = true
            ∧ (length (chars rest) ≤ 15)%nat.
Proof.
  unfold idRegex_test, idRegex. rewrite full_match_lang. split.
  - intros (s1 & s2 & -> & ->%lang_chr_inv & H)%lang_seq_inv.
    apply lang_seq_inv in H as (s3 & s4 & -> & (d & -> & Hd)%lang_range_inv & H).
    apply lang_upto_digits in H as [? ?].
    exists d, s4. by rewrite !append_cons, !append_nil_l.
  - intros (d & rest & -> & Hd & Hr & Hlen).
    apply (lang_seq _ _ (String "Q" EmptyString) (String d rest)); [constructor|].
    apply (lang_seq _ _ (String d EmptyString) rest); [by constructor|].
    by apply lang_upto_digits.
Qed.

(** Without anchors, [floatRegex] finds a match as soon as the string holds
    one digit. *)
Lemma floatRegex_test_spec (s : string) :
  floatRegex_test s = true ↔ ∃ c, c ∈ chars s ∧ is_digit c = true.
Proof.
  unfold floatRegex_test, search, floatRegex. rewrite full_match_lang. split.
  - intros (s1 & s2 & -> & _ & H)%lang_seq_inv.
    apply lang_seq_inv in H as (s3 & s4 & -> & H & _).
    apply lang_seq_inv in H as (s5 & s6 & -> & _ & H).
    apply lang_seq_inv in H as (s7 & s8 & -> & H & _).
    apply lang_seq_inv in H as (s9 & s10 & -> & (c & -> & Hc)%lang_range_inv & _).
    exists c. split; [|done].
    rewrite !chars_app. simpl. set_solver.
  - intros (c & Hin & Hc).
    assert (∃ pre post, s = (pre ++ String c post)%string) as (pre & post & ->).
    { clear Hc. induction s as [|x s IH]; simpl in Hin; [by apply elem_of_nil in Hin|].
      apply elem_of_cons in Hin as [->|Hin].
      - by exists EmptyString, s.
      - destruct (IH Hin) as (pre & post & ->). by exists (String x pre), post. }
    apply lang_seq; [apply lang_star_any|].
    apply (lang_seq _ _ (String c EmptyString) post); [|apply lang_star_any].
    apply (lang_seq _ _ EmptyString (String c EmptyString)); [apply lang_alt_l; constructor|].
    apply (lang_seq _ _ (String c EmptyString) EmptyString);
      [|apply lang_alt_l; constructor].
    apply (lang_seq _ _ (String c EmptyString) EmptyString);
      [by constructor | constructor].
Qed.

End RegexFacts.

(** ** Objects *)

Section ObjFacts.

Lemma Obj_get_set_eq (k : string) (v : jsval) (o : obj) :
  Obj.get k (Obj.set k v o) = Some v.
Proof.
  induction o as [|[k' v'] o IH]; simpl.
  - by rewrite String.eqb_refl.
  - destruct (String.eqb_spec k k') as [->|Hne]; simpl.
    + by rewrite String.eqb_refl.
    + by destruct (String.eqb_spec k k').
Qed.

Lemma Obj_get_set_ne (k k' : string) (v : jsval) (o : obj) :
  k ≠ k' → Obj.get k (Obj.set k' v o) = Obj.get k o.
Proof.
  intros Hne. induction o as [|[k0 v0] o IH]; simpl.
  - by destruct (String.eqb_spec k k').
  - destruct (String.eqb_spec k' k0) as [->|Hne']; simpl.
    + by destruct (String.eqb_spec k k0).
    + destruct (String.eqb_spec k k0); [done | apply IH].
Qed.

Lemma Obj_get_has (k : string) (o : obj) :
  Obj.has k o = match Obj.get k o with Some _ => true | None => false end.
Proof.
  induction o as [|[k' v'] o IH]; simpl; [done|].
  by destruct (String.eqb_spec k k').
Qed.

Lemma Obj_get_delete_eq (k : string) (o : obj) : Obj.get k (Obj.delete k o) = None.
Proof.
  unfold Obj.delete. induction o as [|[k' v'] o IH]; [done|].
  rewrite filter_cons. simpl. case_decide as Hk; simpl; [|done].
  destruct (String.eqb_spec k k'); [congruence | done].
Qed.

Lemma Obj_get_delete_ne (k k' : string) (o : obj) :
  k ≠ k' → Obj.get k (Obj.delete k' o) = Obj.get k o.
Proof.
  intros Hne. unfold Obj.delete. induction o as [|[k0 v0] o IH]; [done|].
  rewrite filter_cons. simpl. case_decide as Hk; simpl.
  - by rewrite IH.
  - subst k0. by destruct (String.eqb_spec k k').
Qed.

Lemma Obj_delete_absent (k : string) (o : obj) :
  Obj.has k o = false → Obj.delete k o = o.
Proof.
  unfold Obj.delete. induction o as [|[k' v'] o IH]; simpl; [done|].
  intros [Hk Ho]%orb_false_iff. rewrite filter_cons. simpl.
  destruct (String.eqb_spec k k'); [done|].
  case_decide; [by rewrite IH | congruence].
Qed.

Lemma Obj_delete_idemp (k : string) (o : obj) :
  Obj.delete k (Obj.delete k o) = Obj.delete k o.
Proof. unfold Obj.delete. apply list_filter_filter_l. done. Qed.

Lemma Obj_prop_delete_eq (k : string) (o : obj) :
  Obj.prop k (Obj.delete k o) = Proto.value k.
Proof. unfold Obj.prop. by rewrite Obj_get_delete_eq. Qed.

Lemma Obj_prop_delete_ne (k k' : string) (o : obj) :
  k ≠ k' → Obj.prop k (Obj.delete k' o) = Obj.prop k o.
Proof. intros. unfold Obj.prop. by rewrite Obj_get_delete_ne. Qed.

Lemma Obj_keys_set (k : string) (v : jsval) (o : obj) :
  Obj.keys (Obj.set k v o)
  = if Obj.has k o then Obj.keys o else (Obj.keys o ++ [k])%list.
Proof.
  induction o as [|[k' v'] o IH]; [done|].
  simpl Obj.set. simpl Obj.has.
  destruct (String.eqb_spec k k'); [done|].
  change (Obj.keys ((k', v') :: Obj.set k v o)) with (k' :: Obj.keys (Obj.set k v o)).
  rewrite IH. by destruct (Obj.has k o).
Qed.

Lemma Obj_has_elem (k : string) (o : obj) :
  Obj.has k o = true ↔ k ∈ Obj.keys o.
Proof.
  unfold Obj.keys. induction o as [|[k' v'] o IH]; simpl.
  - split; [done | by intros ?%elem_of_nil].
  - rewrite orb_true_iff, IH, elem_of_cons.
    destruct (String.eqb_spec k k'); naive_solver.
Qed.

Lemma Obj_wf_set (k : string) (v : jsval) (o : obj) :
  Obj.wf o → Obj.wf (Obj.set k v o).
Proof.
  unfold Obj.wf. intros Hwf. rewrite Obj_keys_set.
  destruct (Obj.has k o) eqn:Hk; [done|].
  apply NoDup_app. repeat split; [done | | apply NoDup_singleton].
  intros x Hx ->%list_elem_of_singleton.
  apply Obj_has_elem in Hx. congruence.
Qed.

End ObjFacts.

(** ** Request Normalizer *)

Section ParseParams.

Lemma StrSet_of_list_acc (l acc : list string) :
  NoDup acc →
  NoDup (foldl (fun s x => StrSet.add x s) acc l)
  ∧ ∀ x, x ∈ foldl (fun s x => StrSet.add x s) acc l ↔ x ∈ acc ∨ x ∈ l.
Proof.
  revert acc. induction l as [|y l IH]; intros acc Hacc; simpl.
  - split; [done | set_solver].
  - assert (NoDup (StrSet.add y acc) ∧ ∀ x, x ∈ StrSet.add y acc ↔ x ∈ acc ∨ x = y)
      as [Hnd Hel].
    { unfold StrSet.add. case_bool_decide as Hy.
      - split; [done | set_solver].
      - split.
        + apply NoDup_app. repeat split; [done | set_solver | apply NoDup_singleton].
        + set_solver. }
    destruct (IH _ Hnd) as [IH1 IH2]. split; [done|].
    intros x. rewrite IH2, Hel. set_solver.
Qed.

Lemma parsed_ids_NoDup (reqParams : ReqParams) : NoDup (parsed_ids reqParams).
Proof.
  unfold parsed_ids, StrSet.delete, StrSet.of_list.
  apply NoDup_filter, StrSet_of_list_acc, NoDup_nil_2.
Qed.

Lemma parsed_ids_tokens (reqParams : ReqParams) (x : string) :
  x ∈ parsed_ids reqParams ↔ x ∈ id_tokens reqParams.
Proof.
  unfold parsed_ids, id_tokens, StrSet.delete, StrSet.of_list.
  rewrite list_elem_of_filter.
  rewrite (proj2 (StrSet_of_list_acc _ [] (NoDup_nil_2))).
  destruct (reqParams !! "ids") as [raw|]; simpl; [|set_solver].
  rewrite list_elem_of_filter.
  destruct (String.eqb_spec raw EmptyString) as [->|]; simpl; set_solver.
Qed.

Lemma parsed_ids_set (reqParams : ReqParams) :
  list_to_set (parsed_ids reqParams) =@{gset string} list_to_set (id_tokens reqParams).
Proof.
  apply set_eq. intros x. rewrite !elem_of_list_to_set. apply parsed_ids_tokens.
Qed.

Lemma parsed_ids_size (reqParams : ReqParams) :
  StrSet.size (parsed_ids reqParams)
  = Z.of_nat (size (list_to_set (id_tokens reqParams) : gset string)).
Proof.
  unfold StrSet.size. rewrite <-parsed_ids_set.
  by rewrite size_list_to_set by apply parsed_ids_NoDup.
Qed.

Lemma check_ids_valid (l : list string) :
  Forall (fun id => idRegex_test id = true) l → check_ids l = Ok tt.
Proof.
  induction 1 as [|id l Hid _ IH]; simpl; [done|]. by rewrite Hid.
Qed.

Lemma check_ids_invalid (l : list string) :
  Exists (fun id => idRegex_test id = false) l →
  ∃ id, check_ids l = Throw (InvalidId id) ∧ id ∈ l ∧ idRegex_test id = false.
Proof.
  induction l as [|x l IH]; intros H; [by apply Exists_nil in H|].
  simpl. destruct (idRegex_test x) eqn:Hx; simpl.
  - apply Exists_cons in H as [H|H]; [congruence|].
    destruct (IH H) as (id & ? & ? & ?). exists id. set_solver.
  - exists x. set_solver.
Qed.

Lemma passes_guards_unfold (config : Config) (reqParams : ReqParams) :
  passes_guards config reqParams = true →
  _parseParams config reqParams =
  if (StrSet.size (parsed_ids reqParams) >? maxidcount config)%Z
  then Throw (TooManyIds (maxidcount config))
  else rbind (check_ids (parsed_ids reqParams)) (fun _ =>
         Ok {| sparqlQuery := reqParams !! "query";
               ids := parsed_ids reqParams;
               idColumn := reqParams !! "idcolumn";
               useGeoJson := truthy_str (reqParams !! "getgeojson");
               queryName := reqParams !! "sql" |}).
Proof.
  unfold passes_guards, _parseParams. intros H.
  apply andb_true_iff in H as [H1 H2].
  destruct (truthy_str (reqParams !! "ids")), (truthy_str (reqParams !! "query")),
    (truthy_str (wikidataQueryService config)); simpl in *; done.
Qed.

(** An id list with a token outside the grammar is never accepted. *)
Lemma parseParams_invalid_never_ok (config : Config) (reqParams : ReqParams) :
  Exists (fun id => idRegex_test id = false) (id_tokens reqParams) →
  ∃ e, _parseParams config reqParams = Throw e.
Proof.
  intros H. unfold _parseParams.
  repeat (match goal with |- context [if ?b then _ else _] => destruct b end;
          try by eexists).
  assert (Exists (fun id => idRegex_test id = false) (parsed_ids reqParams)) as H'.
  { apply Exists_exists in H as (x & Hx & ?). apply Exists_exists.
    exists x. by rewrite parsed_ids_tokens. }
  apply check_ids_invalid in H' as (id & -> & _). by eexists.
Qed.

End ParseParams.

(** C5 (as the code has it).  Once the two earlier guards have passed (an id
    list or a query is given, and a query only where the graph-query service
    is configured), the id list is split on commas, its empty tokens are
    dropped and it is deduplicated: when every token is in the entity-id
    grammar and the deduplicated count is at most [maxidcount], normalisation
    succeeds and its ids are, without repetition, exactly the set of the
    tokens; when the deduplicated count exceeds [maxidcount], it fails with
    TooManyIds. *)
Theorem parseParams_id_set (config : Config) (reqParams : ReqParams) :
  passes_guards config reqParams = true →
  (Forall (fun id => idRegex_test id = true) (id_tokens reqParams) →
   (Z.of_nat (size (list_to_set (id_tokens reqParams) : gset string))
    ≤ maxidcount config)%Z →
   ∃ p, _parseParams config reqParams = Ok p
        ∧ NoDup (ids p)
        ∧ list_to_set (ids p) =@{gset string} list_to_set (id_tokens reqParams))
  ∧ ((maxidcount config
      < Z.of_nat (size (list_to_set (id_tokens reqParams) : gset string)))%Z →
     _parseParams config reqParams = Throw (TooManyIds (maxidcount config))).
Proof.
  intros Hg. rewrite (passes_guards_unfold _ _ Hg), parsed_ids_size. split.
  - intros Hvalid Hmax.
    destruct (Z.gtb_spec (Z.of_nat (size (list_to_set (id_tokens reqParams) : gset string)))
                (maxidcount config)) as [|_]; [lia|].
    rewrite check_ids_valid.
    + eexists. split; [done|]. simpl. split; [apply parsed_ids_NoDup | apply parsed_ids_set].
    + apply Forall_forall. intros x Hx%parsed_ids_tokens.
      by eapply Forall_forall in Hvalid.
  - intros Hmax.
    destruct (Z.gtb_spec (Z.of_nat (size (list_to_set (id_tokens reqParams) : gset string)))
                (maxidcount config)) as [|]; [done | lia].
Qed.

Lemma parseParams_id_set_witness :
  ∃ p, _parseParams Fixture.cfg Fixture.req_ids = Ok p
       ∧ NoDup (ids p)
       ∧ list_to_set (ids p) =@{gset string} list_to_set (id_tokens Fixture.req_ids).
Proof.
  apply (parseParams_id_set Fixture.cfg Fixture.req_ids).
  - reflexivity.
  - vm_compute. repeat constructor.
  - vm_compute. discriminate.
Defined.

(** C5 as stated fails: both ids are in the grammar and there are fewer of
    them than [maxidcount], yet the request is refused, because it also
    carries a query and no graph-query service is configured. *)
Lemma parseParams_valid_ids_rejected :
  Forall (fun id => idRegex_test id = true) (id_tokens Fixture.req_ids_and_query)
  ∧ (Z.of_nat (size (list_to_set (id_tokens Fixture.req_ids_and_query) : gset string))
     ≤ maxidcount Fixture.cfg_no_wdqs)%Z
  ∧ _parseParams Fixture.cfg_no_wdqs Fixture.req_ids_and_query = Throw FeatureDisabled.
Proof.
  split; [vm_compute; repeat constructor|].
  split; [vm_compute; discriminate | reflexivity].
Qed.

(** C6 (as the code has it).  An id list with a token outside the entity-id
    grammar is never accepted; when the earlier guards pass and the
    deduplicated count is at most [maxidcount], the failure is InvalidId, for
    a token of the list that is outside the grammar.  A token whose first
    character is not the letter Q (a lowercase prefix, say) and a token whose
    number starts with 0 (a leading zero, or zero itself) are outside the
    grammar. *)
Theorem parseParams_invalid_id (config : Config) (reqParams : ReqParams) :
  Exists (fun id => idRegex_test id = false) (id_tokens reqParams) →
  (∃ e, _parseParams config reqParams = Throw e)
  ∧ (passes_guards config reqParams = true →
     (Z.of_nat (size (list_to_set (id_tokens reqParams) : gset string))
      ≤ maxidcount config)%Z →
     ∃ id, _parseParams config reqParams = Throw (InvalidId id)
           ∧ id ∈ id_tokens reqParams
           ∧ idRegex_test id = false)
  ∧ (∀ c rest, c ≠ "Q"%char → idRegex_test (String c rest) = false)
  ∧ (∀ rest, idRegex_test (String "Q" (String "0" rest)) = false).
Proof.
  intros Hex. split; [by apply parseParams_invalid_never_ok|]. split.
  - intros Hg Hmax. rewrite (passes_guards_unfold _ _ Hg), parsed_ids_size.
    destruct (Z.gtb_spec (Z.of_nat (size (list_to_set (id_tokens reqParams) : gset string)))
                (maxidcount config)) as [|_]; [lia|].
    assert (Exists (fun id => idRegex_test id = false) (parsed_ids reqParams)) as H'.
    { apply Exists_exists in Hex as (x & Hx & ?). apply Exists_exists.
      exists x. by rewrite parsed_ids_tokens. }
    apply check_ids_invalid in H' as (id & -> & Hin & ?).
    exists id. by rewrite <-parsed_ids_tokens.
  - split.
    + intros c rest Hc. apply not_true_is_false.
      intros (d & r & [= -> _] & _)%idRegex_test_spec. done.
    + intros rest. apply not_true_is_false.
      intros (d & r & [= <- _] & Hd & _)%idRegex_test_spec. done.
Qed.

Lemma parseParams_invalid_id_witness :
  ∃ id, _parseParams Fixture.cfg Fixture.req_leading_zero = Throw (InvalidId id)
        ∧ id ∈ id_tokens Fixture.req_leading_zero
        ∧ idRegex_test id = false.
Proof.
  refine (proj1 (proj2 (parseParams_invalid_id Fixture.cfg Fixture.req_leading_zero _)) _ _).
  - vm_compute. apply Exists_cons_tl, Exists_cons_hd. reflexivity.
  - reflexivity.
  - vm_compute. discriminate.
Defined.

(** C6 as stated fails: the token q1 is outside the grammar, yet the error is
    TooManyIds, because the count is checked before the grammar. *)
Lemma parseParams_invalid_id_too_many :
  "q1" ∈ id_tokens Fixture.req_lowercase
  ∧ idRegex_test "q1" = false
  ∧ _parseParams Fixture.cfg_one_id Fixture.req_lowercase = Throw (TooManyIds 1).
Proof.
  split; [vm_compute; apply list_elem_of_here|]. split; reflexivity.
Qed.

(** ** The constructor *)

Lemma constructor_fields (ty : string) (req : ReqParams) (config : Config)
  (this : GeoShapes) :
  constructor ty req config = Ok this →
  type this = ty
  ∧ defaultIdColumn this = "id"
  ∧ geoColumn this = "geo"
  ∧ reqParams this = req
  ∧ this_coordinatePredicateId this = coordinatePredicateId config
  ∧ _parseParams config req = Ok (parsed this).
Proof.
  unfold constructor. destruct (_parseParams config req) as [p|e]; simpl; [|done].
  by intros [= <-].
Qed.

(** ** Graph Query Runner *)

Section GraphQuery.

Lemma message_hint_differs (column : string) :
  message (MissingIdColumn column true) ≠ message (MissingIdColumn column false).
Proof. vm_compute. discriminate. Qed.

Lemma split_no_sep (sep : ascii) (s : string) :
  sep ∉ chars s → split sep s = [s].
Proof.
  induction s as [|c s IH]; simpl; [done|].
  intros Hc. destruct (Ascii.eqb_spec c sep) as [->|_]; [set_solver|].
  rewrite IH by set_solver. done.
Qed.

Lemma split_app_sep (sep : ascii) (s t : string) :
  sep ∉ chars s → split sep (s ++ String sep t) = s :: split sep t.
Proof.
  induction s as [|c s IH]; intros Hc.
  - rewrite append_nil_l. simpl. by rewrite Ascii.eqb_refl.
  - rewrite append_cons. simpl in *.
    destruct (Ascii.eqb_spec c sep) as [->|_]; [set_solver|].
    rewrite IH by set_solver. done.
Qed.

(** Joining with a separator that occurs in no element is undone by
    splitting. *)
Lemma split_join (sep : ascii) (l : list string) :
  l ≠ [] → Forall (fun s => sep ∉ chars s) l →
  split sep (join (String sep EmptyString) l) = l.
Proof.
  intros Hne Hall. induction Hall as [|x l Hx Hall IH]; [done|].
  destruct l as [|y l].
  - simpl. by apply split_no_sep.
  - change (join (String sep EmptyString) (x :: y :: l))
      with (x ++ String sep EmptyString ++ join (String sep EmptyString) (y :: l))%string.
    rewrite append_cons, append_nil_l, split_app_sep by done.
    by rewrite IH.
Qed.

Lemma valid_id_no_space (id : string) :
  idRegex_test id = true → " "%char ∉ chars ("wd:" ++ id).
Proof.
  intros (d & rest & -> & Hd & Hr & _)%idRegex_test_spec.
  rewrite chars_app. simpl.
  assert (" "%char ∉ chars rest) as Hrest.
  { intros Hin. rewrite forallb_forall in Hr.
    apply list_elem_of_In, Hr in Hin. done. }
  repeat (apply not_elem_of_cons; split; [intros E; subst; done|]).
  done.
Qed.

Variable parseWikidataValue : jsval → bool → result jsval.
Variable this : GeoShapes.

Lemma processResultRow_unfold (wd : obj) (customIdColumn : option string) :
  _processResultRow parseWikidataValue this wd customIdColumn =
  let idColumn := effective_id_column this customIdColumn in
  if negb (Obj.mem idColumn wd)
  then Throw (MissingIdColumn idColumn (negb (truthy_str customIdColumn)))
  else
    id <-! parseWikidataValue (Obj.prop idColumn wd) true ;;
    if negb (truthy id) then Throw (InvalidGraphId idColumn)
    else
      match member_opt "type" (Obj.prop idColumn wd) with
      | None => Throw TypeError
      | Some t =>
          if negb (is_str "uri" t) then Throw (InvalidGraphId idColumn)
          else if truthy (Obj.prop (geoColumn this) wd)
          then
            c <-! parseWikidataValue (Obj.prop (geoColumn this) wd) true ;;
            Ok (Obj.set "coordinate" c (Obj.set "id" id (Obj.delete idColumn wd)))
          else Ok (Obj.set "id" id (Obj.delete idColumn wd))
      end.
Proof. reflexivity. Qed.

End GraphQuery.

(** C7 (as the code has it).  The configured id column is the request's
    override when one is given and [id] otherwise.  When the row has no such
    column (and the name is not that of a member which every object
    inherits, such as [constructor]: the presence test is [in]), processing
    fails with MissingIdColumn, and the message carries the hint about the
    [idcolumn] argument exactly when the column name is the default, so the
    two cases have different messages.  When the presence test passes and
    the parsed value is empty, or the value is not URI-typed, processing
    fails with the invalid-id error, which names the column and is the same
    whether the name was supplied or not.  A row that is accepted has the
    column as its own, URI-typed, parsed to a non-empty id that is stored
    under [id]. *)
Theorem processResultRow_id_column
  (parseWikidataValue : jsval → bool → result jsval) (this : GeoShapes)
  (wd : obj) (customIdColumn : option string) :
  (Obj.has (effective_id_column this customIdColumn) wd = false →
   Proto.has (effective_id_column this customIdColumn) = false →
   _processResultRow parseWikidataValue this wd customIdColumn
   = Throw (MissingIdColumn (effective_id_column this customIdColumn)
              (negb (truthy_str customIdColumn))))
  ∧ message (MissingIdColumn (effective_id_column this customIdColumn) true)
    ≠ message (MissingIdColumn (effective_id_column this customIdColumn) false)
  ∧ (∀ id,
       Obj.mem (effective_id_column this customIdColumn) wd = true →
       parseWikidataValue (Obj.prop (effective_id_column this customIdColumn) wd) true
       = Ok id →
       truthy id = false
       ∨ (∃ t, member_opt "type" (Obj.prop (effective_id_column this customIdColumn) wd)
               = Some t ∧ is_str "uri" t = false) →
       _processResultRow parseWikidataValue this wd customIdColumn
       = Throw (InvalidGraphId (effective_id_column this customIdColumn)))
  ∧ (∀ row,
       _processResultRow parseWikidataValue this wd customIdColumn = Ok row →
       Obj.has (effective_id_column this customIdColumn) wd = true
       ∧ ∃ id t,
           parseWikidataValue (Obj.prop (effective_id_column this customIdColumn) wd) true
           = Ok id
           ∧ truthy id = true
           ∧ member_opt "type" (Obj.prop (effective_id_column this customIdColumn) wd)
             = Some t
           ∧ is_str "uri" t = true
           ∧ Obj.get "id" row = Some id).
Proof.
  rewrite processResultRow_unfold. cbv zeta.
  set (idColumn := effective_id_column this customIdColumn).
  split; [unfold Obj.mem; by intros -> ->|]. split; [apply message_hint_differs|]. split.
  - intros id Hhas Hparse Hbad. rewrite Hhas, Hparse. simpl.
    destruct (truthy id); simpl; [|done].
    destruct Hbad as [|(t & -> & ->)]; done.
  - intros row. destruct (Obj.mem idColumn wd); simpl; [|done].
    destruct (parseWikidataValue (Obj.prop idColumn wd) true) as [id|]; simpl; [|done].
    destruct (truthy id) eqn:Hid; simpl; [|done].
    destruct (member_opt "type" (Obj.prop idColumn wd)) as [t|] eqn:Hty; [|done].
    destruct (is_str "uri" t) eqn:Ht; simpl; [|done].
    intros Hrow. split.
    { rewrite Obj_get_has. unfold Obj.prop in Hty.
      destruct (Obj.get idColumn wd); [done|]. exfalso. simpl in Hty.
      unfold Proto.value in Hty. destruct (Proto.has idColumn); simpl in Hty; [|done].
      injection Hty as <-. done. }
    exists id, t. repeat split; try done.
    destruct (truthy (Obj.prop (geoColumn this) wd)).
    + destruct (parseWikidataValue (Obj.prop (geoColumn this) wd) true); simpl in Hrow;
        [|done].
      injection Hrow as <-. rewrite Obj_get_set_ne by done. apply Obj_get_set_eq.
    + injection Hrow as <-. apply Obj_get_set_eq.
Qed.

Lemma processResultRow_id_column_witness :
  _processResultRow Fixture.parseWikidataValue Fixture.geoshape [] None
  = Throw (MissingIdColumn "id" true)
  ∧ _processResultRow Fixture.parseWikidataValue Fixture.geoshape
      Fixture.row_literal_id (Some "id")
    = Throw (InvalidGraphId "id").
Proof.
  split.
  - apply (proj1 (processResultRow_id_column Fixture.parseWikidataValue
                    Fixture.geoshape [] None)); reflexivity.
  - apply (proj1 (proj2 (proj2 (processResultRow_id_column Fixture.parseWikidataValue
                                  Fixture.geoshape Fixture.row_literal_id (Some "id"))))
             (JStr "Q42")); [reflexivity | reflexivity |].
    right. exists (JStr "literal"). split; reflexivity.
Defined.

(** The presence test is [in]: for an id column that the row does not have
    but whose name is that of a member which every object inherits, it
    passes, and the row is refused with the invalid-id error once the value
    parser has returned. *)
Lemma processResultRow_inherited_column
  (parseWikidataValue : jsval → bool → result jsval) (this : GeoShapes)
  (wd : obj) (customIdColumn : option string) (id : jsval) :
  Obj.has (effective_id_column this customIdColumn) wd = false →
  Proto.has (effective_id_column this customIdColumn) = true →
  parseWikidataValue (JBuiltin (effective_id_column this customIdColumn)) true = Ok id →
  _processResultRow parseWikidataValue this wd customIdColumn
  = Throw (InvalidGraphId (effective_id_column this customIdColumn)).
Proof.
  intros Hown Hproto Hparse. rewrite processResultRow_unfold. cbv zeta.
  unfold Obj.mem, Obj.prop. rewrite Obj_get_has in Hown.
  destruct (Obj.get _ wd); [done|]. simpl.
  unfold Proto.value. rewrite Hproto, orb_true_r, Hparse. simpl.
  by destruct (truthy id).
Qed.

(** With [idcolumn=constructor], a row that has no such column is not
    reported as lacking it. *)
Example processResultRow_constructor_column :
  Obj.has "constructor" Fixture.row_styled = false
  ∧ _processResultRow Fixture.parseWikidataValue Fixture.geoshape Fixture.row_styled
      (Some "constructor")
    = Throw (InvalidGraphId "constructor").
Proof. split; reflexivity. Qed.

(** C7 as stated fails: the id column is present but is a literal; the error
    is the invalid-id one, not MissingIdColumn, and it is the same whether the
    column name [id] is the default or was supplied with the request. *)
Lemma processResultRow_literal_id :
  _processResultRow Fixture.parseWikidataValue Fixture.geoshape
    Fixture.row_literal_id None
  = Throw (InvalidGraphId "id")
  ∧ _processResultRow Fixture.parseWikidataValue Fixture.geoshape
      Fixture.row_literal_id (Some "id")
    = Throw (InvalidGraphId "id").
Proof. split; reflexivity. Qed.

(** C8.  With no explicit query, a point request with a non-empty id list
    contacts the graph-query endpoint with the synthesised query, which
    selects [?id] and [?geo] for the ids of the list, prefixed with [wd:] and
    in their order, through the configured coordinate predicate; for ids in
    the entity-id grammar the VALUES block splits back into exactly these ids.
    With no explicit query and no default (another kind, or no id), the
    result is the empty row list, nothing is thrown and nothing is sent. *)
Theorem runWikidataQuery_without_query
  (preq_get : GetRequest → result Response)
  (parseWikidataValue : jsval → bool → result jsval) (this : GeoShapes)
  (type : string) (query : option string) (ids : list string)
  (customIdColumn xClientIp : option string) (w : World) :
  truthy_str query = false →
  (type = "geopoint" → ids ≠ [] →
   ∃ r, _runWikidataQuery preq_get parseWikidataValue this type query ids
          customIdColumn xClientIp w
        = (r, {| config :=
                   with_sparqlHeaders
                     (Object_assign_client_ip (sparqlHeaders (config w)) xClientIp)
                     (config w);
                 calls :=
                   calls w ++
                   [HttpGet
                      {| get_uri := wikidataQueryService (config w);
                         get_query :=
                           "SELECT ?id ?geo WHERE { VALUES ?id { " ++
                           join " " (map (fun id => "wd:" ++ id) ids) ++
                           " } ?id " ++ this_coordinatePredicateId this ++ " ?geo }";
                         get_headers :=
                           Object_assign_client_ip (sparqlHeaders (config w)) xClientIp
                      |}] |}))
  ∧ (ids ≠ [] → Forall (fun id => idRegex_test id = true) ids →
     split " " (join " " (map (fun id => "wd:" ++ id) ids))
     = map (fun id => "wd:" ++ id) ids)
  ∧ (type ≠ "geopoint" ∨ ids = [] →
     _runWikidataQuery preq_get parseWikidataValue this type query ids
       customIdColumn xClientIp w
     = (Ok [], w)).
Proof.
  intros Hq. split; [|split].
  - intros -> Hids. unfold _runWikidataQuery. rewrite Hq.
    destruct ids as [|id ids]; [done|]. simpl negb. simpl andb. cbv iota.
    unfold _createPointsSparqlQuery. rewrite append_cons.
    unfold truthy_str. simpl negb. cbv iota.
    unfold bind, get_config, set_config, http_get, emit, lift, throw. simpl.
    destruct (preq_get _) as [resp|e]; [|by eexists].
    destruct (resp_headers resp !! "content-type") as [ct|]; [|by eexists].
    destruct (negb _); [by eexists|].
    destruct (member_opt "results" (resp_body resp)) as [results|]; [|by eexists].
    destruct (negb (truthy results)); [by eexists|].
    destruct (member_opt "bindings" results) as [[]|]; by eexists.
  - intros Hids Hvalid. apply split_join.
    + by destruct ids.
    + apply Forall_fmap. eapply Forall_impl; [done|].
      intros id Hid. by apply valid_id_no_space.
  - intros Hno. unfold _runWikidataQuery. rewrite Hq. simpl.
    destruct Hno as [Hty| ->].
    + destruct (String.eqb_spec type "geopoint"); [done|].
      rewrite andb_false_r. by rewrite Hq.
    + simpl. by rewrite Hq.
Qed.

Lemma runWikidataQuery_without_query_witness :
  _runWikidataQuery Fixture.preq_get Fixture.parseWikidataValue Fixture.geoshape
    "geoshape" None ["Q1"] None (Some "203.0.113.7") Fixture.world
  = (Ok [], Fixture.world)
  ∧ ∃ r, _runWikidataQuery Fixture.preq_get Fixture.parseWikidataValue Fixture.geopoint
           "geopoint" None ["Q1"; "Q2"] None (Some "203.0.113.7") Fixture.world
         = (r, {| config :=
                    with_sparqlHeaders
                      (Object_assign_client_ip (sparqlHeaders Fixture.cfg)
                         (Some "203.0.113.7"))
                      Fixture.cfg;
                  calls :=
                    [HttpGet
                       {| get_uri := wikidataQueryService Fixture.cfg;
                          get_query :=
                            "SELECT ?id ?geo WHERE { VALUES ?id { wd:Q1 wd:Q2 } ?id wdt:P625 ?geo }";
                          get_headers :=
                            Object_assign_client_ip (sparqlHeaders Fixture.cfg)
                              (Some "203.0.113.7") |}] |}).
Proof.
  split.
  - apply (proj2 (proj2 (runWikidataQuery_without_query Fixture.preq_get
                           Fixture.parseWikidataValue Fixture.geoshape
                           "geoshape" None ["Q1"] None (Some "203.0.113.7")
                           Fixture.world eq_refl))).
    left. discriminate.
  - apply (proj1 (runWikidataQuery_without_query Fixture.preq_get
                    Fixture.parseWikidataValue Fixture.geopoint
                    "geopoint" None ["Q1"; "Q2"] None (Some "203.0.113.7")
                    Fixture.world eq_refl)); [reflexivity | discriminate].
Defined.

(** ** Spatial Query Runner *)

Section SqlParams.

(** The text of an inherited member holds no digit. *)
Lemma inherited_text_no_digit (name : string) :
  Proto.has name = true → floatRegex_test (Proto.to_string name) = false.
Proof.
  unfold Proto.has. intros (n & Hin & ->%String.eqb_eq)%existsb_exists.
  simpl in Hin.
  repeat (destruct Hin as [<-|Hin]; [vm_compute; reflexivity|]). done.
Qed.

Lemma push_params_step (rawParams : ReqParams) (param : QueryParam)
  (ps : list QueryParam) (args : list jsval) :
  push_params rawParams (param :: ps) args =
  match supplied rawParams param with
  | Some value =>
      if floatRegex_test value then Throw (InvalidParam (key_of (param_name param)))
      else push_params rawParams ps (args ++ [JStr value])
  | None => push_params rawParams ps (args ++ [param_arg rawParams param])
  end.
Proof.
  simpl. unfold param_arg, inherited_param, supplied, raw_param.
  destruct (truthy_str (param_name param)); simpl; [|done].
  destruct (rawParams !! key_of (param_name param)) as [v|] eqn:E; simpl.
  - by destruct (negb (String.eqb v EmptyString)).
  - unfold Proto.value. destruct (Proto.has (key_of (param_name param))) eqn:Hp;
      simpl; [|done].
    by rewrite inherited_text_no_digit.
Qed.

(** The loop fails as soon as a supplied value matches [floatRegex], that
    is, holds a digit. *)
Lemma push_params_throw (rawParams : ReqParams) (ps : list QueryParam)
  (args : list jsval) :
  Exists (fun param => ∃ value, supplied rawParams param = Some value
                                ∧ floatRegex_test value = true) ps →
  ∃ name, push_params rawParams ps args = Throw (InvalidParam name).
Proof.
  revert args. induction ps as [|param ps IH]; intros args H;
    [by apply Exists_nil in H|].
  rewrite push_params_step.
  destruct (supplied rawParams param) as [value|] eqn:Hs.
  - destruct (floatRegex_test value) eqn:Hv; [by eexists|].
    apply Exists_cons in H as [(v & Hv' & ?)|H]; [|by apply IH].
    rewrite Hs in Hv'. injection Hv' as <-. congruence.
  - apply Exists_cons in H as [(v & Hv' & ?)|H]; [|by apply IH].
    rewrite Hs in Hv'. done.
Qed.

(** It passes every other supplied value on, numeric or not. *)
Lemma push_params_ok (rawParams : ReqParams) (ps : list QueryParam)
  (args : list jsval) :
  Forall (fun param => ∀ value, supplied rawParams param = Some value →
                                floatRegex_test value = false) ps →
  push_params rawParams ps args = Ok (args ++ map (param_arg rawParams) ps)%list.
Proof.
  revert args. induction ps as [|param ps IH]; intros args H.
  - simpl. by rewrite app_nil_r.
  - rewrite push_params_step. apply Forall_cons in H as [Hp H].
    cbn [map].
    destruct (supplied rawParams param) as [value|] eqn:Hs.
    + rewrite (Hp _ eq_refl), IH by done. unfold param_arg. rewrite Hs.
      by rewrite <-app_assoc.
    + rewrite IH by done. by rewrite <-app_assoc.
Qed.

End SqlParams.

(** C1 (the code departs from the claim).  The request supplies the numeric
    literal 0.5 for the declared parameter [arg1]: the value matches
    [floatRegex], and the runner throws InvalidParam without reaching the
    spatial store, where the claim has the value passed on.  A supplied value
    that is not numeric does not match, and is passed to the store as the
    third argument. *)
Theorem runSqlQuery_numeric_param_rejected :
  floatRegex_test "0.5" = true
  ∧ _runSqlQuery Fixture.db_query "geoshape" [JStr "Q1"] (Some "simplifyarea")
      Fixture.req_simplify_numeric Fixture.world
    = (Throw (InvalidParam "arg1"), Fixture.world)
  ∧ floatRegex_test "x) OR (true" = false
  ∧ calls (_runSqlQuery Fixture.db_query "geoshape" [JStr "Q1"] (Some "simplifyarea")
             Fixture.req_simplify_text Fixture.world).2
    = [DbQuery
         (Some "SELECT id, ST_AsGeoJSON(ST_Simplify(way, $3)) as data FROM $1~ WHERE id IN ($2:csv)")
         [JStr "wikidata_relation_polygon"; JArr [JStr "Q1"]; JStr "x) OR (true"]].
Proof. repeat split; vm_compute; reflexivity. Qed.

(** ** The shared configuration *)

(** Whenever the graph-query stage has a query to send, it writes the client
    address into [config.sparqlHeaders] before the request goes out. *)
Lemma runWikidataQuery_assigns_client_ip
  (preq_get : GetRequest → result Response)
  (parseWikidataValue : jsval → bool → result jsval) (this : GeoShapes)
  (type : string) (query : option string) (ids : list string)
  (customIdColumn xClientIp : option string) (w : World) :
  truthy_str query = true →
  config (_runWikidataQuery preq_get parseWikidataValue this type query ids
            customIdColumn xClientIp w).2
  = with_sparqlHeaders (<["X-Client-IP" := of_opt_str xClientIp]> (sparqlHeaders (config w)))
      (config w).
Proof.
  intros Hq. unfold _runWikidataQuery. rewrite Hq. simpl. rewrite Hq. simpl.
  unfold bind, get_config, set_config, http_get, emit, lift, throw. simpl.
  destruct (preq_get _) as [resp|e]; [|done].
  destruct (resp_headers resp !! "content-type") as [ct|]; [|done].
  destruct (negb _); [done|].
  destruct (member_opt "results" (resp_body resp)) as [results|]; [|done].
  destruct (negb (truthy results)); [done|].
  destruct (member_opt "bindings" results) as [[]|]; done.
Qed.

(** C2 (the code departs from the claim).  A point request for Q1 from the
    client 203.0.113.7: before [execute] the configured SPARQL headers have no
    [X-Client-IP] entry, after it they have one, holding the client's
    address. *)
Theorem execute_writes_client_ip_into_config :
  sparqlHeaders Fixture.cfg !! "X-Client-IP" = None
  ∧ sparqlHeaders
      (config
         (execute Fixture.preq_get Fixture.preq_post Fixture.db_query
            Fixture.parseWikidataValue Fixture.JSON_parse _ Fixture.topojson_topology
            Fixture.geopoint (Some "203.0.113.7") Fixture.world).2)
    !! "X-Client-IP"
    = Some (JStr "203.0.113.7").
Proof. split; vm_compute; reflexivity. Qed.

(** ** Property Sanitizer *)

Section Sanitizer.

Variable parseWikidataValue : jsval → bool → result jsval.
Variable norm : jsval → jsval.

Lemma find_snoc {A} (f : A → bool) (l : list A) (x : A) :
  List.find f (l ++ [x])
  = match List.find f l with
    | Some y => Some y
    | None => if f x then Some x else None
    end.
Proof.
  induction l as [|a l IH]; simpl; [done|]. by destruct (f a).
Qed.

(** What the [for ... in] loop leaves under each key: the normalised value
    of the last truthy column with that canonical name, or what was there
    before. *)
Lemma transform_props_spec (prop acc : obj) :
  (∀ k v, (k, v) ∈ prop → truthy v = true → parseWikidataValue v false = Ok (norm v)) →
  Obj.wf acc →
  ∃ R, transform_props parseWikidataValue prop acc = Ok R
       ∧ Obj.wf R
       ∧ ∀ key,
           Obj.get key R
           = match List.find (fun kv => String.eqb key (canonical_key kv.1))
                     (reverse (filter (fun kv => truthy kv.2 = true) prop)) with
             | Some kv => Some (norm kv.2)
             | None => Obj.get key acc
             end.
Proof.
  revert acc. induction prop as [|[k v] prop IH]; intros acc Hparse Hwf.
  - exists acc. by repeat split.
  - simpl transform_props. rewrite filter_cons. simpl.
    destruct (truthy v) eqn:Hv.
    + rewrite (Hparse k v (list_elem_of_here _ _) Hv). simpl.
      destruct (IH (Obj.set (canonical_key k) (norm v) acc)) as (R & HR & HwfR & Hget).
      { intros k' v' Hin. apply (Hparse k' v'). by apply list_elem_of_further. }
      { by apply Obj_wf_set. }
      exists R. split; [done|]. split; [done|]. intros key.
      rewrite Hget, reverse_cons, find_snoc.
      destruct (List.find _ (reverse _)); [done|]. simpl.
      destruct (String.eqb_spec key (canonical_key k)) as [->|Hne].
      * apply Obj_get_set_eq.
      * by apply Obj_get_set_ne.
    + apply IH; [|done].
      intros k' v' Hin. apply (Hparse k' v'). by apply list_elem_of_further.
Qed.

Lemma hyphenate_unhyphenate (s name : string) :
  hyphenate s = name → s ∈ unhyphenate name.
Proof.
  revert name. induction s as [|c s IH]; intros name <-; simpl.
  - apply list_elem_of_here.
  - specialize (IH _ eq_refl).
    destruct (Ascii.eqb_spec c "_") as [->|Hc]; simpl.
    + apply elem_of_app. right. apply list_elem_of_fmap. by exists s.
    + destruct (Ascii.eqb_spec c "_") as [|_]; [done|].
      destruct (Ascii.eqb_spec c "-") as [->|_].
      * apply elem_of_app. left. apply list_elem_of_fmap. by exists s.
      * apply list_elem_of_fmap. by exists s.
Qed.

(** On a column that is not named like an inherited member, the lookup in
    the table of the source is the renaming of the specification: all six
    names, and nothing else. *)
Lemma canonical_key_style_key (key : string) :
  Proto.has key = false → canonical_key key = style_key key.
Proof.
  intros Hproto. unfold style_key.
  destruct (existsb _ hyphenated_names) eqn:Hex.
  - apply existsb_exists in Hex as (name & Hin & Heq%String.eqb_eq).
    apply hyphenate_unhyphenate in Heq. clear Hproto.
    simpl in Hin.
    repeat (destruct Hin as [<-|Hin];
            [vm_compute in Heq;
             repeat (apply elem_of_cons in Heq as [->|Heq]; [reflexivity|]);
             by apply elem_of_nil in Heq|]).
    done.
  - unfold canonical_key, simpleStyleProperties. cbn [List.find fst snd].
    repeat (match goal with
            | |- context [String.eqb key ?k] =>
                destruct (String.eqb_spec key k) as [->|_];
                [vm_compute in Hex; discriminate|]
            end).
    simpl. by rewrite Hproto.
Qed.

Lemma find_ext_on {A} (f g : A → bool) (l : list A) :
  (∀ a, a ∈ l → f a = g a) → List.find f l = List.find g l.
Proof.
  induction l as [|a l IH]; intros H; simpl; [done|].
  rewrite (H a) by apply list_elem_of_here.
  destruct (g a); [done|]. apply IH. intros; apply H. by apply list_elem_of_further.
Qed.

Lemma placeholder_spec (row : obj) :
  (∀ k v, (k, v) ∈ kept_columns row → parseWikidataValue v false = Ok (norm v)) →
  (∀ k v, (k, v) ∈ kept_columns row → Proto.has k = false) →
  ∃ feature, placeholder parseWikidataValue row = Ok feature
             ∧ is_placeholder norm row feature.
Proof.
  intros Hparse Hnames. unfold placeholder.
  destruct (transform_props_spec (Obj.delete "id" row) []) as (R & -> & Hwf & Hget).
  { intros k v Hin Hv. apply (Hparse k v). unfold kept_columns.
    apply list_elem_of_filter. by split. }
  { apply NoDup_nil_2. }
  simpl. eexists. split; [done|]. exists R. split; [done|]. split; [done|].
  intros key. rewrite Hget. unfold last_column. fold (kept_columns row).
  rewrite (find_ext_on (fun kv => String.eqb key (canonical_key kv.1))
             (fun kv => String.eqb key (style_key kv.1))).
  - by destruct (List.find _ _).
  - intros [k v] Hin. rewrite elem_of_reverse in Hin. simpl.
    by rewrite (canonical_key_style_key k) by (by apply (Hnames k v)).
Qed.

Lemma rmap_Forall2 {A B} (f : A → result B) (P : A → B → Prop) (l : list A) :
  (∀ a, a ∈ l → ∃ b, f a = Ok b ∧ P a b) →
  ∃ bs, rmap f l = Ok bs ∧ Forall2 P l bs.
Proof.
  induction l as [|a l IH]; intros H; simpl.
  - exists []. by split.
  - destruct (H a) as (b & -> & Hb); [apply list_elem_of_here|].
    destruct IH as (bs & -> & Hbs).
    { intros a' Ha'. apply H. by apply list_elem_of_further. }
    simpl. exists (b :: bs). split; [done | by constructor].
Qed.

End Sanitizer.

(** C9 (the code departs from the claim).  A raw row with a column named
    [constructor]: the lookup [simpleStyleProperties[ key ]] finds the member
    that the table inherits, so the column is not sent under its own name, as
    the claim has it for a column that is no simplestyle name, but under the
    source text of the function [Object]. *)
Theorem expandProperties_renames_inherited_column :
  style_key "constructor" = "constructor"
  ∧ canonical_key "constructor" = "function Object() { [native code] }"
  ∧ calls (_expandProperties Fixture.preq_post Fixture.parseWikidataValue
             Fixture.JSON_parse [Fixture.row_constructor] Fixture.world).2
    = [HttpPost
         {| post_uri := mwapi Fixture.cfg;
            post_text :=
              JArr [JObj [ ("type", JStr "Feature");
                           ("id", JStr "Q1");
                           ("properties",
                            JObj [("function Object() { [native code] }", JStr "x")]);
                           ("geometry", point (JArr [JNum 0; JNum 0])) ]];
            post_headers := mwapiHeaders Fixture.cfg |}].
Proof. repeat split; vm_compute; reflexivity. Qed.

(** X30.  The placeholders, for rows whose kept columns are not named like
    members that every object inherits.  Provided the value parser accepts
    the values it is given ([norm] being what it returns), the sanitiser
    posts one placeholder feature per raw row, in order; its properties
    hold, under each name (a column whose name with hyphens for underscores
    is one of the six hyphenated simplestyle names goes under that name,
    every other column under its own), the normalised value of the row's
    last column sent under that name, the id column and the columns with a
    falsy value being left out.  With no raw row it returns undefined and
    sends nothing. *)
Theorem expandProperties_placeholders
  (preq_post : PostRequest → result Response)
  (parseWikidataValue : jsval → bool → result jsval)
  (JSON_parse : string → result jsval) (norm : jsval → jsval)
  (rawProperties : list obj) (w : World) :
  (∀ row k v, row ∈ rawProperties → (k, v) ∈ kept_columns row →
              parseWikidataValue v false = Ok (norm v)) →
  (∀ row k v, row ∈ rawProperties → (k, v) ∈ kept_columns row →
              Proto.has k = false) →
  (rawProperties = [] →
   _expandProperties preq_post parseWikidataValue JSON_parse rawProperties w
   = (Ok None, w))
  ∧ (rawProperties ≠ [] →
     ∃ props r,
       _expandProperties preq_post parseWikidataValue JSON_parse rawProperties w
       = (r, {| config := config w;
                calls := calls w ++
                         [HttpPost {| post_uri := mwapi (config w);
                                      post_text := JArr props;
                                      post_headers := mwapiHeaders (config w) |}] |})
       ∧ Forall2 (is_placeholder norm) rawProperties props).
Proof.
  intros Hparse Hnames. split; [by intros ->|].
  intros Hne.
  destruct (rmap_Forall2 (placeholder parseWikidataValue) (is_placeholder norm)
              rawProperties) as (props & Hprops & Hall).
  { intros row Hrow. apply (placeholder_spec _ norm).
    - intros k v. by apply Hparse.
    - intros k v. by apply Hnames. }
  exists props. unfold _expandProperties.
  unfold bind at 1. unfold lift at 1. rewrite Hprops.
  destruct props as [|feature props].
  { apply Forall2_nil_inv_r in Hall. done. }
  simpl Nat.eqb. cbv iota.
  unfold bind, get_config, http_post, emit, lift, throw, ret. simpl.
  destruct (preq_post _) as [resp|e]; [|by eexists].
  destruct (member_opt "error" (resp_body resp)) as [error|]; [|by eexists].
  destruct (member_opt "sanitize-mapdata" (resp_body resp)) as [body|]; [|by eexists].
  destruct (truthy error); [by eexists|].
  destruct (negb (truthy body)); [by eexists|].
  destruct (truthy (default JUndefined (member_opt "error" body))); [by eexists|].
  destruct (negb (truthy (default JUndefined (member_opt "sanitized" body))));
    [by eexists|].
  destruct (parse_sanitized JSON_parse _) as [[| | | | |rows| |]|]; try by eexists.
  destruct (rmap restore_id rows); by eexists.
Qed.

Lemma expandProperties_placeholders_witness :
  ∃ props r,
    _expandProperties Fixture.preq_post Fixture.parseWikidataValue Fixture.JSON_parse
      [Fixture.raw_row] Fixture.world
    = (r, {| config := Fixture.cfg;
             calls := [HttpPost {| post_uri := mwapi Fixture.cfg;
                                   post_text := JArr props;
                                   post_headers := mwapiHeaders Fixture.cfg |}] |})
    ∧ Forall2 (is_placeholder Fixture.norm) [Fixture.raw_row] props.
Proof.
  refine (proj2 (expandProperties_placeholders Fixture.preq_post
                   Fixture.parseWikidataValue Fixture.JSON_parse Fixture.norm
                   [Fixture.raw_row] Fixture.world _ _) _); [| |done].
  - intros row k v ->%list_elem_of_singleton Hin.
    vm_compute in Hin.
    repeat (apply elem_of_cons in Hin as [[= -> ->]|Hin]; [reflexivity|]).
    by apply elem_of_nil in Hin.
  - intros row k v ->%list_elem_of_singleton Hin.
    vm_compute in Hin.
    repeat (apply elem_of_cons in Hin as [[= -> ->]|Hin]; [reflexivity|]).
    by apply elem_of_nil in Hin.
Defined.

(** ** Result Assembler *)

Section Assembler.

Variable JSON_parse : string → result jsval.
Variable geometry : GeometryRow → jsval.

Lemma is_str_prop_deleted (id : string) (props : obj) :
  is_str id (Obj.prop "id" (Obj.delete "id" props)) = false.
Proof. by rewrite Obj_prop_delete_eq. Qed.

Lemma find_slot_nth (id : string) (store : list obj) :
  find_slot id store = nth_slot id 0 store.
Proof.
  induction store as [|props store IH]; simpl; [done|].
  destruct (is_str id (Obj.prop "id" props)); [done | by rewrite IH].
Qed.

Lemma find_slot_lt (id : string) (store : list obj) (i : nat) :
  find_slot id store = Some i →
  ∃ props, store !! i = Some props ∧ is_str id (Obj.prop "id" props) = true.
Proof.
  revert i. induction store as [|props store IH]; intros i; simpl; [done|].
  destruct (is_str id (Obj.prop "id" props)) eqn:E.
  - intros [= <-]. eauto.
  - destruct (find_slot id store) as [j|]; simpl; [|done].
    intros [= <-]. by apply IH.
Qed.

Lemma is_str_inj (id id' : string) (v : jsval) :
  is_str id v = true → is_str id' v = true → id = id'.
Proof.
  destruct v; simpl; try done.
  intros ->%String.eqb_eq ->%String.eqb_eq. done.
Qed.

(** Once the first row with id [id] has lost its id, the row that was number
    [n + 1] for [id] is number [n]. *)
Lemma nth_slot_alter_same (id : string) (n i : nat) (store : list obj) :
  find_slot id store = Some i →
  nth_slot id n (alter (Obj.delete "id") i store) = nth_slot id (S n) store.
Proof.
  revert i. induction store as [|props store IH]; intros i; [done|].
  simpl find_slot. destruct (is_str id (Obj.prop "id" props)) eqn:E.
  - intros [= <-]. simpl. by rewrite is_str_prop_deleted, E.
  - destruct (find_slot id store) as [j|] eqn:Hj; simpl; [|done].
    intros [= <-]. simpl. rewrite E. f_equal. exact (IH j eq_refl).
Qed.

(** The rows with another id keep their numbers. *)
Lemma nth_slot_alter_other (id id' : string) (n i : nat) (store : list obj) :
  find_slot id store = Some i → id' ≠ id →
  nth_slot id' n (alter (Obj.delete "id") i store) = nth_slot id' n store.
Proof.
  intros Hi Hne. revert i n Hi.
  induction store as [|props store IH]; intros i n; [done|].
  simpl find_slot. destruct (is_str id (Obj.prop "id" props)) eqn:E.
  - intros [= <-]. simpl. rewrite is_str_prop_deleted.
    destruct (is_str id' (Obj.prop "id" props)) eqn:E'; [|done].
    destruct Hne. eapply is_str_inj; eauto.
  - destruct (find_slot id store) as [j|] eqn:Hj; simpl; [|done].
    intros [= <-]. simpl.
    destruct (is_str id' (Obj.prop "id" props)); [destruct n|];
      try done; f_equal; exact (IH j _ eq_refl).
Qed.

Lemma nth_slot_none (id : string) (n : nat) (store : list obj) :
  find_slot id store = None → nth_slot id n store = None.
Proof.
  revert n. induction store as [|props store IH]; intros n; simpl; [done|].
  destruct (is_str id (Obj.prop "id" props)); [done|].
  destruct (find_slot id store); simpl; [done|]. intros _. by rewrite IH.
Qed.

(** [nth_slot] numbers the rows of [rows_with_id]. *)
Lemma nth_slot_rows_with_id (id : string) (n : nat) (store : list obj) :
  rows_with_id id store !! n = nth_slot id n store ≫= (store !!.).
Proof.
  revert n. induction store as [|props store IH]; intros n; [done|].
  unfold rows_with_id in *. rewrite filter_cons. simpl.
  destruct (is_str id (Obj.prop "id" props)) eqn:E; simpl.
  - destruct n as [|n]; simpl; [done|]. rewrite IH.
    by destruct (nth_slot id n store).
  - rewrite IH. by destruct (nth_slot id n store).
Qed.

Lemma same_or_id_deleted_refl (l : list obj) : Forall2 same_or_id_deleted l l.
Proof. apply Forall_Forall2_diag, Forall_forall. intros; by left. Qed.

Lemma same_or_id_deleted_alter (i : nat) (l : list obj) :
  Forall2 same_or_id_deleted l (alter (Obj.delete "id") i l).
Proof.
  revert i. induction l as [|x l IH]; intros [|i]; simpl; constructor;
    try apply same_or_id_deleted_refl; try apply IH; by (left + right).
Qed.

Lemma same_or_id_deleted_trans (l1 l2 l3 : list obj) :
  Forall2 same_or_id_deleted l1 l2 → Forall2 same_or_id_deleted l2 l3 →
  Forall2 same_or_id_deleted l1 l3.
Proof.
  intros H12. revert l3. induction H12 as [|a b l1 l2 Hab _ IH]; intros l3 H23.
  - by apply Forall2_nil_inv_l in H23 as ->.
  - apply Forall2_cons_inv_l in H23 as (c & l3' & Hbc & H23 & ->).
    constructor; [|by apply IH].
    destruct Hab as [->| ->], Hbc as [->| ->]; try by (left + right).
    right. by rewrite Obj_delete_idemp.
Qed.

(** A row that has lost its id stays that way. *)
Lemma same_or_id_deleted_lookup (l l' : list obj) (i : nat) (p : obj) :
  Forall2 same_or_id_deleted l l' →
  l !! i = Some (Obj.delete "id" p) → l' !! i = Some (Obj.delete "id" p).
Proof.
  intros H Hi. destruct (Forall2_lookup_l _ _ _ _ _ H Hi) as (q & -> & [->| ->]);
    [done | by rewrite Obj_delete_idemp].
Qed.

Lemma earlier_with_id_0 (id : string) (rows : list GeometryRow) :
  earlier_with_id id 0 rows = 0.
Proof. unfold earlier_with_id. by rewrite take_0. Qed.

Lemma earlier_with_id_S (id : string) (k : nat) (row : GeometryRow)
  (rows : list GeometryRow) :
  earlier_with_id id (S k) (row :: rows)
  = if decide (row_id row = id) then S (earlier_with_id id k rows)
    else earlier_with_id id k rows.
Proof.
  unfold earlier_with_id. rewrite firstn_cons, filter_cons.
  by destruct (decide (row_id row = id)).
Qed.

Lemma shape_ref_cons_some (row row' : GeometryRow) (rows : list GeometryRow)
  (store : list obj) (i k : nat) :
  find_slot (row_id row) store = Some i →
  shape_ref geometry (row :: rows) store (S k) row'
  = shape_ref geometry rows (alter (Obj.delete "id") i store) k row'.
Proof.
  intros Hi. unfold shape_ref. rewrite earlier_with_id_S.
  destruct (decide (row_id row = row_id row')) as [Hid|Hne].
  - rewrite <-Hid. by rewrite (nth_slot_alter_same _ _ i).
  - by rewrite (nth_slot_alter_other (row_id row) _ _ i).
Qed.

Lemma shape_ref_cons_none (row row' : GeometryRow) (rows : list GeometryRow)
  (store : list obj) (k : nat) :
  find_slot (row_id row) store = None →
  shape_ref geometry (row :: rows) store (S k) row'
  = shape_ref geometry rows store k row'.
Proof.
  intros Hi. unfold shape_ref. rewrite earlier_with_id_S.
  destruct (decide (row_id row = row_id row')) as [Hid|Hne]; [|done].
  rewrite <-Hid. by rewrite !nth_slot_none.
Qed.

(** The loop over the geometry rows: row number [k] takes the clean
    property row that is number [earlier_with_id] for its id, and that row
    ends up in the store without its id. *)
Lemma shape_features_slots (rows : list GeometryRow) (store : list obj) :
  (∀ row, row ∈ rows → JSON_parse (row_data row) = Ok (geometry row)) →
  ∃ frs store',
    shape_features JSON_parse rows (Some store) = Ok (frs, Some store')
    ∧ Forall2 same_or_id_deleted store store'
    ∧ frs = imap (shape_ref geometry rows store) rows
    ∧ ∀ k row i p,
        rows !! k = Some row →
        nth_slot (row_id row) (earlier_with_id (row_id row) k rows) store = Some i →
        store !! i = Some p →
        store' !! i = Some (Obj.delete "id" p).
Proof.
  revert store. induction rows as [|row rows IH]; intros store Hparse.
  - exists [], store. simpl. split; [done|]. split; [apply same_or_id_deleted_refl|].
    split; [done|]. intros k row i p Hk. done.
  - simpl shape_features. unfold shape_feature.
    rewrite (Hparse row) by apply list_elem_of_here. simpl rbind.
    assert (∀ row', row' ∈ rows → JSON_parse (row_data row') = Ok (geometry row'))
      as Hparse' by (intros; apply Hparse; by apply list_elem_of_further).
    destruct (find_slot (row_id row) store) as [i|] eqn:Hi.
    + destruct (IH (alter (Obj.delete "id") i store) Hparse')
        as (frs & store' & Heq & Hev & -> & Hfinal).
      simpl. rewrite Heq. simpl. eexists _, store'. split; [done|].
      split; [eapply same_or_id_deleted_trans;
              [apply same_or_id_deleted_alter | done]|].
      split.
      * f_equal.
        -- unfold shape_ref. rewrite earlier_with_id_0, <-find_slot_nth, Hi. done.
        -- apply imap_ext. intros k row' _. simpl.
           by rewrite (shape_ref_cons_some _ _ _ _ i).
      * intros [|k] row' j p Hk Hj Hp.
        -- injection Hk as <-. rewrite earlier_with_id_0, <-find_slot_nth, Hi in Hj.
           injection Hj as <-.
           eapply same_or_id_deleted_lookup; [done|].
           by rewrite list_lookup_alter_eq, Hp.
        -- simpl in Hk. rewrite earlier_with_id_S in Hj.
           assert (nth_slot (row_id row')
                     (earlier_with_id (row_id row') k rows)
                     (alter (Obj.delete "id") i store) = Some j) as Hj'.
           { destruct (decide (row_id row = row_id row')) as [Hid|Hne].
             - rewrite <-Hid in *. by rewrite (nth_slot_alter_same _ _ i).
             - by rewrite (nth_slot_alter_other (row_id row) _ _ i). }
           destruct (decide (j = i)) as [->|Hji].
           ++ rewrite <-(Obj_delete_idemp "id" p).
              eapply Hfinal; [done | done |].
              by rewrite list_lookup_alter_eq, Hp.
           ++ eapply Hfinal; [done | done |].
              by rewrite list_lookup_alter_ne.
    + destruct (IH store Hparse') as (frs & store' & Heq & Hev & -> & Hfinal).
      simpl. rewrite Heq. simpl. eexists _, store'. split; [done|]. split; [done|].
      split.
      * f_equal.
        -- unfold shape_ref. rewrite earlier_with_id_0, <-find_slot_nth, Hi. done.
        -- apply imap_ext. intros k row' _. simpl.
           by rewrite shape_ref_cons_none.
      * intros [|k] row' j p Hk Hj Hp.
        -- injection Hk as <-. rewrite earlier_with_id_0, <-find_slot_nth, Hi in Hj.
           done.
        -- simpl in Hk. rewrite earlier_with_id_S in Hj.
           destruct (decide (row_id row = row_id row')) as [Hid|Hne].
           ++ rewrite <-Hid in Hj. by rewrite nth_slot_none in Hj.
           ++ by eapply Hfinal.
Qed.

(** Without clean property rows every feature gets a fresh empty object. *)
Lemma shape_features_none (rows : list GeometryRow) :
  (∀ row, row ∈ rows → JSON_parse (row_data row) = Ok (geometry row)) →
  shape_features JSON_parse rows None
  = Ok ((fun row => {| fr_id := JStr (row_id row);
                       fr_properties := Fresh;
                       fr_geometry := geometry row |}) <$> rows, None).
Proof.
  induction rows as [|row rows IH]; intros Hparse; [done|].
  simpl shape_features. unfold shape_feature.
  rewrite (Hparse row) by apply list_elem_of_here. simpl rbind.
  rewrite IH; [done|]. intros; apply Hparse; by apply list_elem_of_further.
Qed.

Lemma nth_slot_lt (id : string) (n i : nat) (store : list obj) :
  nth_slot id n store = Some i → is_Some (store !! i).
Proof.
  revert n i. induction store as [|props store IH]; intros n i; simpl; [done|].
  destruct (is_str id (Obj.prop "id" props)); [destruct n as [|n]|].
  - intros [= <-]. eauto.
  - destruct (nth_slot id n store) as [j|] eqn:Hj; simpl; [|done].
    intros [= <-]. by eapply IH.
  - destruct (nth_slot id n store) as [j|] eqn:Hj; simpl; [|done].
    intros [= <-]. by eapply IH.
Qed.

(** Read when the loop is over, the feature of row [k] has the properties
    of [join_in_turn]. *)
Lemma resolve_shape_ref (rows : list GeometryRow) (store store' : list obj)
  (k : nat) (row : GeometryRow) :
  (∀ i p,
     nth_slot (row_id row) (earlier_with_id (row_id row) k rows) store = Some i →
     store !! i = Some p → store' !! i = Some (Obj.delete "id" p)) →
  resolve store' (shape_ref geometry rows store k row)
  = join_in_turn geometry store rows k row.
Proof.
  intros Hfinal. unfold resolve, shape_ref, join_in_turn. simpl. f_equal.
  rewrite nth_slot_rows_with_id.
  destruct (nth_slot _ _ store) as [i|] eqn:Hi; simpl; [|done].
  destruct (nth_slot_lt _ _ _ _ Hi) as [p Hp]. rewrite Hp.
  by rewrite (Hfinal i p eq_refl Hp).
Qed.

Variable this : GeoShapes.

Lemma point_features_spec (pre mid post : list obj) :
  point_features this (seq (length pre) (length mid)) (pre ++ mid ++ post)%list
  = (imap (fun j value =>
             {| fr_id := Obj.prop "id" value;
                fr_properties := Slot (length pre + j);
                fr_geometry := point (point_coordinates this value) |}) mid,
     (pre ++ (point_cleaned this <$> mid) ++ post)%list).
Proof.
  revert pre. induction mid as [|value mid IH]; intros pre; [done|].
  simpl length. simpl seq. simpl point_features. unfold point_feature.
  rewrite list_lookup_middle by done. simpl default.
  replace (<[length pre := _]> (pre ++ (value :: mid) ++ post)%list)
    with ((pre ++ [point_cleaned this value]) ++ mid ++ post)%list.
  2:{ rewrite insert_app_r_alt by done. rewrite Nat.sub_diag. simpl.
      by rewrite <-app_assoc. }
  replace (S (length pre)) with (length (pre ++ [point_cleaned this value])%list)
    by (rewrite length_app; simpl; lia).
  rewrite IH. f_equal.
  - simpl. f_equal; [by rewrite Nat.add_0_r|].
    apply imap_ext. intros j v _. simpl. do 2 f_equal.
    rewrite length_app. simpl. lia.
  - by rewrite <-app_assoc.
Qed.

(** Point assembly: one feature per clean property row, in order. *)
Lemma assemble_points (rows : list GeometryRow) (props : list obj) :
  assemble JSON_parse this "geopoint" rows (Some props)
  = Ok ((fun value =>
           {| f_id := Obj.prop "id" value;
              f_properties := point_cleaned this value;
              f_geometry := point (point_coordinates this value) |}) <$> props,
        Some (point_cleaned this <$> props)).
Proof.
  unfold assemble. simpl String.eqb. cbv iota.
  pose proof (point_features_spec [] props []) as H.
  simpl in H. rewrite !app_nil_r in H. rewrite H. do 2 f_equal.
  apply list_eq. intros i.
  rewrite !list_lookup_fmap, list_lookup_imap.
  destruct (props !! i) as [value|] eqn:Hi; simpl; [|done].
  unfold resolve. simpl. by rewrite list_lookup_fmap, Hi.
Qed.

(** Line and polygon assembly with clean property rows. *)
Lemma assemble_shapes (type : string) (rows : list GeometryRow) (props : list obj) :
  type ≠ "geopoint" →
  (∀ row, row ∈ rows → JSON_parse (row_data row) = Ok (geometry row)) →
  ∃ store,
    shape_features JSON_parse rows (Some props)
    = Ok (imap (shape_ref geometry rows props) rows, Some store)
    ∧ assemble JSON_parse this type rows (Some props)
      = Ok (imap (join_in_turn geometry props rows) rows, Some store)
    ∧ Forall2 same_or_id_deleted props store
    ∧ ∀ k row i p,
        rows !! k = Some row →
        nth_slot (row_id row) (earlier_with_id (row_id row) k rows) props = Some i →
        props !! i = Some p →
        store !! i = Some (Obj.delete "id" p).
Proof.
  intros Hty Hparse.
  destruct (shape_features_slots rows props Hparse)
    as (frs & store & Heq & Hev & -> & Hfinal).
  exists store. split; [done|]. split; [|by split].
  unfold assemble. destruct (String.eqb_spec type "geopoint"); [done|].
  rewrite Heq. simpl. do 2 f_equal.
  apply list_eq. intros k.
  rewrite list_lookup_fmap, !list_lookup_imap.
  destruct (rows !! k) as [row|] eqn:Hk; simpl; [|done].
  f_equal. apply resolve_shape_ref. intros i p. by apply Hfinal.
Qed.

(** Line and polygon assembly without clean property rows. *)
Lemma assemble_shapes_none (type : string) (rows : list GeometryRow) :
  (∀ row, row ∈ rows → JSON_parse (row_data row) = Ok (geometry row)) →
  assemble JSON_parse this type rows None
  = Ok ((fun row => {| f_id := JStr (row_id row);
                       f_properties := [];
                       f_geometry := geometry row |}) <$> rows, None).
Proof.
  intros Hparse. unfold assemble.
  rewrite (shape_features_none rows Hparse).
  destruct (String.eqb type "geopoint"); simpl; by rewrite <-list_fmap_compose.
Qed.

End Assembler.

Section AssemblerClaims.

Variable JSON_parse : string → result jsval.
Variable geometry : GeometryRow → jsval.

Lemma earlier_with_id_NoDup (rows : list GeometryRow) (k : nat) (row : GeometryRow) :
  NoDup (row_id <$> rows) → rows !! k = Some row →
  earlier_with_id (row_id row) k rows = 0.
Proof.
  intros Hnd Hk. unfold earlier_with_id.
  destruct (filter _ (take k rows)) as [|row' l] eqn:Hf; [done|]. exfalso.
  assert (row' ∈ filter (fun row0 => row_id row0 = row_id row) (take k rows))
    as [Hid Hin]%list_elem_of_filter by (rewrite Hf; apply list_elem_of_here).
  apply list_elem_of_lookup in Hin as [j Hj].
  apply lookup_take_Some in Hj as [Hj Hlt].
  assert (j = k); [|lia].
  eapply NoDup_lookup; [done| |].
  - by rewrite list_lookup_fmap, Hj.
  - by rewrite list_lookup_fmap, Hk, Hid.
Qed.

Lemma join_in_turn_first (props : list obj) (rows : list GeometryRow)
  (k : nat) (row : GeometryRow) :
  earlier_with_id (row_id row) k rows = 0 →
  join_in_turn geometry props rows k row = join_by_id geometry props row.
Proof.
  intros H. unfold join_in_turn, join_by_id. rewrite H.
  by destruct (rows_with_id (row_id row) props).
Qed.

Lemma point_of_row_spec (this : GeoShapes) (value : obj) :
  geoColumn this = "geo" →
  idColumn (parsed this) ≠ Some "geo" →
  (idColumn (parsed this) = None → Obj.has "undefined" value = false) →
  {| f_id := Obj.prop "id" value;
     f_properties := point_cleaned this value;
     f_geometry := point (point_coordinates this value) |}
  = point_of_row (idColumn (parsed this)) value.
Proof.
  intros Hgeo Hcol Hundef. unfold point_of_row, point_cleaned, point_coordinates.
  rewrite Hgeo. destruct (idColumn (parsed this)) as [column|]; simpl.
  - rewrite !Obj_prop_delete_ne; [done | congruence | done].
  - rewrite (Obj_delete_absent "undefined") by auto.
    by rewrite Obj_prop_delete_ne.
Qed.

End AssemblerClaims.

(** X29.  Result assembly where the geometry rows have pairwise distinct
    ids.  For an instance built by the constructor:
    - point kind: the spatial query returns no row; with no clean property
      rows and no geometry rows the feature list is empty; otherwise every
      clean property row yields one feature, in order, whose geometry is the
      Point of the row's [geo] column and whose properties are the other
      columns without [id], without the id column named in the request and
      without [geo] (the id-column override is taken not to be [geo], and
      with no override the rows are taken to have no column called
      [undefined]);
    - line and polygon kind, for geometry rows with pairwise distinct ids
      whose data parse: every geometry row yields one feature, in order, with
      the parsed geometry and, as properties, the first clean property row
      with its id, minus the id, or nothing when there is none. *)
Theorem assemble_features
  (JSON_parse : string → result jsval) (geometry : GeometryRow → jsval)
  (ty : string) (req : ReqParams) (cfg : Config) (this : GeoShapes)
  (rows : list GeometryRow) (properties : option (list obj)) :
  constructor ty req cfg = Ok this →
  (type this = "geopoint" →
   (∀ db_query allIds w,
      _runSqlQuery db_query (type this) allIds (queryName (parsed this))
        (reqParams this) w = (Ok [], w))
   ∧ assemble JSON_parse this (type this) [] None = Ok ([], None)
   ∧ ∀ props,
       idColumn (parsed this) ≠ Some "geo" →
       (idColumn (parsed this) = None →
        Forall (fun value => Obj.has "undefined" value = false) props) →
       ∃ store,
         assemble JSON_parse this (type this) rows (Some props)
         = Ok (point_of_row (idColumn (parsed this)) <$> props, store))
  ∧ (type this ≠ "geopoint" →
     NoDup (row_id <$> rows) →
     (∀ row, row ∈ rows → JSON_parse (row_data row) = Ok (geometry row)) →
     ∃ store,
       assemble JSON_parse this (type this) rows properties
       = Ok (join_by_id geometry (default [] properties) <$> rows, store)).
Proof.
  intros (_ & _ & Hgeo & _)%constructor_fields. split.
  - intros ->. split; [|split].
    + intros db_query allIds w. unfold _runSqlQuery. simpl String.eqb.
      by rewrite orb_true_r.
    + done.
    + intros props Hcol Hundef. eexists. rewrite assemble_points. do 2 f_equal.
      apply list_fmap_ext. intros i value Hi. apply point_of_row_spec; try done.
      intros Hnone. specialize (Hundef Hnone).
      eapply Forall_forall in Hundef; [done|]. by eapply list_elem_of_lookup_2.
  - intros Hty Hnd Hparse. destruct properties as [props|].
    + destruct (assemble_shapes JSON_parse geometry this (type this) rows props Hty Hparse)
        as (store & _ & -> & _).
      eexists. do 2 f_equal. apply list_eq. intros k.
      rewrite list_lookup_imap, list_lookup_fmap.
      destruct (rows !! k) as [row|] eqn:Hk; simpl; [|done].
      f_equal. apply join_in_turn_first. by apply earlier_with_id_NoDup.
    + rewrite (assemble_shapes_none JSON_parse geometry this _ rows Hparse).
      eexists. do 2 f_equal.
  Qed.

Lemma assemble_features_witness :
  (∃ store,
     assemble Fixture.JSON_parse Fixture.geopoint "geopoint" []
       (Some [Fixture.clean_point])
     = Ok (point_of_row None <$> [Fixture.clean_point], store))
  ∧ (∃ store,
       assemble Fixture.JSON_parse Fixture.geoshape "geoshape"
         [Fixture.row_q1; Fixture.row_q2] (Some [Fixture.clean_a])
       = Ok (join_by_id Fixture.geometry_of [Fixture.clean_a]
               <$> [Fixture.row_q1; Fixture.row_q2], store)).
Proof.
  split.
  - refine (proj2 (proj2 (proj1 (assemble_features Fixture.JSON_parse
              Fixture.geometry_of "geopoint" Fixture.req_q1 Fixture.cfg
              Fixture.geopoint [] None _) _)) [Fixture.clean_point] _ _).
    + reflexivity.
    + reflexivity.
    + discriminate.
    + intros _. repeat constructor.
  - refine (proj2 (assemble_features Fixture.JSON_parse
              Fixture.geometry_of "geoshape" Fixture.req_q1 Fixture.cfg
              Fixture.geoshape [Fixture.row_q1; Fixture.row_q2]
              (Some [Fixture.clean_a]) _) _ _ _).
    + reflexivity.
    + discriminate.
    + repeat constructor; set_solver.
    + intros row Hrow.
      repeat (apply elem_of_cons in Hrow as [->|Hrow]; [reflexivity|]).
      by apply elem_of_nil in Hrow.
Defined.

(** C3 (the code departs from the claim).  Two geometry rows carry the id Q1
    and one clean property row has it.  The first clean property row with
    that id, minus the id, is [{ name: a }], and the claim gives it to both
    features; but the loop deletes the id from the very object it has just
    matched, so the lookup for the second row finds nothing and the second
    feature has no properties. *)
Theorem assemble_duplicate_geometry_ids :
  assemble Fixture.JSON_parse Fixture.geoshape "geoshape"
    [Fixture.row_q1; Fixture.row_q1] (Some [Fixture.clean_a])
  = Ok ([ {| f_id := JStr "Q1";
             f_properties := [("name", JStr "a")];
             f_geometry := Fixture.polygon |};
          {| f_id := JStr "Q1";
             f_properties := [];
             f_geometry := Fixture.polygon |} ],
        Some [[("name", JStr "a")]])
  ∧ f_properties (join_by_id Fixture.geometry_of [Fixture.clean_a] Fixture.row_q1)
    = [("name", JStr "a")].
Proof. split; reflexivity. Qed.

Section SharedProperties.

Lemma nth_slot_match (id : string) (n i : nat) (store : list obj) (p : obj) :
  nth_slot id n store = Some i → store !! i = Some p →
  is_str id (Obj.prop "id" p) = true.
Proof.
  revert n i. induction store as [|props store IH]; intros n i; simpl; [done|].
  destruct (is_str id (Obj.prop "id" props)) eqn:E; [destruct n as [|n]|].
  - intros [= <-] [= <-]. done.
  - destruct (nth_slot id n store) as [j|] eqn:Hj; simpl; [|done].
    intros [= <-]. simpl. by eapply IH.
  - destruct (nth_slot id n store) as [j|] eqn:Hj; simpl; [|done].
    intros [= <-]. simpl. by eapply IH.
Qed.

Lemma earlier_with_id_pos (rows : list GeometryRow) (j k : nat) (row : GeometryRow) :
  (j < k)%nat → rows !! j = Some row →
  (0 < earlier_with_id (row_id row) k rows)%nat.
Proof.
  intros Hjk Hj. unfold earlier_with_id.
  assert (row ∈ filter (fun row0 => row_id row0 = row_id row) (take k rows)) as Hin.
  { apply list_elem_of_filter. split; [done|].
    apply list_elem_of_lookup. exists j. by apply lookup_take_Some. }
  destruct (filter _ _); [by apply elem_of_nil in Hin | simpl; lia].
Qed.

End SharedProperties.

(** C10 (as the code has it).  For lines and polygons whose geometry data
    parse, the loop hands geometry row number [k] the clean property row that
    is number [earlier_with_id] among those with its id: the feature's
    properties object is the object in that slot of the properties array,
    which leaves the loop without its id, every other slot being as it was or
    without its id; so a clean property row serves one geometry row.  Of two
    geometry rows with the same id, the later one has empty properties when
    at most one clean property row has that id. *)
Theorem shape_properties_shared
  (JSON_parse : string → result jsval) (geometry : GeometryRow → jsval)
  (this : GeoShapes) (type : string) (rows : list GeometryRow) (props : list obj) :
  type ≠ "geopoint" →
  (∀ row, row ∈ rows → JSON_parse (row_data row) = Ok (geometry row)) →
  ∃ store,
    shape_features JSON_parse rows (Some props)
    = Ok (imap (shape_ref geometry rows props) rows, Some store)
    ∧ assemble JSON_parse this type rows (Some props)
      = Ok (imap (join_in_turn geometry props rows) rows, Some store)
    ∧ Forall2 same_or_id_deleted props store
    ∧ (∀ k row i p,
         rows !! k = Some row →
         nth_slot (row_id row) (earlier_with_id (row_id row) k rows) props = Some i →
         props !! i = Some p →
         is_str (row_id row) (Obj.prop "id" p) = true
         ∧ fr_properties (shape_ref geometry rows props k row) = Slot i
         ∧ store !! i = Some (Obj.delete "id" p)
         ∧ f_properties (join_in_turn geometry props rows k row) = Obj.delete "id" p)
    ∧ (∀ j k row row',
         (j < k)%nat → rows !! j = Some row → rows !! k = Some row' →
         row_id row' = row_id row →
         (length (rows_with_id (row_id row) props) ≤ 1)%nat →
         f_properties (join_in_turn geometry props rows k row') = []).
Proof.
  intros Hty Hparse.
  destruct (assemble_shapes JSON_parse geometry this type rows props Hty Hparse)
    as (store & Hrefs & Hasm & Hev & Hfinal).
  exists store. split; [done|]. split; [done|]. split; [done|]. split.
  - intros k row i p Hk Hi Hp. split; [by eapply nth_slot_match|]. split.
    + unfold shape_ref. simpl. by rewrite Hi.
    + split; [by eapply Hfinal|]. unfold join_in_turn. simpl.
      rewrite nth_slot_rows_with_id, Hi. simpl. by rewrite Hp.
  - intros j k row row' Hjk Hj Hk Hid Hlen. unfold join_in_turn. simpl.
    rewrite Hid. rewrite lookup_ge_None_2; [done|].
    pose proof (earlier_with_id_pos rows j k row Hjk Hj). lia.
Qed.

Lemma shape_properties_shared_witness :
  ∃ store,
    assemble Fixture.JSON_parse Fixture.geoshape "geoshape"
      [Fixture.row_q1; Fixture.row_q1] (Some [Fixture.clean_a; Fixture.clean_b])
    = Ok (imap (join_in_turn Fixture.geometry_of [Fixture.clean_a; Fixture.clean_b]
                  [Fixture.row_q1; Fixture.row_q1])
            [Fixture.row_q1; Fixture.row_q1], Some store).
Proof.
  destruct (shape_properties_shared Fixture.JSON_parse Fixture.geometry_of
              Fixture.geoshape "geoshape" [Fixture.row_q1; Fixture.row_q1]
              [Fixture.clean_a; Fixture.clean_b]) as (store & _ & H & _).
  - discriminate.
  - intros row Hrow.
    repeat (apply elem_of_cons in Hrow as [->|Hrow]; [reflexivity|]).
    by apply elem_of_nil in Hrow.
  - by exists store.
Defined.

(** C10 as stated fails: two geometry rows carry the id Q1 and so do two
    clean property rows; the later feature is not left without properties, it
    gets the second clean property row. *)
Lemma shape_second_match :
  assemble Fixture.JSON_parse Fixture.geoshape "geoshape"
    [Fixture.row_q1; Fixture.row_q1] (Some [Fixture.clean_a; Fixture.clean_b])
  = Ok ([ {| f_id := JStr "Q1";
             f_properties := [("name", JStr "a")];
             f_geometry := Fixture.polygon |};
          {| f_id := JStr "Q1";
             f_properties := [("name", JStr "b")];
             f_geometry := Fixture.polygon |} ],
        Some [[("name", JStr "a")]; [("name", JStr "b")]]).
Proof. reflexivity. Qed.

(** ** Format Encoder *)



(** With topology output, a point feature that has no coordinates (a clean
    property row without the coordinate column) is refused by the sample
    encoder, and [_wrapResult] fails with the encoder's error; with flat
    output the same feature is returned. *)
Example wrapResult_point_without_coordinates :
  _wrapResult Fixture.JSON_parse _ Fixture.topojson_topology Fixture.geopoint
    "geopoint" [] (Some [Fixture.clean_a]) false
  = Throw TypeError
  ∧ _wrapResult Fixture.JSON_parse _ Fixture.topojson_topology Fixture.geopoint
      "geopoint" [] (Some [Fixture.clean_a]) true
    = Ok (FeatureCollection
            [ {| f_id := JStr "Q1";
                 f_properties := [("name", JStr "a")];
                 f_geometry := point JUndefined |} ],
          Some [[("name", JStr "a")]]).
Proof. split; reflexivity. Qed.

(** ** The examples of the specification *)

(** One clean property row [{ id: Q1, geo: [1, 2], name: x }] gives the point
    feature with id Q1, coordinates [1, 2] and properties [{ name: x }]. *)
Example point_assembly :
  assemble Fixture.JSON_parse Fixture.geopoint "geopoint" [] (Some [Fixture.clean_point])
  = Ok ([ {| f_id := JStr "Q1";
             f_properties := [("name", JStr "x")];
             f_geometry := point (JArr [JNum 1; JNum 2]) |} ],
        Some [[("name", JStr "x")]]).
Proof. reflexivity. Qed.

(** One geometry row for Q2 and no clean property row with that id give a
    feature with the parsed geometry and empty properties. *)
Example polygon_assembly :
  assemble Fixture.JSON_parse Fixture.geoshape "geoshape" [Fixture.row_q2]
    (Some [Fixture.clean_a])
  = Ok ([ {| f_id := JStr "Q2";
             f_properties := [];
             f_geometry := Fixture.polygon |} ],
        Some [Fixture.clean_a]).
Proof. reflexivity. Qed.

(** The raw column [marker_color] reaches the sanitiser as [marker-color],
    and the empty [note] column does not reach it. *)
Example placeholder_remap :
  placeholder Fixture.parseWikidataValue Fixture.raw_row
  = Ok (JObj [ ("type", JStr "Feature");
               ("id", JStr "Q1");
               ("properties", JObj [ ("marker-color", JStr "f00");
                                     ("title", JStr "Universe") ]);
               ("geometry", point (JArr [JNum 0; JNum 0])) ]).
Proof. reflexivity. Qed.


(** * Further properties of the code *)

(** ** The two patterns *)

(** X1.  The pattern of [_parseParams] accepts exactly the letter Q followed
    by one to sixteen decimal digits, the first of which is not 0. *)
Theorem entity_id_shape (s : string) :
  idRegex_test s = true ↔
  ∃ digits,
    s = String "Q" digits
    ∧ (1 ≤ length (chars digits) ≤ 16)%nat
    ∧ forallb is_digit (chars digits) = true
    ∧ head (chars digits) ≠ Some "0"%char.
Proof.
  rewrite idRegex_test_spec. split.
  - intros (d & rest & -> & Hd & Hr & Hlen). exists (String d rest).
    split; [done|]. simpl. split; [lia|]. split.
    + rewrite Hr, andb_true_r. unfold is_digit, Regex.in_range in *.
      apply andb_true_iff in Hd as [H1 H2]. apply andb_true_iff. split; [|done].
      apply Nat.leb_le. apply Nat.leb_le in H1.
      assert (nat_of_ascii "0" = 48%nat) as E0 by reflexivity.
      assert (nat_of_ascii "1" = 49%nat) as E1 by reflexivity.
      rewrite E0. rewrite E1 in H1. lia.
    + intros [= ->]. done.
  - intros (digits & -> & Hlen & Hd & Hhead).
    destruct digits as [|d rest]; simpl in *; [lia|].
    apply andb_true_iff in Hd as [Hd Hr].
    exists d, rest. split; [done|]. split; [|split; [done | lia]].
    unfold is_digit, Regex.in_range in *.
    apply andb_true_iff in Hd as [H1 H2]. apply andb_true_iff. split; [|done].
    apply Nat.leb_le. apply Nat.leb_le in H1.
    assert (nat_of_ascii d ≠ nat_of_ascii "0") as Hne.
    { intros E. apply Hhead. f_equal.
      rewrite <-(ascii_nat_embedding d), E. done. }
    assert (nat_of_ascii "0" = 48%nat) as E0 by reflexivity.
    assert (nat_of_ascii "1" = 49%nat) as E1 by reflexivity.
    rewrite E0 in H1, Hne. rewrite E1. lia.
Qed.

(** X2.  [floatRegex] carries no anchors: its [test] succeeds on a string as
    soon as one of its characters is a decimal digit, and only then. *)
Theorem floatRegex_accepts_any_digit (s : string) :
  floatRegex_test s = existsb is_digit (chars s).
Proof.
  apply eq_true_iff_eq. rewrite floatRegex_test_spec, existsb_exists.
  split; intros (c & Hc & ?); exists c; (split; [|done]); by apply list_elem_of_In.
Qed.

(** ** Request Normalizer, beyond the id list *)

Section ParseParamsMore.

Lemma check_ids_cases (l : list string) :
  (check_ids l = Ok tt ∧ Forall (fun id => idRegex_test id = true) l)
  ∨ ∃ id, check_ids l = Throw (InvalidId id).
Proof.
  induction l as [|x l IH]; simpl; [by left|].
  destruct (idRegex_test x) eqn:Hx; simpl; [|right; by eexists].
  destruct IH as [[-> Hall]|[id ->]]; [left | right; by eexists].
  split; [done | by constructor].
Qed.

Lemma StrSet_of_list_sublist (l acc : list string) :
  ∃ r, foldl (fun s x => StrSet.add x s) acc l = (acc ++ r)%list ∧ r `sublist_of` l.
Proof.
  revert acc. induction l as [|y l IH]; intros acc; simpl.
  - exists []. by rewrite app_nil_r.
  - unfold StrSet.add at 2. case_bool_decide.
    + destruct (IH acc) as (r & -> & Hr). exists r. split; [done|].
      by apply sublist_cons.
    + destruct (IH (acc ++ [y])%list) as (r & -> & Hr). exists (y :: r).
      split; [by rewrite <-app_assoc | by apply sublist_skip].
Qed.

Lemma sublist_filter_mono {A} (P : A → Prop) `{!∀ x, Decision (P x)} (l1 l2 : list A) :
  l1 `sublist_of` l2 → filter P l1 `sublist_of` filter P l2.
Proof.
  induction 1 as [|x l1 l2 _ IH|x l1 l2 _ IH]; [done| |].
  - rewrite !filter_cons. destruct (decide (P x)); [by apply sublist_skip | done].
  - rewrite filter_cons. destruct (decide (P x)); [by apply sublist_cons | done].
Qed.

Lemma parsed_ids_sublist (reqParams : ReqParams) :
  parsed_ids reqParams `sublist_of` id_tokens reqParams.
Proof.
  unfold parsed_ids, id_tokens, StrSet.delete, StrSet.of_list.
  destruct (reqParams !! "ids") as [raw|]; simpl; [|done].
  destruct (String.eqb_spec raw EmptyString) as [->|_]; simpl; [apply sublist_nil_l|].
  apply sublist_filter_mono.
  destruct (StrSet_of_list_sublist (split "," raw) []) as (r & -> & Hr). done.
Qed.

(** A [Set] built from a list keeps the first occurrences, in order. *)
Lemma StrSet_of_list_first (l acc : list string) :
  foldl (fun s x => StrSet.add x s) acc l
  = (acc ++ filter (fun y => y ∉ acc) (first_occurrences l))%list.
Proof.
  revert acc. induction l as [|x l IH]; intros acc; simpl.
  - by rewrite app_nil_r.
  - rewrite IH. unfold StrSet.add. rewrite filter_cons. case_bool_decide as Hx.
    + rewrite decide_False by (intros H; by apply H). f_equal.
      rewrite list_filter_filter. apply list_filter_iff.
      intros y. split; [|tauto]. intros Hy. split; [done|]. by intros ->.
    + rewrite decide_True by done. rewrite <-app_assoc. simpl. do 2 f_equal.
      rewrite list_filter_filter. apply list_filter_iff.
      intros y. rewrite elem_of_app, list_elem_of_singleton. tauto.
Qed.

Lemma first_occurrences_filter (P : string → Prop) `{!∀ x, Decision (P x)}
  (l : list string) :
  first_occurrences (filter P l) = filter P (first_occurrences l).
Proof.
  induction l as [|x l IH]; [done|]. simpl. rewrite !filter_cons.
  destruct (decide (P x)) as [Hx|Hx]; simpl.
  - rewrite IH. f_equal. rewrite !list_filter_filter. apply list_filter_iff. tauto.
  - rewrite IH, list_filter_filter. apply list_filter_iff.
    intros y. split; [|tauto]. intros Hy. split; [done|]. by intros ->.
Qed.

Lemma parsed_ids_first_occurrences (reqParams : ReqParams) :
  parsed_ids reqParams = first_occurrences (id_tokens reqParams).
Proof.
  unfold parsed_ids, id_tokens, StrSet.delete, StrSet.of_list.
  destruct (reqParams !! "ids") as [raw|]; simpl; [|done].
  destruct (String.eqb_spec raw EmptyString) as [->|_]; simpl; [done|].
  rewrite StrSet_of_list_first, first_occurrences_filter. simpl.
  f_equal. symmetry. induction (first_occurrences (split "," raw)) as [|y l IH]; [done|].
  rewrite filter_cons_True by apply not_elem_of_nil. by f_equal.
Qed.

Lemma parseParams_cases (config : Config) (reqParams : ReqParams) :
  _parseParams config reqParams =
  if negb (truthy_str (reqParams !! "ids")) && negb (truthy_str (reqParams !! "query"))
  then Throw InvalidInput
  else if truthy_str (reqParams !! "query")
          && negb (truthy_str (wikidataQueryService config))
  then Throw FeatureDisabled
  else if (maxidcount config
           <? Z.of_nat (size (list_to_set (id_tokens reqParams) : gset string)))%Z
  then Throw (TooManyIds (maxidcount config))
  else match check_ids (parsed_ids reqParams) with
       | Throw e => Throw e
       | Ok _ =>
           Ok {| sparqlQuery := reqParams !! "query";
                 ids := parsed_ids reqParams;
                 idColumn := reqParams !! "idcolumn";
                 useGeoJson := truthy_str (reqParams !! "getgeojson");
                 queryName := reqParams !! "sql" |}
       end.
Proof.
  unfold _parseParams. rewrite parsed_ids_size, Z.gtb_ltb.
  repeat (match goal with |- context [if ?b then _ else _] => destruct b end; try done).
Qed.

End ParseParamsMore.

(** X3.  [_parseParams] accepts a request exactly when an id list or a query
    is given, a query is given only where the graph-query service is
    configured, the id list has at most [maxidcount] distinct non-empty tokens
    and each of them is in the entity-id grammar. *)
Theorem parseParams_accepts_iff (config : Config) (reqParams : ReqParams) :
  (∃ p, _parseParams config reqParams = Ok p) ↔
  passes_guards config reqParams = true
  ∧ (Z.of_nat (size (list_to_set (id_tokens reqParams) : gset string))
     ≤ maxidcount config)%Z
  ∧ Forall (fun id => idRegex_test id = true) (id_tokens reqParams).
Proof.
  rewrite parseParams_cases. unfold passes_guards.
  destruct (truthy_str (reqParams !! "ids")), (truthy_str (reqParams !! "query")),
    (truthy_str (wikidataQueryService config)); simpl;
    try (split; [by intros [? ?] | by intros [? ?]]);
    (destruct (Z.ltb_spec (maxidcount config)
       (Z.of_nat (size (list_to_set (id_tokens reqParams) : gset string))));
     [split; [by intros [? ?] | intros (_ & ? & _); lia]|]);
    (destruct (check_ids_cases (parsed_ids reqParams)) as [[-> Hall]|[id Hid]];
     [split; [intros _; split; [done|]; split; [lia|];
              apply Forall_forall; intros x Hx%parsed_ids_tokens;
              by eapply Forall_forall in Hall
             | by eexists]
     | rewrite Hid; split; [by intros [? ?]|];
       intros (_ & _ & Hall); exfalso;
       assert (check_ids (parsed_ids reqParams) = Ok tt) as E;
       [apply check_ids_valid, Forall_forall; intros x Hx%parsed_ids_tokens;
        by eapply Forall_forall in Hall
       | congruence]]).
Qed.

(** X4.  The two guards of [_parseParams] and their order: the request is
    refused with InvalidInput exactly when neither an id list nor a query is
    given, and with FeatureDisabled exactly when a query is given and no
    graph-query service is configured, whatever the id list holds. *)
Theorem parseParams_guard_errors (config : Config) (reqParams : ReqParams) :
  (_parseParams config reqParams = Throw InvalidInput ↔
   truthy_str (reqParams !! "ids") = false ∧ truthy_str (reqParams !! "query") = false)
  ∧ (_parseParams config reqParams = Throw FeatureDisabled ↔
     truthy_str (reqParams !! "query") = true
     ∧ truthy_str (wikidataQueryService config) = false).
Proof.
  rewrite parseParams_cases.
  destruct (truthy_str (reqParams !! "ids")), (truthy_str (reqParams !! "query")),
    (truthy_str (wikidataQueryService config)); simpl;
    try (split; split; (done || by intros [? ?]));
    (destruct (_ <? _)%Z;
     [split; split; (done || by intros [? ?])|]);
    (destruct (check_ids_cases (parsed_ids reqParams)) as [[-> _]|[id ->]];
     split; split; (done || by intros [? ?])).
Qed.

(** X5.  What an accepted request holds: its ids are in the entity-id
    grammar, pairwise distinct, at most [maxidcount], and they are exactly
    the non-empty tokens of the id list, each once, in the order of their
    first occurrence there; the query, the id-column override, the format
    flag and the SQL profile are those of the request. *)
Theorem parseParams_request_invariant (config : Config) (reqParams : ReqParams)
  (p : Params) :
  _parseParams config reqParams = Ok p →
  Forall (fun id => idRegex_test id = true) (ids p)
  ∧ NoDup (ids p)
  ∧ (Z.of_nat (length (ids p)) ≤ maxidcount config)%Z
  ∧ ids p = first_occurrences (id_tokens reqParams)
  ∧ sparqlQuery p = reqParams !! "query"
  ∧ idColumn p = reqParams !! "idcolumn"
  ∧ useGeoJson p = truthy_str (reqParams !! "getgeojson")
  ∧ queryName p = reqParams !! "sql".
Proof.
  rewrite parseParams_cases.
  repeat (match goal with |- context [if ?b then _ else _] => destruct b eqn:? end;
          try done).
  destruct (check_ids_cases (parsed_ids reqParams)) as [[-> Hall]|[id ->]]; [|done].
  intros [= <-]. simpl. split; [done|]. split; [apply parsed_ids_NoDup|].
  split.
  - pose proof (parsed_ids_size reqParams) as Hsize. unfold StrSet.size in Hsize.
    rewrite Hsize. lia.
  - split; [apply parsed_ids_first_occurrences | done].
Qed.

Lemma parseParams_request_invariant_witness :
  Forall (fun id => idRegex_test id = true) ["Q1"; "Q2"]
  ∧ NoDup ["Q1"; "Q2"]
  ∧ (Z.of_nat (length ["Q1"; "Q2"]) ≤ maxidcount Fixture.cfg)%Z
  ∧ ["Q1"; "Q2"] = first_occurrences (id_tokens Fixture.req_ids)
  ∧ None = Fixture.req_ids !! "query"
  ∧ None = Fixture.req_ids !! "idcolumn"
  ∧ false = truthy_str (Fixture.req_ids !! "getgeojson")
  ∧ None = Fixture.req_ids !! "sql".
Proof.
  apply (parseParams_request_invariant Fixture.cfg Fixture.req_ids
           {| sparqlQuery := None; ids := ["Q1"; "Q2"]; idColumn := None;
              useGeoJson := false; queryName := None |}).
  reflexivity.
Defined.

(** ** Graph Query Runner, row by row *)

Section ResultRows.

Variable parseWikidataValue : jsval → bool → result jsval.
Variable this : GeoShapes.

Lemma Obj_keys_delete (k : string) (o : obj) :
  Obj.keys (Obj.delete k o) = filter (fun k' => k' ≠ k) (Obj.keys o).
Proof.
  unfold Obj.delete, Obj.keys. induction o as [|[k' v] o IH]; [done|].
  rewrite fmap_cons, !filter_cons. simpl.
  destruct (decide (k' ≠ k)); [rewrite fmap_cons; simpl; f_equal|]; exact IH.
Qed.

Lemma Obj_wf_delete (k : string) (o : obj) : Obj.wf o → Obj.wf (Obj.delete k o).
Proof. unfold Obj.wf. rewrite Obj_keys_delete. apply NoDup_filter. Qed.

(** The row that [_processResultRow] returns, when it returns one. *)
Lemma processResultRow_Ok (wd row : obj) (customIdColumn : option string) :
  _processResultRow parseWikidataValue this wd customIdColumn = Ok row →
  ∃ id,
    parseWikidataValue (Obj.prop (effective_id_column this customIdColumn) wd) true = Ok id
    ∧ truthy id = true
    ∧ ((truthy (Obj.prop (geoColumn this) wd) = false
        ∧ row = Obj.set "id" id (Obj.delete (effective_id_column this customIdColumn) wd))
       ∨ (truthy (Obj.prop (geoColumn this) wd) = true
          ∧ ∃ c, parseWikidataValue (Obj.prop (geoColumn this) wd) true = Ok c
                 ∧ row = Obj.set "coordinate" c
                           (Obj.set "id" id
                              (Obj.delete (effective_id_column this customIdColumn) wd)))).
Proof.
  rewrite processResultRow_unfold. cbv zeta.
  set (idColumn := effective_id_column this customIdColumn).
  destruct (Obj.mem idColumn wd); simpl; [|done].
  destruct (parseWikidataValue (Obj.prop idColumn wd) true) as [id|]; simpl; [|done].
  destruct (truthy id) eqn:Hid; simpl; [|done].
  destruct (member_opt "type" (Obj.prop idColumn wd)) as [t|]; [|done].
  destruct (is_str "uri" t); simpl; [|done].
  destruct (truthy (Obj.prop (geoColumn this) wd)) eqn:Hgeo.
  - destruct (parseWikidataValue (Obj.prop (geoColumn this) wd) true) as [c|] eqn:Hc;
      simpl; [|done].
    intros [= <-]. exists id. split; [done|]. split; [done|]. right. eauto.
  - intros [= <-]. exists id. split; [done|]. split; [done|]. by left.
Qed.

End ResultRows.

(** X7.  A row that [_processResultRow] accepts keeps every column other than
    the id column, [id] and [coordinate] exactly as the binding had it; the
    id column itself is gone (unless it is [id] or [coordinate]), and a row
    with distinct columns stays so. *)
Theorem processResultRow_carries_columns
  (parseWikidataValue : jsval → bool → result jsval) (this : GeoShapes)
  (wd row : obj) (customIdColumn : option string) :
  _processResultRow parseWikidataValue this wd customIdColumn = Ok row →
  (∀ k, k ≠ effective_id_column this customIdColumn → k ≠ "id" → k ≠ "coordinate" →
        Obj.get k row = Obj.get k wd)
  ∧ (effective_id_column this customIdColumn ≠ "id" →
     effective_id_column this customIdColumn ≠ "coordinate" →
     Obj.get (effective_id_column this customIdColumn) row = None)
  ∧ (Obj.wf wd → Obj.wf row).
Proof.
  intros (id & _ & _ & [[_ ->]|[_ (c & _ & ->)]])%processResultRow_Ok.
  - split; [|split].
    + intros k H1 H2 _. by rewrite Obj_get_set_ne, Obj_get_delete_ne.
    + intros H1 _. by rewrite Obj_get_set_ne, Obj_get_delete_eq.
    + intros Hwf. by apply Obj_wf_set, Obj_wf_delete.
  - split; [|split].
    + intros k H1 H2 H3. by rewrite !Obj_get_set_ne, Obj_get_delete_ne.
    + intros H1 H2. by rewrite !Obj_get_set_ne, Obj_get_delete_eq.
    + intros Hwf. by apply Obj_wf_set, Obj_wf_set, Obj_wf_delete.
Qed.

Lemma processResultRow_carries_columns_witness :
  (∀ k, k ≠ "id" → k ≠ "id" → k ≠ "coordinate" →
        Obj.get k [ ("marker_color", Fixture.literal "f00");
                    ("title", Fixture.literal "Universe");
                    ("id", JStr "Q1") ]
        = Obj.get k Fixture.row_styled)
  ∧ ("id" ≠ "id" → "id" ≠ "coordinate" →
     Obj.get "id" [ ("marker_color", Fixture.literal "f00");
                    ("title", Fixture.literal "Universe");
                    ("id", JStr "Q1") ] = None)
  ∧ (Obj.wf Fixture.row_styled →
     Obj.wf [ ("marker_color", Fixture.literal "f00");
              ("title", Fixture.literal "Universe");
              ("id", JStr "Q1") ]).
Proof.
  apply (processResultRow_carries_columns Fixture.parseWikidataValue Fixture.geoshape
           Fixture.row_styled _ None).
  reflexivity.
Defined.

(** X8.  The id and the coordinate of an accepted row: [id] holds the parsed,
    non-empty value of the id column; when the binding has a truthy [geo]
    column, [coordinate] holds its parsed value, and otherwise the row's
    [coordinate] is whatever the binding had under that name. *)
Theorem processResultRow_id_and_coordinate
  (parseWikidataValue : jsval → bool → result jsval) (this : GeoShapes)
  (wd row : obj) (customIdColumn : option string) :
  _processResultRow parseWikidataValue this wd customIdColumn = Ok row →
  (∃ id,
     parseWikidataValue (Obj.prop (effective_id_column this customIdColumn) wd) true = Ok id
     ∧ truthy id = true
     ∧ Obj.get "id" row = Some id)
  ∧ (truthy (Obj.prop (geoColumn this) wd) = true →
     ∃ c, parseWikidataValue (Obj.prop (geoColumn this) wd) true = Ok c
          ∧ Obj.get "coordinate" row = Some c)
  ∧ (truthy (Obj.prop (geoColumn this) wd) = false →
     effective_id_column this customIdColumn ≠ "coordinate" →
     Obj.get "coordinate" row = Obj.get "coordinate" wd).
Proof.
  intros (id & Hid & Ht & [[Hgeo ->]|[Hgeo (c & Hc & ->)]])%processResultRow_Ok.
  - split; [exists id; by rewrite Obj_get_set_eq|]. split; [congruence|].
    intros _ Hne. by rewrite Obj_get_set_ne, Obj_get_delete_ne.
  - split; [exists id; by rewrite Obj_get_set_ne, Obj_get_set_eq|].
    split; [|congruence]. intros _. exists c. by rewrite Obj_get_set_eq.
Qed.

Lemma processResultRow_id_and_coordinate_witness :
  ∃ id,
    Fixture.parseWikidataValue (Obj.prop "id" Fixture.row_styled) true = Ok id
    ∧ truthy id = true
    ∧ Obj.get "id" [ ("marker_color", Fixture.literal "f00");
                     ("title", Fixture.literal "Universe");
                     ("id", JStr "Q1") ] = Some id.
Proof.
  apply (processResultRow_id_and_coordinate Fixture.parseWikidataValue Fixture.geoshape
           Fixture.row_styled _ None).
  reflexivity.
Defined.

(** ** Graph Query Runner, the exchange with the endpoint *)

Section GraphExchange.

Variable preq_get : GetRequest → result Response.
Variable parseWikidataValue : jsval → bool → result jsval.
Variable this : GeoShapes.

Lemma rmap_Ok_Forall2 {A B} (f : A → result B) (l : list A) (bs : list B) :
  rmap f l = Ok bs → Forall2 (fun a b => f a = Ok b) l bs.
Proof.
  revert bs. induction l as [|a l IH]; intros bs; simpl.
  - intros [= <-]. constructor.
  - destruct (f a) as [b|] eqn:Hb; simpl; [|done].
    destruct (rmap f l) as [bs'|]; simpl; [|done].
    intros [= <-]. constructor; [done | by apply IH].
Qed.

(** What the call does to the world: nothing without a query, one GET and
    the write to the shared headers with one. *)
Lemma runWikidataQuery_world (type : string) (query : option string)
  (ids : list string) (customIdColumn xClientIp : option string) (w : World) :
  (_runWikidataQuery preq_get parseWikidataValue this type query ids
     customIdColumn xClientIp w).2
  = if truthy_str (effective_query this type query ids)
    then after_graph_request w (effective_query this type query ids) xClientIp
    else w.
Proof.
  unfold _runWikidataQuery. fold (effective_query this type query ids).
  destruct (truthy_str (effective_query this type query ids)); simpl; [|done].
  unfold bind, get_config, set_config, http_get, emit, lift, throw. simpl.
  fold (graph_request (config w) (effective_query this type query ids) xClientIp).
  destruct (preq_get _) as [resp|e]; [|done].
  destruct (resp_headers resp !! "content-type") as [ct|]; [|done].
  destruct (negb _); [done|].
  destruct (member_opt "results" (resp_body resp)) as [results|]; [|done].
  destruct (negb (truthy results)); [done|].
  destruct (member_opt "bindings" results) as [[]|]; done.
Qed.

#[local] Arguments startsWith : simpl never.

(** What the call returns when the endpoint is asked. *)
Lemma runWikidataQuery_result (type : string) (query : option string)
  (ids : list string) (customIdColumn xClientIp : option string) (w : World) :
  truthy_str (effective_query this type query ids) = true →
  (_runWikidataQuery preq_get parseWikidataValue this type query ids
     customIdColumn xClientIp w).1
  = match preq_get (graph_request (config w) (effective_query this type query ids)
                      xClientIp) with
    | Throw e => Throw e
    | Ok resp =>
        match resp_headers resp !! "content-type" with
        | None => Throw TypeError
        | Some contentType =>
            if startsWith "application/sparql-results+json" contentType
            then match member_opt "results" (resp_body resp) with
                 | None => Throw TypeError
                 | Some _ =>
                     match response_bindings resp with
                     | Some bindings =>
                         rmap (fun wd => o <-! as_row wd ;;
                                 _processResultRow parseWikidataValue this o
                                   customIdColumn) bindings
                     | None => Throw MalformedGraphResponse
                     end
                 end
            else Throw (UnexpectedContentType contentType)
        end
    end.
Proof.
  intros Hq. unfold _runWikidataQuery. fold (effective_query this type query ids).
  rewrite Hq. simpl.
  unfold bind, get_config, set_config, http_get, emit, lift, throw. simpl.
  fold (graph_request (config w) (effective_query this type query ids) xClientIp).
  destruct (preq_get _) as [resp|e]; [|done].
  destruct (resp_headers resp !! "content-type") as [ct|]; [|done].
  destruct (startsWith "application/sparql-results+json" ct); simpl; [|done].
  unfold response_bindings.
  destruct (member_opt "results" (resp_body resp)) as [results|]; [|done].
  destruct (truthy results); simpl; [|done].
  destruct (member_opt "bindings" results) as [[]|]; done.
Qed.

End GraphExchange.

(** X9.  An explicit query is sent as it is, whatever the kind and the ids:
    the call makes exactly one request, to the configured endpoint, with the
    query text unchanged and with every configured SPARQL header except that
    [X-Client-IP] holds the caller's address. *)
Theorem runWikidataQuery_explicit_query
  (preq_get : GetRequest → result Response)
  (parseWikidataValue : jsval → bool → result jsval) (this : GeoShapes)
  (type : string) (query : string) (ids : list string)
  (customIdColumn xClientIp : option string) (w : World) :
  query ≠ EmptyString →
  ∃ request,
    calls (_runWikidataQuery preq_get parseWikidataValue this type (Some query) ids
             customIdColumn xClientIp w).2
    = (calls w ++ [HttpGet request])%list
    ∧ get_uri request = wikidataQueryService (config w)
    ∧ get_query request = query
    ∧ get_headers request !! "X-Client-IP" = Some (of_opt_str xClientIp)
    ∧ ∀ name, name ≠ "X-Client-IP" →
              get_headers request !! name = sparqlHeaders (config w) !! name.
Proof.
  intros Hq. rewrite runWikidataQuery_world.
  assert (effective_query this type (Some query) ids = Some query) as ->.
  { unfold effective_query. simpl.
    destruct (String.eqb_spec query EmptyString); done. }
  simpl. destruct (String.eqb_spec query EmptyString); [done|]. simpl.
  eexists. split; [done|]. simpl. split; [done|]. split; [done|]. split.
  - unfold Object_assign_client_ip. apply lookup_insert_eq.
  - intros name Hne. unfold Object_assign_client_ip. by apply lookup_insert_ne.
Qed.

Lemma runWikidataQuery_explicit_query_witness :
  ∃ request,
    calls (_runWikidataQuery Fixture.preq_get Fixture.parseWikidataValue
             Fixture.geoshape "geoshape" (Some "SELECT ?id WHERE { }") ["Q1"]
             None (Some "203.0.113.7") Fixture.world).2
    = ([] ++ [HttpGet request])%list
    ∧ get_uri request = wikidataQueryService Fixture.cfg
    ∧ get_query request = "SELECT ?id WHERE { }"
    ∧ get_headers request !! "X-Client-IP" = Some (JStr "203.0.113.7")
    ∧ ∀ name, name ≠ "X-Client-IP" →
              get_headers request !! name = sparqlHeaders Fixture.cfg !! name.
Proof.
  apply (runWikidataQuery_explicit_query Fixture.preq_get Fixture.parseWikidataValue
           Fixture.geoshape "geoshape" "SELECT ?id WHERE { }" ["Q1"] None
           (Some "203.0.113.7") Fixture.world).
  discriminate.
Defined.



(** X11.  How the runner judges the answer of the endpoint, in this order: a
    failed request fails the call with the same error; an answer whose
    content type does not start with application/sparql-results+json is
    refused with UnexpectedContentType, whatever its body; an answer of the
    right type whose body is an object without a [results.bindings] array is
    refused with MalformedGraphResponse.  In each case the request has been
    sent. *)
Theorem runWikidataQuery_response_errors
  (preq_get : GetRequest → result Response)
  (parseWikidataValue : jsval → bool → result jsval) (this : GeoShapes)
  (type : string) (query : option string) (ids : list string)
  (customIdColumn xClientIp : option string) (w : World) :
  truthy_str (effective_query this type query ids) = true →
  (_runWikidataQuery preq_get parseWikidataValue this type query ids
     customIdColumn xClientIp w).2
  = after_graph_request w (effective_query this type query ids) xClientIp
  ∧ (∀ e,
       preq_get (graph_request (config w) (effective_query this type query ids)
                   xClientIp) = Throw e →
       (_runWikidataQuery preq_get parseWikidataValue this type query ids
          customIdColumn xClientIp w).1 = Throw e)
  ∧ (∀ resp contentType,
       preq_get (graph_request (config w) (effective_query this type query ids)
                   xClientIp) = Ok resp →
       resp_headers resp !! "content-type" = Some contentType →
       (startsWith "application/sparql-results+json" contentType = false →
        (_runWikidataQuery preq_get parseWikidataValue this type query ids
           customIdColumn xClientIp w).1 = Throw (UnexpectedContentType contentType))
       ∧ (startsWith "application/sparql-results+json" contentType = true →
          (∃ o, resp_body resp = JObj o) →
          response_bindings resp = None →
          (_runWikidataQuery preq_get parseWikidataValue this type query ids
             customIdColumn xClientIp w).1 = Throw MalformedGraphResponse)).
Proof.
  intros Hq. split; [by rewrite runWikidataQuery_world, Hq|].
  split.
  - intros e He. by rewrite runWikidataQuery_result, He.
  - intros resp ct Hresp Hct. rewrite runWikidataQuery_result, Hresp, Hct by done.
    split; [by intros ->|]. intros -> [o Ho] ->. by rewrite Ho.
Qed.

Lemma runWikidataQuery_response_errors_witness :
  (_runWikidataQuery Fixture.preq_get Fixture.parseWikidataValue Fixture.geopoint
     "geopoint" None ["Q1"] None None Fixture.world).2
  = after_graph_request Fixture.world
      (effective_query Fixture.geopoint "geopoint" None ["Q1"]) None.
Proof.
  apply (proj1 (runWikidataQuery_response_errors Fixture.preq_get
                  Fixture.parseWikidataValue Fixture.geopoint "geopoint" None ["Q1"]
                  None None Fixture.world eq_refl)).
Defined.

(** ** Spatial Query Runner, the call to the store *)

Section SqlCall.

Variable db_query : option string → list jsval → result (list GeometryRow).

Lemma runSqlQuery_cases (type : string) (ids : list jsval) (queryKey : option string)
  (rawParams : ReqParams) (w : World) :
  _runSqlQuery db_query type ids queryKey rawParams w =
  if (length ids =? 0)%nat || String.eqb type "geopoint" then (Ok [], w)
  else match chosen_template (config w) queryKey with
       | None => (Throw TypeError, w)
       | Some query =>
           match push_params rawParams (default [] (params query))
                   [JStr (table_for (config w) type); JArr ids] with
           | Throw e => (Throw e, w)
           | Ok args => (db_query (sql query) args, with_calls w [DbQuery (sql query) args])
           end
       end.
Proof.
  unfold _runSqlQuery, chosen_template, table_for.
  destruct ((length ids =? 0)%nat || String.eqb type "geopoint"); [done|].
  unfold bind, get_config, db_call, emit, lift, throw. simpl.
  destruct (match queries (config w) !! key_of queryKey with
            | Some query => Some query
            | None => _
            end) as [query|]; [|done].
  destruct (params query) as [ps|]; simpl; [|done].
  by destruct (push_params rawParams ps _).
Qed.

Lemma push_params_unnamed (raw1 raw2 : ReqParams) (ps : list QueryParam)
  (args : list jsval) :
  Forall (fun param => truthy_str (param_name param) = false) ps →
  push_params raw1 ps args = push_params raw2 ps args.
Proof.
  intros H. revert args. induction H as [|param ps Hp _ IH]; intros args; [done|].
  simpl. rewrite Hp. simpl. apply IH.
Qed.

End SqlCall.

(** X12.  When the store is reached (some id, a kind other than point, a
    template for the profile, and no supplied value that [floatRegex]
    matches), it is called once, with the template's SQL and with, as
    arguments, the table of the kind (the polygon table for geoshape, the
    line table for any other kind), the id list, and then one argument per
    declared parameter in order: the request's value for a named parameter
    that the request supplies, the template's default otherwise (or, for a
    parameter named like a member that every object inherits and that the
    request does not have, that member).  The template is the configured
    one of the profile's name, else what [config.queries] inherits under
    that name (which has no SQL text and no parameter), else the template
    [default]. *)
Theorem runSqlQuery_arguments
  (db_query : option string → list jsval → result (list GeometryRow))
  (type : string) (ids : list jsval) (queryKey : option string)
  (rawParams : ReqParams) (w : World) (query : QueryTemplate) :
  ids ≠ [] →
  type ≠ "geopoint" →
  chosen_template (config w) queryKey = Some query →
  Forall (fun param => ∀ value, supplied rawParams param = Some value →
                                floatRegex_test value = false)
    (default [] (params query)) →
  _runSqlQuery db_query type ids queryKey rawParams w
  = (db_query (sql query)
       ([JStr (table_for (config w) type); JArr ids]
        ++ map (param_arg rawParams) (default [] (params query)))%list,
     with_calls w
       [DbQuery (sql query)
          ([JStr (table_for (config w) type); JArr ids]
           ++ map (param_arg rawParams) (default [] (params query)))%list]).
Proof.
  intros Hids Hty Hq Hvals. rewrite runSqlQuery_cases, Hq.
  destruct ids; [done|]. destruct (String.eqb_spec type "geopoint"); [done|]. simpl orb.
  cbv iota. by rewrite push_params_ok.
Qed.

Lemma runSqlQuery_arguments_witness :
  _runSqlQuery Fixture.db_query "geoline" [JStr "Q1"] (Some "simplifyarea")
    Fixture.req_simplify_text Fixture.world
  = (Fixture.db_query
       (Some "SELECT id, ST_AsGeoJSON(ST_Simplify(way, $3)) as data FROM $1~ WHERE id IN ($2:csv)")
       [JStr "wikidata_relation_members"; JArr [JStr "Q1"]; JStr "x) OR (true"],
     with_calls Fixture.world
       [DbQuery
          (Some "SELECT id, ST_AsGeoJSON(ST_Simplify(way, $3)) as data FROM $1~ WHERE id IN ($2:csv)")
          [JStr "wikidata_relation_members"; JArr [JStr "Q1"]; JStr "x) OR (true"]]).
Proof.
  apply (runSqlQuery_arguments Fixture.db_query "geoline" [JStr "Q1"]
           (Some "simplifyarea") Fixture.req_simplify_text Fixture.world
           {| sql := Some "SELECT id, ST_AsGeoJSON(ST_Simplify(way, $3)) as data FROM $1~ WHERE id IN ($2:csv)";
              params := Some [ {| param_name := Some "arg1";
                                  param_default := JNum 0.125 |} ] |}).
  - discriminate.
  - discriminate.
  - reflexivity.
  - repeat constructor. intros value [= <-]. reflexivity.
Defined.

(** X13.  A profile that the configuration does not know, or no profile at
    all, is served exactly as the profile [default] is, unless the name of
    the profile is that of a member which every object inherits
    ([constructor], [toString], ...): the lookup then finds that member, and
    the store is called with no SQL text (undefined) and with the table and
    the ids as its only arguments, whatever the template [default]
    declares. *)
Theorem runSqlQuery_profile_fallback
  (db_query : option string → list jsval → result (list GeometryRow))
  (type : string) (ids : list jsval) (queryKey : option string)
  (rawParams : ReqParams) (w : World) :
  queries (config w) !! key_of queryKey = None →
  _runSqlQuery db_query type ids queryKey rawParams w
  = if Proto.has (key_of queryKey)
    then if (length ids =? 0)%nat || String.eqb type "geopoint" then (Ok [], w)
         else (db_query None [JStr (table_for (config w) type); JArr ids],
               with_calls w
                 [DbQuery None [JStr (table_for (config w) type); JArr ids]])
    else _runSqlQuery db_query type ids (Some "default") rawParams w.
Proof.
  intros Hkey. rewrite !runSqlQuery_cases. unfold chosen_template. rewrite Hkey.
  destruct (Proto.has (key_of queryKey)); [done|]. simpl key_of.
  by destruct (queries (config w) !! "default").
Qed.

Lemma runSqlQuery_profile_fallback_witness :
  _runSqlQuery Fixture.db_query "geoshape" [JStr "Q1"] (Some "nosuchprofile")
    Fixture.req_q1 Fixture.world
  = _runSqlQuery Fixture.db_query "geoshape" [JStr "Q1"] (Some "default")
      Fixture.req_q1 Fixture.world
  ∧ _runSqlQuery Fixture.db_query "geoshape" [JStr "Q1"] (Some "constructor")
      Fixture.req_simplify_text Fixture.world
    = (Fixture.db_query None [JStr "wikidata_relation_polygon"; JArr [JStr "Q1"]],
       with_calls Fixture.world
         [DbQuery None [JStr "wikidata_relation_polygon"; JArr [JStr "Q1"]]]).
Proof.
  split.
  - apply (runSqlQuery_profile_fallback Fixture.db_query "geoshape" [JStr "Q1"]
             (Some "nosuchprofile") Fixture.req_q1 Fixture.world).
    reflexivity.
  - apply (runSqlQuery_profile_fallback Fixture.db_query "geoshape" [JStr "Q1"]
             (Some "constructor") Fixture.req_simplify_text Fixture.world).
    reflexivity.
Defined.

(** X14.  A declared parameter without a name cannot be set by the request:
    when the parameters of the template in use are all unnamed, the call does
    the same whatever the request parameters are. *)
Theorem runSqlQuery_unnamed_params
  (db_query : option string → list jsval → result (list GeometryRow))
  (type : string) (ids : list jsval) (queryKey : option string)
  (raw1 raw2 : ReqParams) (w : World) :
  (∀ query, chosen_template (config w) queryKey = Some query →
            Forall (fun param => truthy_str (param_name param) = false)
              (default [] (params query))) →
  _runSqlQuery db_query type ids queryKey raw1 w
  = _runSqlQuery db_query type ids queryKey raw2 w.
Proof.
  intros H. rewrite !runSqlQuery_cases.
  destruct (_ || _); [done|].
  destruct (chosen_template (config w) queryKey) as [query|]; [|done].
  by rewrite (push_params_unnamed raw1 raw2) by auto.
Qed.

Lemma runSqlQuery_unnamed_params_witness :
  params <$> chosen_template Fixture.cfg_unnamed (Some "buffered")
  = Some (Some [ {| param_name := None; param_default := JNum 0.5 |} ])
  ∧ _runSqlQuery Fixture.db_query "geoshape" [JStr "Q1"] (Some "buffered")
      Fixture.req_simplify_numeric Fixture.world_unnamed
    = _runSqlQuery Fixture.db_query "geoshape" [JStr "Q1"] (Some "buffered")
        Fixture.req_q1 Fixture.world_unnamed.
Proof.
  split; [reflexivity|].
  apply (runSqlQuery_unnamed_params Fixture.db_query "geoshape" [JStr "Q1"]
           (Some "buffered") Fixture.req_simplify_numeric Fixture.req_q1
           Fixture.world_unnamed).
  intros query Hq. vm_compute in Hq. injection Hq as <-. by repeat constructor.
Defined.

(** ** Property Sanitizer, failures and the rows it returns *)

Section SanitizerMore.

Variable preq_post : PostRequest → result Response.
Variable parseWikidataValue : jsval → bool → result jsval.
Variable JSON_parse : string → result jsval.

Lemma transform_props_throw (prop acc : obj) :
  Exists (fun kv => truthy kv.2 = true
                    ∧ ∃ e, parseWikidataValue kv.2 false = Throw e) prop →
  ∃ e, transform_props parseWikidataValue prop acc = Throw e.
Proof.
  revert acc. induction prop as [|[k v] prop IH]; intros acc H;
    [by apply Exists_nil in H|].
  simpl. destruct (truthy v) eqn:Hv.
  - destruct (parseWikidataValue v false) as [v'|e] eqn:Hp; simpl; [|by eexists].
    apply Exists_cons in H as [(_ & e & He)|H]; [simpl in He; congruence|].
    by apply IH.
  - apply Exists_cons in H as [(Ht & _)|H]; [simpl in Ht; congruence|].
    by apply IH.
Qed.

Lemma rmap_throw {A B} (f : A → result B) (l : list A) :
  Exists (fun a => ∃ e, f a = Throw e) l → ∃ e, rmap f l = Throw e.
Proof.
  induction l as [|a l IH]; intros H; [by apply Exists_nil in H|].
  simpl. destruct (f a) as [b|e] eqn:Hb; simpl; [|by eexists].
  apply Exists_cons in H as [(e & He)|H]; [congruence|].
  destruct (IH H) as [e ->]. by eexists.
Qed.

Lemma rmap_length {A B} (f : A → result B) (l : list A) (bs : list B) :
  rmap f l = Ok bs → length bs = length l.
Proof. intros H%rmap_Ok_Forall2. symmetry. by eapply Forall2_length. Qed.


End SanitizerMore.

(** X15.  If the value parser throws on a kept column of some raw row, the
    sanitiser call fails and nothing is sent to the sanitisation endpoint. *)
Theorem expandProperties_parser_failure
  (preq_post : PostRequest → result Response)
  (parseWikidataValue : jsval → bool → result jsval)
  (JSON_parse : string → result jsval) (rawProperties : list obj) (w : World) :
  Exists (fun row =>
            Exists (fun kv => ∃ e, parseWikidataValue kv.2 false = Throw e)
              (kept_columns row)) rawProperties →
  ∃ e, _expandProperties preq_post parseWikidataValue JSON_parse rawProperties w
       = (Throw e, w).
Proof.
  intros H.
  destruct (rmap_throw (placeholder parseWikidataValue) rawProperties) as [e He].
  { eapply Exists_impl; [done|]. intros row Hrow. unfold placeholder.
    destruct (transform_props_throw parseWikidataValue (Obj.delete "id" row) [])
      as [e ->]; [|by eexists].
    apply Exists_exists in Hrow as (kv & Hin & Hkv). apply Exists_exists.
    unfold kept_columns in Hin. apply list_elem_of_filter in Hin as [Ht Hin].
    by exists kv. }
  exists e. unfold _expandProperties, bind, lift. by rewrite He.
Qed.

Lemma expandProperties_parser_failure_witness :
  ∃ e, _expandProperties Fixture.preq_post Fixture.parseWikidataValue
         Fixture.JSON_parse [[("height", JStr "12"); ("id", JStr "Q1")]] Fixture.world
       = (Throw e, Fixture.world).
Proof.
  apply (expandProperties_parser_failure Fixture.preq_post Fixture.parseWikidataValue
           Fixture.JSON_parse [[("height", JStr "12"); ("id", JStr "Q1")]]
           Fixture.world).
  apply Exists_cons_hd. apply Exists_cons_hd. by eexists.
Defined.



(** ** Result Assembler, on every input *)

Section AssemblerMore.

Variable JSON_parse : string → result jsval.

Lemma shape_feature_Ok (row : GeometryRow) (store store' : option (list obj))
  (f : FeatureRef) :
  shape_feature JSON_parse row store = Ok (f, store') →
  JSON_parse (row_data row) = Ok (parsed_geometry JSON_parse row).
Proof.
  unfold shape_feature, parsed_geometry.
  by destruct (JSON_parse (row_data row)).
Qed.

Lemma shape_features_Ok_parses (rows : list GeometryRow) (store store' : option (list obj))
  (fs : list FeatureRef) :
  shape_features JSON_parse rows store = Ok (fs, store') →
  ∀ row, row ∈ rows → JSON_parse (row_data row) = Ok (parsed_geometry JSON_parse row).
Proof.
  revert store fs. induction rows as [|row rows IH]; intros store fs H r Hr;
    [by apply elem_of_nil in Hr|].
  simpl in H.
  destruct (shape_feature JSON_parse row store) as [[f store1]|] eqn:Hf; [|done].
  simpl in H.
  destruct (shape_features JSON_parse rows store1) as [[fs' store2]|] eqn:Hfs; [|done].
  simpl in H. injection H as <- <-.
  apply elem_of_cons in Hr as [->|Hr];
    [by eapply shape_feature_Ok | by eapply IH].
Qed.

Lemma shape_features_throw (pre post : list GeometryRow) (row : GeometryRow)
  (store : option (list obj)) (e : Err) :
  (∀ r, r ∈ pre → ∃ g, JSON_parse (row_data r) = Ok g) →
  JSON_parse (row_data row) = Throw e →
  shape_features JSON_parse (pre ++ row :: post) store = Throw e.
Proof.
  revert store. induction pre as [|r pre IH]; intros store Hpre Hrow; simpl.
  - unfold shape_feature. by rewrite Hrow.
  - destruct (Hpre r) as [g Hg]; [apply list_elem_of_here|].
    unfold shape_feature at 1. rewrite Hg. simpl.
    assert (∀ r0, r0 ∈ pre → ∃ g0, JSON_parse (row_data r0) = Ok g0) as Hpre'
      by (intros; apply Hpre; by apply list_elem_of_further).
    destruct store as [properties|]; [destruct (find_slot (row_id r) properties)|];
      simpl; by rewrite IH.
Qed.

End AssemblerMore.

(** X17.  For lines and polygons (and for any kind when there are no clean
    property rows at all), an assembly that succeeds has one feature per
    geometry row, in order, with the row's id and the parsed data of the row
    as geometry, whether or not a clean property row matches; and no
    feature has an [id] among its properties. *)
Theorem assemble_feature_per_geometry_row
  (JSON_parse : string → result jsval) (this : GeoShapes) (type : string)
  (rows : list GeometryRow) (properties : option (list obj))
  (features : list Feature) (store : option (list obj)) :
  type ≠ "geopoint" ∨ properties = None →
  assemble JSON_parse this type rows properties = Ok (features, store) →
  Forall2 (fun row feature =>
             f_id feature = JStr (row_id row)
             ∧ JSON_parse (row_data row) = Ok (f_geometry feature)
             ∧ Obj.get "id" (f_properties feature) = None)
    rows features.
Proof.
  intros Hkind Hasm.
  assert (∀ row, row ∈ rows →
                 JSON_parse (row_data row) = Ok (parsed_geometry JSON_parse row))
    as Hparse.
  { unfold assemble in Hasm.
    destruct (shape_features JSON_parse rows properties) as [[fs st]|] eqn:Hfs.
    - by eapply shape_features_Ok_parses.
    - destruct (String.eqb_spec type "geopoint") as [->|], properties, Hkind; done. }
  destruct properties as [props|].
  - destruct Hkind as [Hty|]; [|done].
    destruct (assemble_shapes JSON_parse (parsed_geometry JSON_parse) this type rows
                props Hty Hparse) as (store' & _ & Heq & _).
    rewrite Heq in Hasm. injection Hasm as <- <-.
    apply Forall2_same_length_lookup_2; [by rewrite length_imap|].
    intros k row feature Hk Hf. rewrite list_lookup_imap, Hk in Hf.
    simpl in Hf. injection Hf as <-. unfold join_in_turn. simpl. split; [done|].
    split; [apply Hparse; by eapply list_elem_of_lookup_2|].
    destruct (rows_with_id _ _ !! _); [apply Obj_get_delete_eq | done].
  - rewrite (assemble_shapes_none JSON_parse (parsed_geometry JSON_parse) this type rows
               Hparse) in Hasm.
    injection Hasm as <- <-. apply Forall2_fmap_r, Forall_Forall2_diag, Forall_forall.
    intros row Hrow. simpl. split; [done|]. split; [by apply Hparse | done].
Qed.

Lemma assemble_feature_per_geometry_row_witness :
  Forall2 (fun row feature =>
             f_id feature = JStr (row_id row)
             ∧ Fixture.JSON_parse (row_data row) = Ok (f_geometry feature)
             ∧ Obj.get "id" (f_properties feature) = None)
    [Fixture.row_q2]
    [ {| f_id := JStr "Q2"; f_properties := []; f_geometry := Fixture.polygon |} ].
Proof.
  apply (assemble_feature_per_geometry_row Fixture.JSON_parse Fixture.geoshape
           "geoshape" [Fixture.row_q2] (Some [Fixture.clean_a]) _
           (Some [Fixture.clean_a])).
  - left. discriminate.
  - reflexivity.
Defined.

(** X18.  Point assembly, given clean property rows, never fails and does
    not look at the geometry rows: there is one feature per clean property
    row, in order, with the row's [id] as id; its properties have neither an
    [id] nor the coordinate column; and the clean property rows are used
    up: the array that was passed in holds, after the call, exactly the
    properties objects of the features. *)
Theorem assemble_points_total
  (JSON_parse : string → result jsval) (this : GeoShapes) (props : list obj) :
  ∃ features,
    (∀ rows, assemble JSON_parse this "geopoint" rows (Some props)
             = Ok (features, Some (f_properties <$> features)))
    ∧ f_id <$> features = Obj.prop "id" <$> props
    ∧ Forall (fun feature =>
                Obj.get "id" (f_properties feature) = None
                ∧ Obj.get (geoColumn this) (f_properties feature) = None) features.
Proof.
  eexists. split; [|split].
  - intros rows. rewrite assemble_points. do 2 f_equal.
    by rewrite <-list_fmap_compose.
  - by rewrite <-list_fmap_compose.
  - apply Forall_fmap, Forall_forall. intros value _. simpl. unfold point_cleaned.
    split; [|apply Obj_get_delete_eq].
    destruct (decide ("id" = geoColumn this)) as [<-|Hne]; [apply Obj_get_delete_eq|].
    rewrite Obj_get_delete_ne by done. apply Obj_get_delete_eq.
Qed.

(** X19.  For lines and polygons, geometry data that [JSON.parse] refuses
    fails the whole assembly with the error of the first such row, even when
    every other row is fine. *)
Theorem assemble_unparsable_geometry
  (JSON_parse : string → result jsval) (this : GeoShapes) (type : string)
  (pre post : list GeometryRow) (row : GeometryRow)
  (properties : option (list obj)) (e : Err) :
  type ≠ "geopoint" ∨ properties = None →
  (∀ r, r ∈ pre → ∃ g, JSON_parse (row_data r) = Ok g) →
  JSON_parse (row_data row) = Throw e →
  assemble JSON_parse this type (pre ++ row :: post) properties = Throw e.
Proof.
  intros Hkind Hpre Hrow. unfold assemble.
  rewrite (shape_features_throw JSON_parse pre post row properties e Hpre Hrow).
  destruct (String.eqb_spec type "geopoint") as [->|], properties, Hkind; done.
Qed.

Lemma assemble_unparsable_geometry_witness :
  assemble Fixture.JSON_parse Fixture.geoshape "geoshape"
    ([Fixture.row_q1] ++ Fixture.row_broken :: [Fixture.row_q2])
    (Some [Fixture.clean_a])
  = Throw SyntaxError.
Proof.
  apply (assemble_unparsable_geometry Fixture.JSON_parse Fixture.geoshape "geoshape"
           [Fixture.row_q1] [Fixture.row_q2] Fixture.row_broken
           (Some [Fixture.clean_a]) SyntaxError).
  - left. discriminate.
  - intros r ->%list_elem_of_singleton. by eexists.
  - reflexivity.
Defined.

(** ** The pipeline *)

Section Pipeline.

Variable preq_get : GetRequest → result Response.
Variable preq_post : PostRequest → result Response.
Variable db_query : option string → list jsval → result (list GeometryRow).
Variable parseWikidataValue : jsval → bool → result jsval.
Variable JSON_parse : string → result jsval.
Variable Topology : Type.
Variable topojson_topology : list (string * list Feature) → (Feature → obj) → result Topology.
Variable this : GeoShapes.

Lemma with_calls_nil (w : World) : with_calls w [] = w.
Proof. destruct w. unfold with_calls. simpl. by rewrite app_nil_r. Qed.

Lemma with_calls_app (w : World) (k l : list Event) :
  with_calls (with_calls w k) l = with_calls w (k ++ l).
Proof. unfold with_calls. simpl. by rewrite app_assoc. Qed.

Lemma new_calls_with_calls (w : World) (more : list Event) :
  new_calls w (with_calls w more) = more.
Proof. unfold new_calls, with_calls. simpl. apply drop_app_length. Qed.

Lemma after_graph_request_calls (w : World) (query xClientIp : option string) :
  calls (after_graph_request w query xClientIp)
  = (calls w ++ [HttpGet (graph_request (config w) query xClientIp)])%list.
Proof. done. Qed.

(** *** The id set *)

Lemma ValSet_fold_extends (s l : list jsval) :
  ∃ rest, foldl (fun s x => ValSet.add x s) s l = (s ++ rest)%list
          ∧ rest `sublist_of` l.
Proof.
  revert s. induction l as [|x l IH]; intros s; simpl.
  - exists []. by rewrite app_nil_r.
  - destruct (IH (ValSet.add x s)) as (rest & -> & Hrest). unfold ValSet.add.
    destruct (existsb (same_value_zero x) s).
    + exists rest. split; [done|]. by apply sublist_cons.
    + exists (x :: rest). rewrite <-app_assoc. split; [done|]. by apply sublist_skip.
Qed.

Lemma existsb_JStr_fresh (x : string) (s : list string) :
  x ∉ s → existsb (same_value_zero (JStr x)) (JStr <$> s) = false.
Proof.
  induction s as [|y s IH]; [done|]. intros [Hne Hs]%not_elem_of_cons.
  rewrite fmap_cons. cbn [existsb same_value_zero].
  rewrite IH by done. by destruct (String.eqb_spec x y).
Qed.

Lemma ValSet_fold_strings (s l : list string) :
  NoDup (s ++ l)%list →
  foldl (fun s x => ValSet.add x s) (JStr <$> s) (JStr <$> l) = JStr <$> (s ++ l)%list.
Proof.
  revert s. induction l as [|x l IH]; intros s Hnd; simpl.
  - by rewrite app_nil_r.
  - unfold ValSet.add at 2. rewrite existsb_JStr_fresh.
    + replace ((JStr <$> s) ++ [JStr x])%list with (JStr <$> (s ++ [x])%list)
        by (by rewrite fmap_app).
      rewrite IH; [by rewrite <-app_assoc|]. by rewrite <-app_assoc.
    + apply NoDup_app in Hnd as (_ & Hnd & _). intros Hx. apply (Hnd x Hx).
      apply list_elem_of_here.
Qed.

Lemma existsb_JStr (x : string) (s : list string) :
  existsb (same_value_zero (JStr x)) (JStr <$> s) = bool_decide (x ∈ s).
Proof.
  case_bool_decide as Hx; [|by apply existsb_JStr_fresh].
  induction s as [|y s IH]; [by apply elem_of_nil in Hx|].
  rewrite fmap_cons. cbn [existsb same_value_zero].
  apply elem_of_cons in Hx as [->|Hx]; [by rewrite String.eqb_refl|].
  rewrite IH by done. apply orb_true_r.
Qed.

Lemma ValSet_fold_StrSet (l acc : list string) :
  foldl (fun s x => ValSet.add x s) (JStr <$> acc) (JStr <$> l)
  = JStr <$> foldl (fun s x => StrSet.add x s) acc l.
Proof.
  revert acc. induction l as [|x l IH]; intros acc; [done|].
  rewrite fmap_cons. cbn [foldl]. rewrite <-IH. f_equal.
  unfold ValSet.add, StrSet.add. rewrite existsb_JStr.
  case_bool_decide; [done|]. by rewrite fmap_app.
Qed.

(** When the ids of the raw rows are strings, the ids for the store are
    the request's ids and then the ids of the rows, each once, where it
    occurs first. *)
Lemma store_ids_strings (rawProperties : list obj) (queried : list string) :
  map (Obj.prop "id") rawProperties = JStr <$> queried →
  store_ids this rawProperties
  = JStr <$> first_occurrences (ids (parsed this) ++ queried).
Proof.
  intros Hq. unfold store_ids, ValSet.of_list. rewrite Hq, <-fmap_app.
  pose proof (ValSet_fold_StrSet (ids (parsed this) ++ queried) []) as H.
  simpl in H. rewrite H, StrSet_of_list_first. simpl. f_equal.
  induction (first_occurrences _) as [|y l IH]; [done|].
  rewrite filter_cons_True by apply not_elem_of_nil. by f_equal.
Qed.

(** The ids for the store begin with the request's, in order. *)
Lemma store_ids_prefix (rawProperties : list obj) :
  NoDup (ids (parsed this)) →
  ∃ rest, store_ids this rawProperties = ((JStr <$> ids (parsed this)) ++ rest)%list
          ∧ rest `sublist_of` map (Obj.prop "id") rawProperties.
Proof.
  intros Hnd. unfold store_ids, ValSet.of_list. rewrite foldl_app.
  pose proof (ValSet_fold_strings [] (ids (parsed this)) Hnd) as H. simpl in H.
  rewrite H. apply ValSet_fold_extends.
Qed.

Lemma store_ids_nonempty (rawProperties : list obj) :
  rawProperties ≠ [] → store_ids this rawProperties ≠ [].
Proof.
  intros Hraw. unfold store_ids, ValSet.of_list.
  destruct ((JStr <$> ids (parsed this)) ++ map (Obj.prop "id") rawProperties)%list
    as [|x l] eqn:Hl.
  - apply app_eq_nil in Hl as [_ Hl]. by destruct rawProperties.
  - cbn [foldl].
    destruct (ValSet_fold_extends (ValSet.add x []) l) as (rest & Heq & _).
    rewrite Heq. by cbv [ValSet.add existsb app].
Qed.

(** *** The stages and the world *)

Lemma push_params_extends (rawParams : ReqParams) (ps : list QueryParam)
  (args args' : list jsval) :
  push_params rawParams ps args = Ok args' → ∃ more, args' = (args ++ more)%list.
Proof.
  revert args. induction ps as [|param ps IH]; intros args.
  - intros [= <-]. exists []. by rewrite app_nil_r.
  - rewrite push_params_step.
    destruct (supplied rawParams param) as [value|];
      [destruct (floatRegex_test value); [done|]|];
      intros (more & ->)%IH; eexists; by rewrite <-app_assoc.
Qed.

(** The spatial stage logs nothing, or one call to the store with the table
    of the kind and the ids as first arguments. *)
Lemma runSqlQuery_world (type : string) (ids : list jsval) (queryKey : option string)
  (rawParams : ReqParams) (w : World) :
  ∃ d, (_runSqlQuery db_query type ids queryKey rawParams w).2 = with_calls w d
       ∧ (d = []
          ∨ type ≠ "geopoint"
            ∧ ∃ query more,
                chosen_template (config w) queryKey = Some query
                ∧ d = [DbQuery (sql query)
                         (JStr (table_for (config w) type) :: JArr ids :: more)]).
Proof.
  rewrite runSqlQuery_cases.
  destruct (length ids =? 0)%nat; simpl;
    [exists []; by rewrite with_calls_nil; auto|].
  destruct (String.eqb_spec type "geopoint") as [|Hty];
    [exists []; by rewrite with_calls_nil; auto|].
  destruct (chosen_template (config w) queryKey) as [query|] eqn:Hq;
    [|exists []; by rewrite with_calls_nil; auto].
  destruct (push_params _ _ _) as [args|e] eqn:Hargs;
    [|exists []; by rewrite with_calls_nil; auto].
  apply push_params_extends in Hargs as (more & ->).
  eexists. split; [done|]. right. split; [done|]. by exists query, more.
Qed.

(** The sanitiser stage logs nothing when there is no placeholder to send,
    and one request that carries the placeholders otherwise. *)
Lemma expandProperties_calls (rawProperties : list obj) (w : World) :
  (_expandProperties preq_post parseWikidataValue JSON_parse rawProperties w).2
  = match rmap (placeholder parseWikidataValue) rawProperties with
    | Ok (feature :: props) =>
        with_calls w [HttpPost (sanitizer_request (config w) (feature :: props))]
    | _ => w
    end.
Proof.
  unfold _expandProperties. unfold bind at 1. unfold lift at 1.
  destruct (rmap (placeholder parseWikidataValue) rawProperties) as [props|]; [|done].
  destruct props as [|feature props]; simpl Nat.eqb; cbv iota; [done|].
  unfold bind, get_config, http_post, emit, lift, throw, ret. simpl.
  fold (sanitizer_request (config w) (feature :: props)).
  fold (with_calls w [HttpPost (sanitizer_request (config w) (feature :: props))]).
  destruct (preq_post _) as [resp|]; [|done].
  destruct (member_opt "error" (resp_body resp)) as [error|]; [|done].
  destruct (member_opt "sanitize-mapdata" (resp_body resp)) as [body|]; [|done].
  destruct (truthy error); [done|].
  destruct (negb (truthy body)); [done|].
  destruct (truthy (default JUndefined (member_opt "error" body))); [done|].
  destruct (negb (truthy (default JUndefined (member_opt "sanitized" body)))); [done|].
  destruct (parse_sanitized _ _) as [[| | | | |rows| |]|]; simpl; try done.
  by destruct (rmap restore_id rows).
Qed.

Lemma expandProperties_world (rawProperties : list obj) (w : World) :
  ∃ p, (_expandProperties preq_post parseWikidataValue JSON_parse rawProperties w).2
       = with_calls w p
       ∧ (p = []
          ∨ rawProperties ≠ []
            ∧ ∃ props, rmap (placeholder parseWikidataValue) rawProperties = Ok props
                       ∧ p = [HttpPost (sanitizer_request (config w) props)]).
Proof.
  rewrite expandProperties_calls.
  destruct (rmap (placeholder parseWikidataValue) rawProperties) as [props|] eqn:Hprops;
    [|exists []; by rewrite with_calls_nil; auto].
  pose proof (rmap_length _ _ _ Hprops) as Hlen.
  destruct props as [|feature props]; [exists []; by rewrite with_calls_nil; auto|].
  eexists. split; [done|]. right. split; [by destruct rawProperties|]. by eexists.
Qed.

(** Without a query to send, the graph stage returns no row. *)
Lemma runWikidataQuery_no_query (type : string) (query : option string)
  (ids : list string) (customIdColumn xClientIp : option string) (w : World) :
  truthy_str (effective_query this type query ids) = false →
  _runWikidataQuery preq_get parseWikidataValue this type query ids
    customIdColumn xClientIp w
  = (Ok [], w).
Proof.
  intros Hq. unfold _runWikidataQuery. fold (effective_query this type query ids).
  by rewrite Hq.
Qed.

(** [execute], stage by stage. *)
Lemma execute_stages (xClientIp : option string) (w : World) :
  execute preq_get preq_post db_query parseWikidataValue JSON_parse Topology
    topojson_topology this xClientIp w
  = match _runWikidataQuery preq_get parseWikidataValue this (type this)
            (sparqlQuery (parsed this)) (ids (parsed this)) (idColumn (parsed this))
            xClientIp w with
    | (Throw e, w1) => (Throw e, w1)
    | (Ok rawProperties, w1) =>
        let geo := _runSqlQuery db_query (type this) (store_ids this rawProperties)
                     (queryName (parsed this)) (reqParams this) w1 in
        let clean := _expandProperties preq_post parseWikidataValue JSON_parse
                       rawProperties geo.2 in
        (match geo.1, clean.1 with
         | Ok geoRows, Ok cleanProperties =>
             match assemble JSON_parse this (type this) geoRows cleanProperties with
             | Ok (features, _) =>
                 encode Topology topojson_topology features (useGeoJson (parsed this))
             | Throw e => Throw e
             end
         | Throw e, Ok _ => Throw e
         | Ok _, Throw e => Throw e
         | Throw ea, Throw eb =>
             if negb (length (calls geo.2) =? length (calls w1))%nat
                && (length (calls clean.2) =? length (calls geo.2))%nat
             then Throw eb
             else Throw ea
         end, clean.2)
    end.
Proof.
  unfold execute. unfold bind at 1.
  destruct (_runWikidataQuery _ _ _ _ _ _ _ _ _) as [[raw|e] w1]; [|done].
  unfold bind, Promise_all, lift, ret, _wrapResult. fold (store_ids this raw).
  destruct (_runSqlQuery _ _ _ _ _ _) as [[rows|e1] w2]. all: simpl.
  all: destruct (_expandProperties _ _ _ _ _) as [[clean|e2] w3]; simpl; try done.
  - destruct (assemble _ _ _ _ _) as [[features store]|e3]; simpl; [|done].
    by destruct (encode _ _ _ _).
  - by destruct (negb _ && _).
Qed.

(** The calls of [execute], in the order in which they are made. *)
Lemma execute_trace (xClientIp : option string) (w : World) :
  let query := effective_query this (type this) (sparqlQuery (parsed this))
                 (ids (parsed this)) in
  let graph := _runWikidataQuery preq_get parseWikidataValue this (type this)
                 (sparqlQuery (parsed this)) (ids (parsed this))
                 (idColumn (parsed this)) xClientIp w in
  ∃ d p,
    (execute preq_get preq_post db_query parseWikidataValue JSON_parse Topology
       topojson_topology this xClientIp w).2
    = with_calls graph.2 (d ++ p)
    ∧ (d = []
       ∨ type this ≠ "geopoint"
         ∧ ∃ rawProperties template more,
             graph.1 = Ok rawProperties
             ∧ chosen_template (config graph.2) (queryName (parsed this)) = Some template
             ∧ d = [DbQuery (sql template)
                      (JStr (table_for (config graph.2) (type this))
                       :: JArr (store_ids this rawProperties) :: more)])
    ∧ (p = []
       ∨ truthy_str query = true
         ∧ ∃ rawProperties props,
             graph.1 = Ok rawProperties
             ∧ rmap (placeholder parseWikidataValue) rawProperties = Ok props
             ∧ p = [HttpPost (sanitizer_request (config graph.2) props)]).
Proof.
  intros query graph. rewrite execute_stages. fold graph.
  destruct graph as [[raw|e] w1] eqn:Hgraph; simpl.
  2:{ exists [], []. rewrite with_calls_nil. by auto. }
  destruct (runSqlQuery_world (type this) (store_ids this raw) (queryName (parsed this))
              (reqParams this) w1) as (d & Hd & Hdc).
  destruct (expandProperties_world raw
              (_runSqlQuery db_query (type this) (store_ids this raw)
                 (queryName (parsed this)) (reqParams this) w1).2) as (p & Hp & Hpc).
  exists d, p. rewrite Hp, Hd, with_calls_app. split; [done|]. split.
  - destruct Hdc as [->|(Hty & template & more & Ht & ->)]; [by left|].
    right. split; [done|]. by exists raw, template, more.
  - destruct Hpc as [->|(Hraw & props & Hprops & ->)]; [by left|].
    right. split.
    + destruct (truthy_str query) eqn:Hq; [done|].
      subst graph. rewrite (runWikidataQuery_no_query _ _ _ _ _ _ Hq) in Hgraph.
      by injection Hgraph as <- <-.
    + exists raw, props. rewrite Hd. by simpl.
Qed.

(** The calls of [execute], seen from the world in which it starts. *)
Lemma execute_new_calls (xClientIp : option string) (w : World) :
  let query := effective_query this (type this) (sparqlQuery (parsed this))
                 (ids (parsed this)) in
  let graph := _runWikidataQuery preq_get parseWikidataValue this (type this)
                 (sparqlQuery (parsed this)) (ids (parsed this))
                 (idColumn (parsed this)) xClientIp w in
  ∃ d p,
    new_calls w
      (execute preq_get preq_post db_query parseWikidataValue JSON_parse Topology
         topojson_topology this xClientIp w).2
    = ((if truthy_str query
        then [HttpGet (graph_request (config w) query xClientIp)] else [])
       ++ d ++ p)%list
    ∧ (d = []
       ∨ type this ≠ "geopoint"
         ∧ ∃ rawProperties template more,
             graph.1 = Ok rawProperties
             ∧ chosen_template (config w) (queryName (parsed this)) = Some template
             ∧ d = [DbQuery (sql template)
                      (JStr (table_for (config w) (type this))
                       :: JArr (store_ids this rawProperties) :: more)])
    ∧ (p = []
       ∨ truthy_str query = true
         ∧ ∃ rawProperties props,
             graph.1 = Ok rawProperties
             ∧ rmap (placeholder parseWikidataValue) rawProperties = Ok props
             ∧ p = [HttpPost (sanitizer_request (config w) props)]).
Proof.
  intros query graph.
  destruct (execute_trace xClientIp w) as (d & p & Hw & Hd & Hp).
  fold query graph in Hw, Hd, Hp. exists d, p. rewrite Hw.
  assert (graph.2 = if truthy_str query
                    then after_graph_request w query xClientIp else w) as Hg
    by apply runWikidataQuery_world.
  assert (chosen_template (config graph.2) (queryName (parsed this))
          = chosen_template (config w) (queryName (parsed this))
          ∧ table_for (config graph.2) (type this) = table_for (config w) (type this)
          ∧ ∀ props, sanitizer_request (config graph.2) props
                     = sanitizer_request (config w) props) as (Ht & Htab & Hreq).
  { rewrite Hg. by destruct (truthy_str query). }
  rewrite Ht, Htab in Hd. setoid_rewrite Hreq in Hp.
  split; [|done]. rewrite Hg. destruct (truthy_str query).
  - unfold new_calls, with_calls. simpl. rewrite <-app_assoc. apply drop_app_length.
  - apply new_calls_with_calls.
Qed.

Lemma execute_config (xClientIp : option string) (w : World) :
  config (execute preq_get preq_post db_query parseWikidataValue JSON_parse Topology
            topojson_topology this xClientIp w).2
  = config (_runWikidataQuery preq_get parseWikidataValue this (type this)
              (sparqlQuery (parsed this)) (ids (parsed this))
              (idColumn (parsed this)) xClientIp w).2.
Proof.
  destruct (execute_trace xClientIp w) as (d & p & Hw & _). by rewrite Hw.
Qed.

Lemma with_sparqlHeaders_same (c : Config) : with_sparqlHeaders (sparqlHeaders c) c = c.
Proof. by destruct c. Qed.

End Pipeline.

(** X6.  A request that names no entity and carries no query (an id list
    made of commas passes the Request Normalizer with an empty id set) reaches
    no service at all: [execute] leaves the world as it is and returns the
    encoding of an empty feature list (the empty collection itself for flat
    output, what the encoder makes of it otherwise). *)
Theorem execute_empty_request
  (preq_get : GetRequest → result Response)
  (preq_post : PostRequest → result Response)
  (db_query : option string → list jsval → result (list GeometryRow))
  (parseWikidataValue : jsval → bool → result jsval)
  (JSON_parse : string → result jsval) (Topology : Type)
  (topojson_topology : list (string * list Feature) → (Feature → obj) → result Topology)
  (this : GeoShapes) (xClientIp : option string) (w : World) :
  ids (parsed this) = [] →
  truthy_str (sparqlQuery (parsed this)) = false →
  execute preq_get preq_post db_query parseWikidataValue JSON_parse Topology
    topojson_topology this xClientIp w
  = (encode Topology topojson_topology [] (useGeoJson (parsed this)), w).
Proof.
  intros Hids Hq. rewrite execute_stages.
  rewrite runWikidataQuery_no_query
    by (unfold effective_query; rewrite Hids; simpl; by rewrite andb_false_r).
  unfold store_ids. rewrite Hids. simpl.
  unfold assemble. by destruct (String.eqb (type this) "geopoint").
Qed.

Lemma execute_empty_request_witness :
  _parseParams Fixture.cfg Fixture.req_commas = Ok Fixture.params_none
  ∧ execute Fixture.preq_get Fixture.preq_post Fixture.db_query
      Fixture.parseWikidataValue Fixture.JSON_parse _ Fixture.topojson_topology
      Fixture.geoshape_none (Some "203.0.113.7") Fixture.world
    = (Ok (TopoJSON [("data", [])]), Fixture.world).
Proof.
  split; [reflexivity|].
  apply (execute_empty_request Fixture.preq_get Fixture.preq_post Fixture.db_query
           Fixture.parseWikidataValue Fixture.JSON_parse _ Fixture.topojson_topology
           Fixture.geoshape_none (Some "203.0.113.7") Fixture.world);
    reflexivity.
Defined.

(** X20.  The calls that one [execute] makes, in order: at most one request
    to the graph-query endpoint (exactly when there is a query to send: the
    explicit one, or the synthesised one for points with ids), then at most
    one call to the spatial store, then at most one request to the
    sanitisation endpoint.  A point request never reaches the spatial store,
    and the sanitisation endpoint is reached only after a graph query. *)
Theorem execute_call_order
  (preq_get : GetRequest → result Response)
  (preq_post : PostRequest → result Response)
  (db_query : option string → list jsval → result (list GeometryRow))
  (parseWikidataValue : jsval → bool → result jsval)
  (JSON_parse : string → result jsval) (Topology : Type)
  (topojson_topology : list (string * list Feature) → (Feature → obj) → result Topology)
  (this : GeoShapes) (xClientIp : option string) (w : World) :
  let query := effective_query this (type this) (sparqlQuery (parsed this))
                 (ids (parsed this)) in
  ∃ g d p,
    new_calls w
      (execute preq_get preq_post db_query parseWikidataValue JSON_parse Topology
         topojson_topology this xClientIp w).2
    = (g ++ d ++ p)%list
    ∧ g = (if truthy_str query
           then [HttpGet (graph_request (config w) query xClientIp)] else [])
    ∧ (d = [] ∨ type this ≠ "geopoint" ∧ ∃ sql args, d = [DbQuery sql args])
    ∧ (p = [] ∨ truthy_str query = true
                ∧ ∃ request, p = [HttpPost request]
                             ∧ post_uri request = mwapi (config w)).
Proof.
  intros query.
  destruct (execute_new_calls preq_get preq_post db_query parseWikidataValue JSON_parse
              Topology topojson_topology this xClientIp w) as (d & p & Hc & Hd & Hp).
  eexists _, d, p. split; [exact Hc|]. split; [done|]. split.
  - destruct Hd as [->|(Hty & raw & template & more & _ & _ & ->)]; [by left|].
    right. split; [done|]. by eexists _, _.
  - destruct Hp as [->|(Hq & raw & props & _ & _ & ->)]; [by left|].
    right. split; [done|]. by eexists.
Qed.

(** X21.  What the spatial store is asked.  When the graph query has
    returned rows and their ids are strings, then in every store call that
    [execute] makes the first argument is the table of the kind and the
    second is the list of the ids of the request followed by the ids of the
    rows, in this order, each id once, at the place where it occurs first:
    the ids that the graph query resolved are sent along with the ids of
    the request. *)
Theorem execute_store_ids
  (preq_get : GetRequest → result Response)
  (preq_post : PostRequest → result Response)
  (db_query : option string → list jsval → result (list GeometryRow))
  (parseWikidataValue : jsval → bool → result jsval)
  (JSON_parse : string → result jsval) (Topology : Type)
  (topojson_topology : list (string * list Feature) → (Feature → obj) → result Topology)
  (this : GeoShapes) (xClientIp : option string) (w : World)
  (rawProperties : list obj) (queried : list string)
  (sql : option string) (args : list jsval) :
  (_runWikidataQuery preq_get parseWikidataValue this (type this)
     (sparqlQuery (parsed this)) (ids (parsed this)) (idColumn (parsed this))
     xClientIp w).1 = Ok rawProperties →
  map (Obj.prop "id") rawProperties = JStr <$> queried →
  DbQuery sql args
  ∈ new_calls w
      (execute preq_get preq_post db_query parseWikidataValue JSON_parse Topology
         topojson_topology this xClientIp w).2 →
  ∃ more,
    args = JStr (table_for (config w) (type this))
           :: JArr (JStr <$> first_occurrences (ids (parsed this) ++ queried))
           :: more.
Proof.
  intros Hraw Hqueried Hin.
  destruct (execute_new_calls preq_get preq_post db_query parseWikidataValue JSON_parse
              Topology topojson_topology this xClientIp w) as (d & p & Hc & Hd & Hp).
  rewrite Hc in Hin. apply elem_of_app in Hin as [Hin|Hin].
  { destruct (truthy_str _); [|by apply elem_of_nil in Hin].
    by apply list_elem_of_singleton in Hin. }
  apply elem_of_app in Hin as [Hin|Hin].
  - destruct Hd as [->|(_ & raw & template & more & Hraw' & _ & ->)];
      [by apply elem_of_nil in Hin|].
    apply list_elem_of_singleton in Hin. injection Hin as -> ->.
    rewrite Hraw in Hraw'. injection Hraw' as <-.
    rewrite (store_ids_strings this rawProperties queried Hqueried).
    by exists more.
  - destruct Hp as [->|(_ & raw & props & _ & _ & ->)]; [by apply elem_of_nil in Hin|].
    by apply list_elem_of_singleton in Hin.
Qed.

Lemma execute_store_ids_witness :
  ∃ more,
    [JStr "wikidata_relation_polygon"; JArr [JStr "Q2"; JStr "Q1"]]
    = JStr (table_for Fixture.cfg "geoshape")
      :: JArr (JStr <$> first_occurrences (["Q2"] ++ ["Q1"]))
      :: more.
Proof.
  apply (execute_store_ids Fixture.preq_get Fixture.preq_post Fixture.db_query
           Fixture.parseWikidataValue Fixture.JSON_parse _ Fixture.topojson_topology
           Fixture.geoshape_query_ids None Fixture.world
           [[ ("marker_color", Fixture.literal "f00");
              ("title", Fixture.literal "Universe");
              ("id", JStr "Q1") ]]
           ["Q1"]
           (Some "SELECT id, ST_AsGeoJSON(way) as data FROM $1~ WHERE id IN ($2:csv)")
           [JStr "wikidata_relation_polygon"; JArr [JStr "Q2"; JStr "Q1"]]).
  - reflexivity.
  - reflexivity.
  - vm_compute. apply list_elem_of_further, list_elem_of_here.
Defined.

(** X22.  What [execute] may change in the shared configuration: nothing but
    the [X-Client-IP] entry of the SPARQL headers, and nothing at all when no
    graph query is sent. *)
Theorem execute_config_frame
  (preq_get : GetRequest → result Response)
  (preq_post : PostRequest → result Response)
  (db_query : option string → list jsval → result (list GeometryRow))
  (parseWikidataValue : jsval → bool → result jsval)
  (JSON_parse : string → result jsval) (Topology : Type)
  (topojson_topology : list (string * list Feature) → (Feature → obj) → result Topology)
  (this : GeoShapes) (xClientIp : option string) (w : World) :
  let after := config (execute preq_get preq_post db_query parseWikidataValue
                         JSON_parse Topology topojson_topology this xClientIp w).2 in
  after = with_sparqlHeaders (sparqlHeaders after) (config w)
  ∧ (∀ name, name ≠ "X-Client-IP" →
             sparqlHeaders after !! name = sparqlHeaders (config w) !! name)
  ∧ (truthy_str (effective_query this (type this) (sparqlQuery (parsed this))
                   (ids (parsed this))) = false →
     after = config w).
Proof.
  intros after. subst after. rewrite execute_config, runWikidataQuery_world.
  destruct (truthy_str _); simpl.
  - split; [done|]. split; [|done].
    intros name Hne. unfold Object_assign_client_ip. by apply lookup_insert_ne.
  - by rewrite with_sparqlHeaders_same.
Qed.

(** X23.  A request for lines or polygons by pairwise distinct ids alone,
    end to end: no request goes to the graph-query or to the sanitisation
    endpoint, the spatial store is asked for the ids of the request, and
    when the data of the rows it returns parse, the result is the encoding
    of one feature per row, with the row's id, the parsed geometry and
    empty properties. *)
Theorem execute_ids_only_shapes
  (preq_get : GetRequest → result Response)
  (preq_post : PostRequest → result Response)
  (db_query : option string → list jsval → result (list GeometryRow))
  (parseWikidataValue : jsval → bool → result jsval)
  (JSON_parse : string → result jsval) (Topology : Type)
  (topojson_topology : list (string * list Feature) → (Feature → obj) → result Topology)
  (this : GeoShapes) (xClientIp : option string) (w w' : World)
  (rows : list GeometryRow) (geometry : GeometryRow → jsval) :
  truthy_str (sparqlQuery (parsed this)) = false →
  type this ≠ "geopoint" →
  NoDup (ids (parsed this)) →
  _runSqlQuery db_query (type this) (JStr <$> ids (parsed this))
    (queryName (parsed this)) (reqParams this) w = (Ok rows, w') →
  (∀ row, row ∈ rows → JSON_parse (row_data row) = Ok (geometry row)) →
  execute preq_get preq_post db_query parseWikidataValue JSON_parse Topology
    topojson_topology this xClientIp w
  = (encode Topology topojson_topology
       ((fun row => {| f_id := JStr (row_id row);
                       f_properties := [];
                       f_geometry := geometry row |}) <$> rows)
       (useGeoJson (parsed this)),
     w').
Proof.
  intros Hq Hty Hnd Hsql Hparse. rewrite execute_stages.
  rewrite runWikidataQuery_no_query.
  2:{ unfold effective_query. destruct (String.eqb_spec (type this) "geopoint"); [done|].
      by rewrite andb_false_r. }
  destruct (store_ids_prefix this [] Hnd) as (rest & -> & Hrest).
  apply sublist_nil_r in Hrest as ->. rewrite app_nil_r, Hsql. simpl.
  by rewrite (assemble_shapes_none JSON_parse geometry this (type this) rows Hparse).
Qed.

Lemma execute_ids_only_shapes_witness :
  execute Fixture.preq_get Fixture.preq_post Fixture.db_query
    Fixture.parseWikidataValue Fixture.JSON_parse _ Fixture.topojson_topology
    Fixture.geoshape None Fixture.world
  = (Ok (FeatureCollection
           [ {| f_id := JStr "Q1"; f_properties := []; f_geometry := Fixture.polygon |};
             {| f_id := JStr "Q1"; f_properties := []; f_geometry := Fixture.polygon |} ]),
     with_calls Fixture.world
       [DbQuery (Some "SELECT id, ST_AsGeoJSON(way) as data FROM $1~ WHERE id IN ($2:csv)")
          [JStr "wikidata_relation_polygon"; JArr [JStr "Q1"]]]).
Proof.
  refine (execute_ids_only_shapes Fixture.preq_get Fixture.preq_post Fixture.db_query
            Fixture.parseWikidataValue Fixture.JSON_parse _ Fixture.topojson_topology
            Fixture.geoshape None Fixture.world _ [Fixture.row_q1; Fixture.row_q1]
            Fixture.geometry_of _ _ _ _ _).
  - reflexivity.
  - discriminate.
  - apply NoDup_singleton.
  - reflexivity.
  - intros row Hrow.
    repeat (apply elem_of_cons in Hrow as [->|Hrow]; [reflexivity|]).
    by apply elem_of_nil in Hrow.
Defined.



(** X25.  The two stages after the graph query are started together.  When
    the Spatial Query Runner rejects a request parameter, [execute] fails
    with InvalidParam and the spatial store is not asked, but the request
    to the sanitisation endpoint, carrying the placeholders of the raw rows,
    has been sent all the same. *)
Theorem execute_invalid_param_after_sanitizer_request
  (preq_get : GetRequest → result Response)
  (preq_post : PostRequest → result Response)
  (db_query : option string → list jsval → result (list GeometryRow))
  (parseWikidataValue : jsval → bool → result jsval)
  (JSON_parse : string → result jsval) (Topology : Type)
  (topojson_topology : list (string * list Feature) → (Feature → obj) → result Topology)
  (this : GeoShapes) (xClientIp : option string) (w w1 : World)
  (rawProperties : list obj) (template : QueryTemplate) (props : list jsval) :
  type this ≠ "geopoint" →
  _runWikidataQuery preq_get parseWikidataValue this (type this)
    (sparqlQuery (parsed this)) (ids (parsed this)) (idColumn (parsed this))
    xClientIp w = (Ok rawProperties, w1) →
  rawProperties ≠ [] →
  rmap (placeholder parseWikidataValue) rawProperties = Ok props →
  chosen_template (config w1) (queryName (parsed this)) = Some template →
  Exists (fun param => ∃ value, supplied (reqParams this) param = Some value
                                ∧ floatRegex_test value = true)
    (default [] (params template)) →
  ∃ name,
    (execute preq_get preq_post db_query parseWikidataValue JSON_parse Topology
       topojson_topology this xClientIp w).1 = Throw (InvalidParam name)
    ∧ new_calls w1
        (execute preq_get preq_post db_query parseWikidataValue JSON_parse Topology
           topojson_topology this xClientIp w).2
      = [HttpPost (sanitizer_request (config w1) props)].
Proof.
  intros Hty Hgraph Hraw Hprops Ht Hbad.
  destruct (push_params_throw (reqParams this) (default [] (params template))
              [JStr (table_for (config w1) (type this));
               JArr (store_ids this rawProperties)] Hbad) as [name Hthrow].
  exists name. rewrite execute_stages, Hgraph. rewrite runSqlQuery_cases.
  pose proof (store_ids_nonempty this rawProperties Hraw) as Hids.
  destruct (store_ids this rawProperties) as [|id l] eqn:Hstore; [done|].
  destruct (String.eqb_spec (type this) "geopoint"); [done|]. simpl orb. cbv iota.
  rewrite Ht, Hthrow. cbv zeta. cbn [fst snd]. rewrite Nat.eqb_refl. cbn [negb andb].
  split; [by destruct (_expandProperties _ _ _ _ _).1|].
  rewrite expandProperties_calls, Hprops.
  pose proof (rmap_length _ _ _ Hprops) as Hlen.
  destruct props as [|feature props]; [by destruct rawProperties|].
  apply new_calls_with_calls.
Qed.

Lemma execute_invalid_param_after_sanitizer_request_witness :
  ∃ name,
    (execute Fixture.preq_get Fixture.preq_post Fixture.db_query
       Fixture.parseWikidataValue Fixture.JSON_parse _ Fixture.topojson_topology
       Fixture.geoshape_query_simplify None Fixture.world).1
    = Throw (InvalidParam name)
    ∧ new_calls
        (_runWikidataQuery Fixture.preq_get Fixture.parseWikidataValue
           Fixture.geoshape_query_simplify "geoshape"
           (Some "SELECT ?id WHERE { ?id wdt:P31 wd:Q515 }") [] None None
           Fixture.world).2
        (execute Fixture.preq_get Fixture.preq_post Fixture.db_query
           Fixture.parseWikidataValue Fixture.JSON_parse _ Fixture.topojson_topology
           Fixture.geoshape_query_simplify None Fixture.world).2
      = [HttpPost
           (sanitizer_request Fixture.cfg
              [JObj [ ("type", JStr "Feature");
                      ("id", JStr "Q1");
                      ("properties", JObj [ ("marker-color", JStr "f00");
                                            ("title", JStr "Universe") ]);
                      ("geometry", point (JArr [JNum 0; JNum 0])) ]])].
Proof.
  refine (execute_invalid_param_after_sanitizer_request Fixture.preq_get
            Fixture.preq_post Fixture.db_query Fixture.parseWikidataValue
            Fixture.JSON_parse _ Fixture.topojson_topology
            Fixture.geoshape_query_simplify None Fixture.world
            (_runWikidataQuery Fixture.preq_get Fixture.parseWikidataValue
               Fixture.geoshape_query_simplify "geoshape"
               (Some "SELECT ?id WHERE { ?id wdt:P31 wd:Q515 }") [] None None
               Fixture.world).2
            [[ ("marker_color", Fixture.literal "f00");
               ("title", Fixture.literal "Universe");
               ("id", JStr "Q1") ]]
            {| sql := Some "SELECT id, ST_AsGeoJSON(ST_Simplify(way, $3)) as data FROM $1~ WHERE id IN ($2:csv)";
               params := Some [ {| param_name := Some "arg1";
                                   param_default := JNum 0.125 |} ] |}
            [JObj [ ("type", JStr "Feature");
                    ("id", JStr "Q1");
                    ("properties", JObj [ ("marker-color", JStr "f00");
                                          ("title", JStr "Universe") ]);
                    ("geometry", point (JArr [JNum 0; JNum 0])) ]]
            _ _ _ _ _ _).
  - discriminate.
  - reflexivity.
  - discriminate.
  - reflexivity.
  - reflexivity.
  - apply Exists_cons_hd. exists "0.5". split; reflexivity.
Defined.

(** ** [lib/core.js]: compressed tile data *)

Section CoreFacts.
Import Core.

Lemma all_ascii_complete (a : ascii) : In a all_ascii.
Proof.
  unfold all_ascii. rewrite <-(ascii_nat_embedding a). apply in_map, in_seq.
  pose proof (nat_ascii_bounded a). lia.
Qed.

(** Matching a character in either case is comparing the lower-case forms. *)
Lemma either_case (a c : ascii) :
  Ascii.eqb a (lower c) || Ascii.eqb a (upper c) = Ascii.eqb (lower a) (lower c).
Proof.
  assert (forallb (fun a => forallb (fun c =>
            Bool.eqb (Ascii.eqb a (lower c) || Ascii.eqb a (upper c))
              (Ascii.eqb (lower a) (lower c))) all_ascii) all_ascii = true) as H
    by (vm_compute; reflexivity).
  rewrite forallb_forall in H. specialize (H a (all_ascii_complete a)).
  rewrite forallb_forall in H. specialize (H c (all_ascii_complete c)).
  by apply Bool.eqb_prop in H.
Qed.

Lemma lang_literal_i (p s : string) :
  lang (literal_i p) s ↔ lowercase s = lowercase p.
Proof.
  revert s. induction p as [|c p IH]; intros s; simpl.
  - split.
    + intros ->%lang_eps_inv. done.
    + destruct s; [constructor | done].
  - split.
    + intros (s1 & s2 & -> & H1 & H2)%lang_seq_inv.
      apply IH in H2.
      assert (∃ a, s1 = String a EmptyString
                   ∧ Ascii.eqb a (lower c) || Ascii.eqb a (upper c) = true)
        as (a & -> & Ha).
      { apply lang_alt_inv in H1 as [->%lang_chr_inv| ->%lang_chr_inv];
          eexists; (split; [done|]); rewrite Ascii.eqb_refl; by rewrite ?orb_true_r. }
      rewrite either_case in Ha. apply Ascii.eqb_eq in Ha.
      rewrite append_cons, append_nil_l. simpl. by rewrite Ha, H2.
    + destruct s as [|a s]; simpl; [done|]. intros [= Ha Hs].
      apply IH in Hs. apply Ascii.eqb_eq in Ha. rewrite <-either_case in Ha.
      apply (lang_seq _ _ (String a EmptyString) s); [|done].
      apply orb_true_iff in Ha as [->%Ascii.eqb_eq| ->%Ascii.eqb_eq];
        [apply lang_alt_l | apply lang_alt_r]; constructor.
Qed.

Lemma contentEncoderRe_test_spec (key : string) :
  contentEncoderRe_test key = true ↔ lowercase key = "content-encoding".
Proof.
  unfold contentEncoderRe_test, contentEncoderRe.
  by rewrite full_match_lang, lang_literal_i.
Qed.

Lemma filter_iff_on {A} (P1 P2 : A → Prop)
  `{!∀ x, Decision (P1 x), !∀ x, Decision (P2 x)} (l : list A) :
  (∀ x, x ∈ l → P1 x ↔ P2 x) → filter P1 l = filter P2 l.
Proof.
  induction l as [|a l IH]; intros Hiff; [done|].
  rewrite !filter_cons, IH by (intros; apply Hiff; by apply list_elem_of_further).
  apply decide_ext, Hiff, list_elem_of_here.
Qed.

Lemma delete_matching_keys (ks : list string) (headers : obj) :
  foldl (fun headers key =>
           if contentEncoderRe_test key then Obj.delete key headers else headers)
    headers ks
  = filter (fun kv => ¬ (contentEncoderRe_test kv.1 = true ∧ kv.1 ∈ ks)) headers.
Proof.
  revert headers. induction ks as [|k ks IH]; intros headers; simpl.
  - symmetry. induction headers as [|kv h IHh]; [done|].
    rewrite filter_cons_True by (intros [_ []%elem_of_nil]). by f_equal.
  - rewrite IH. destruct (contentEncoderRe_test k) eqn:Hk.
    + unfold Obj.delete. rewrite list_filter_filter. apply list_filter_iff.
      intros kv. rewrite elem_of_cons. split.
      * intros [H1 H2] [Ht [E|Hin]]; [done | by apply H1].
      * intros H. split; [intros [? ?]; apply H; auto|].
        intros E. apply H. rewrite E. auto.
    + apply list_filter_iff. intros kv. rewrite elem_of_cons. split.
      * intros H [Ht [E|Hin]]; [rewrite E in Ht; congruence | by apply H].
      * intros H [? ?]. apply H; auto.
Qed.

Lemma delete_content_encoding_spec (headers : obj) :
  delete_content_encoding headers = without_content_encoding headers.
Proof.
  unfold delete_content_encoding, without_content_encoding.
  rewrite delete_matching_keys. apply filter_iff_on. intros kv Hin.
  rewrite contentEncoderRe_test_spec. split.
  - intros H E. apply H. split; [done|]. unfold Obj.keys.
    apply list_elem_of_fmap. by exists kv.
  - intros H [E _]. done.
Qed.

Lemma without_content_encoding_set (v : jsval) (headers : obj) :
  without_content_encoding (Obj.set "Content-Encoding" v headers)
  = without_content_encoding headers.
Proof.
  unfold without_content_encoding. induction headers as [|[k w] h IH]; [done|].
  change (Obj.set "Content-Encoding" v ((k, w) :: h))
    with (if String.eqb "Content-Encoding" k then (k, v) :: h
          else (k, w) :: Obj.set "Content-Encoding" v h).
  destruct (String.eqb_spec "Content-Encoding" k) as [<-|Hne].
  - by rewrite !filter_cons_False by (intros Hk; by apply Hk).
  - rewrite !filter_cons, IH. done.
Qed.

Lemma uncompressAsync_unfold
  (gunzip inflate : list Byte.byte → result (list Byte.byte))
  (data : option (list Byte.byte)) (headers : option obj) :
  uncompressAsync gunzip inflate data headers
  = if starts_with Byte.x1f Byte.x8b data
    then (rbind (gunzip (default [] data)) (fun raw => Ok (Some raw)),
          without_content_encoding <$> headers)
    else if starts_with Byte.x78 Byte.x9c data
    then (rbind (inflate (default [] data)) (fun raw => Ok (Some raw)),
          without_content_encoding <$> headers)
    else (Ok data, headers).
Proof.
  assert (delete_content_encoding <$> headers
          = without_content_encoding <$> headers) as Hh
    by (destruct headers; simpl; by rewrite ?delete_content_encoding_spec).
  unfold uncompressAsync, starts_with, byte_is.
  destruct data as [[|c0 [|c1 d]]|]; simpl; try done.
  - by destruct (Byte.eqb c0 Byte.x1f), (Byte.eqb c0 Byte.x78).
  - rewrite Hh.
    destruct (Byte.eqb c0 Byte.x1f), (Byte.eqb c1 Byte.x8b),
      (Byte.eqb c0 Byte.x78), (Byte.eqb c1 Byte.x9c); done.
Qed.

End CoreFacts.

(** X26.  The pattern with which [uncompressAsync] picks the headers to
    remove matches a header name exactly when the name, its ASCII letters put
    in lower case, is [content-encoding]: every spelling of the case, and
    nothing longer or shorter. *)
Theorem content_encoding_pattern (key : string) :
  Core.contentEncoderRe_test key = true ↔ Core.lowercase key = "content-encoding".
Proof. apply contentEncoderRe_test_spec. Qed.

(** X27.  [uncompressAsync] looks at the first two bytes only.  Data that
    begins with 1F 8B goes through [gunzip], data that begins with 78 9C
    through [inflate], and in both cases every header named
    [Content-Encoding], in any spelling of the case, is removed and the other
    headers are kept in their order.  Any other data, empty or absent data
    included, is returned as it is, with the headers untouched. *)
Theorem uncompressAsync_cases
  (gunzip inflate : list Byte.byte → result (list Byte.byte))
  (data : option (list Byte.byte)) (headers : option obj) :
  Core.uncompressAsync gunzip inflate data headers
  = if Core.starts_with Byte.x1f Byte.x8b data
    then (rbind (gunzip (default [] data)) (fun raw => Ok (Some raw)),
          Core.without_content_encoding <$> headers)
    else if Core.starts_with Byte.x78 Byte.x9c data
    then (rbind (inflate (default [] data)) (fun raw => Ok (Some raw)),
          Core.without_content_encoding <$> headers)
    else (Ok data, headers).
Proof. apply uncompressAsync_unfold. Qed.

(** X28.  Compression and decompression are inverse on the data, for a
    [zlib] whose [gzip] output begins with the gzip magic number and is read
    back by [gunzip]: what [compressPbfAsync2] or [compressPbfAsync] returns,
    [uncompressAsync] turns back into the data that was given.  Empty data is
    not compressed at all, and its headers come back as they were; for other
    data the headers come back without any [Content-Encoding]. *)
Theorem compress_uncompress_round_trip
  (gunzip inflate gzip : list Byte.byte → result (list Byte.byte))
  (data : list Byte.byte) (headers : obj) :
  (∀ d z, gzip d = Ok z →
          z !! 0%nat = Some Byte.x1f ∧ z !! 1%nat = Some Byte.x8b ∧ gunzip z = Ok d) →
  let expected :=
    (Ok (Some data),
     Some (if (length data =? 0)%nat then headers
           else Core.without_content_encoding headers)) in
  (∀ pbfz headers',
     Core.compressPbfAsync2 gzip (Some data) (Some headers) = Ok (pbfz, headers') →
     Core.uncompressAsync gunzip inflate pbfz headers' = expected)
  ∧ (∀ res,
       Core.compressPbfAsync gzip
         {| Core.res_data := Some data; Core.res_headers := Some headers |} = Ok res →
       Core.uncompressAsync gunzip inflate (Core.res_data res) (Core.res_headers res)
       = expected).
Proof.
  intros Hzlib expected. subst expected.
  assert (∀ z, gzip data = Ok z →
               Core.uncompressAsync gunzip inflate (Some z)
                 (Some (Obj.set "Content-Encoding" (JStr "gzip") headers))
               = (Ok (Some data), Some (Core.without_content_encoding headers))) as Hback.
  { intros z (H0 & H1 & Hz)%Hzlib. rewrite uncompressAsync_unfold.
    destruct z as [|c0 [|c1 z]]; try done. simpl in H0, H1.
    injection H0 as ->. injection H1 as ->. simpl. rewrite Hz. simpl.
    by rewrite without_content_encoding_set. }
  unfold Core.compressPbfAsync2, Core.compressPbfAsync. simpl.
  destruct data as [|b data]; simpl.
  - split; [intros ? ? [= <- <-] | intros ? [= <-]]; done.
  - split.
    + intros pbfz headers'. destruct (gzip (b :: data)) as [z|] eqn:Hz; [|done].
      simpl. intros [= <- <-]. by apply Hback.
    + intros res. destruct (gzip (b :: data)) as [z|] eqn:Hz; [|done].
      simpl. intros [= <-]. simpl. by apply Hback.
Qed.

Lemma compress_uncompress_round_trip_witness :
  (∀ pbfz headers',
     Core.compressPbfAsync2 Fixture.gzip (Some [Byte.x0a; Byte.x02])
       (Some Fixture.tile_headers) = Ok (pbfz, headers') →
     Core.uncompressAsync Fixture.gunzip Fixture.inflate pbfz headers'
     = (Ok (Some [Byte.x0a; Byte.x02]),
        Some [ ("Content-Type", JStr "application/x-protobuf");
               ("ETag", JStr "abc") ]))
  ∧ (∀ res,
       Core.compressPbfAsync Fixture.gzip
         {| Core.res_data := Some [Byte.x0a; Byte.x02];
            Core.res_headers := Some Fixture.tile_headers |} = Ok res →
       Core.uncompressAsync Fixture.gunzip Fixture.inflate (Core.res_data res)
         (Core.res_headers res)
       = (Ok (Some [Byte.x0a; Byte.x02]),
          Some [ ("Content-Type", JStr "application/x-protobuf");
                 ("ETag", JStr "abc") ])).
Proof.
  apply (compress_uncompress_round_trip Fixture.gunzip Fixture.inflate Fixture.gzip
           [Byte.x0a; Byte.x02] Fixture.tile_headers).
  intros d z [= <-]. done.
Defined.
